(** * Sales-order dashboard: the order reconciliation pipeline

    A shallow embedding of the key normaliser, the ranking query, the
    verification merge, the reconciliation cycle ([load]) and the action
    handlers of the dashboard, with the properties checked against them.

    Conventions of the embedding.
    - A JavaScript string is a [string] of code units; the model covers the
      code units 0..127 (ASCII): [toUpperCase] maps [a-z] to [A-Z], the
      white-space class of [\s] and [trim] is TAB, LF, VT, FF, CR and SPACE,
      the line terminators that [.] refuses are LF and CR.
    - [null] and [undefined] fields of a row are [None].
    - A JavaScript number is a [num]: a finite value (an integer, as the
      quantities and counts of this program are), the two infinities or NaN.
    - [Set<string>] is a [gset string], a [Record<string, V>] used as a
      dictionary is a [gmap string V], arrays are lists.
    - An asynchronous handler is the trace of its events, with a mark at
      every [await]; a setter call carries the value or the updater it is
      given.  [Dashboard.step] runs a handler to its end at once,
      [Dashboard.interleave] lets the handlers yield at their [await]s. *)

From Stdlib Require Import ZArith Ascii String Sorting.Sorted.
From stdpp Require Import gmap strings list sorting pretty.

Open Scope string_scope.
Open Scope Z_scope.

(** ** Characters and strings *)

Module Str.

Definition LF : ascii := ascii_of_nat 10.
Definition CR : ascii := ascii_of_nat 13.

(** The class [\s] (and what [trim] removes), on ASCII. *)
Definition is_space (c : ascii) : bool :=
  let n := nat_of_ascii c in
  ((9 <=? n)%nat && (n <=? 13)%nat) || (n =? 32)%nat.

(** [.] without the [s] flag matches every code unit but a line terminator:
    on ASCII, LF and CR (the two others, U+2028 and U+2029, are not
    ASCII). *)
Definition is_line_terminator (c : ascii) : bool :=
  let n := nat_of_ascii c in
  (n =? 10)%nat || (n =? 13)%nat.

Definition is_open (c : ascii) : bool := Ascii.eqb c "[".
Definition is_close (c : ascii) : bool := Ascii.eqb c "]".

Definition upper_char (c : ascii) : ascii :=
  let n := nat_of_ascii c in
  if ((97 <=? n)%nat && (n <=? 122)%nat)%bool then ascii_of_nat (n - 32) else c.

Definition lower_char (c : ascii) : ascii :=
  let n := nat_of_ascii c in
  if ((65 <=? n)%nat && (n <=? 90)%nat)%bool then ascii_of_nat (n + 32) else c.

Fixpoint map_chars (f : ascii -> ascii) (s : string) : string :=
  match s with
  | EmptyString => EmptyString
  | String c r => String (f c) (map_chars f r)
  end.

(** [s.toUpperCase()] and [s.toLowerCase()]. *)
Definition toUpperCase : string -> string := map_chars upper_char.
Definition toLowerCase : string -> string := map_chars lower_char.

Definition is_empty (s : string) : bool :=
  match s with EmptyString => true | _ => false end.

Fixpoint trimStart (s : string) : string :=
  match s with
  | EmptyString => EmptyString
  | String c r => if is_space c then trimStart r else s
  end.

Fixpoint trimEnd (s : string) : string :=
  match s with
  | EmptyString => EmptyString
  | String c r =>
      let r' := trimEnd r in
      if is_space c && is_empty r' then EmptyString else String c r'
  end.

(** [s.trim()]. *)
Definition trim (s : string) : string := trimEnd (trimStart s).

Fixpoint mem_char (p : ascii -> bool) (s : string) : bool :=
  match s with
  | EmptyString => false
  | String c r => p c || mem_char p r
  end.

(** *** The regular expression [/\s*\[.*?\]/g]

    [scan_close r] is the lazy [.*?\]] tried on [r], just after an opening
    bracket: the number of code units up to and including the first [']'],
    provided no line terminator comes before it. *)
Fixpoint scan_close (r : string) : option nat :=
  match r with
  | EmptyString => None
  | String c r' =>
      if is_close c then Some 1%nat
      else if is_line_terminator c then None
      else S <$> scan_close r'
  end.

(** [match_len s] is the length of the match of [\s*\[.*?\]] anchored at the
    start of [s], if there is one.  The greedy [\s*] takes the whole run of
    white space; giving some of it back cannot help, as the next code unit
    must be an opening bracket. *)
Fixpoint match_len (s : string) : option nat :=
  match s with
  | EmptyString => None
  | String c r =>
      if is_space c then S <$> match_len r
      else if is_open c then S <$> scan_close r
      else None
  end.

(** [s.replace(/\s*\[.*?\]/g, "")]: scan from the left; where the pattern
    matches, drop the match and resume after it; elsewhere keep the code
    unit.  [skip] counts the code units of the current match still to
    drop. *)
Fixpoint strip_go (skip : nat) (s : string) : string :=
  match s with
  | EmptyString => EmptyString
  | String c r =>
      match skip with
      | S k => strip_go k r
      | O =>
          match match_len s with
          | Some (S k) => strip_go k r
          | _ => String c (strip_go 0 r)
          end
      end
  end.

Definition strip_brackets (s : string) : string := strip_go 0 s.

(** [s.replace(/\s+/g, " ")]: every maximal run of white space becomes one
    space. *)
Fixpoint collapse_go (in_run : bool) (s : string) : string :=
  match s with
  | EmptyString => EmptyString
  | String c r =>
      if is_space c
      then if in_run then collapse_go true r else String " " (collapse_go true r)
      else String c (collapse_go false r)
  end.

Definition collapse_spaces (s : string) : string := collapse_go false s.

(** Predicates used to state the properties of the normaliser. *)

Fixpoint every_char (p : ascii -> bool) (s : string) : bool :=
  match s with
  | EmptyString => true
  | String c r => p c && every_char p r
  end.

(** The strings the model speaks for: every code unit is below 128. *)
Definition is_ascii (c : ascii) : bool := (nat_of_ascii c <? 128)%nat.
Definition ascii_only : string -> bool := every_char is_ascii.

(** Nothing but white space. *)
Definition white : string -> bool := every_char is_space.

Definition is_pipe (c : ascii) : bool := Ascii.eqb c "|".

Definition pipe_free (s : string) : bool := negb (mem_char is_pipe s).

Definition single_line (s : string) : bool := negb (mem_char is_line_terminator s).

(** No opening bracket of [s] has a closing bracket after it. *)
Fixpoint no_pair (s : string) : bool :=
  match s with
  | EmptyString => true
  | String c r => (if is_open c then negb (mem_char is_close r) else true) && no_pair r
  end.

(** [s] is empty or starts with a code unit that is not white space. *)
Definition starts_clean (s : string) : bool :=
  match s with
  | EmptyString => true
  | String c _ => negb (is_space c)
  end.

End Str.

(** ** Key normaliser *)

(** [value ?? ""]. *)
Definition orEmpty (v : option string) : string := default "" v.

Definition normalizeFieldForKey (value : option string) : string :=
  let v := orEmpty value in
  let stripped := Str.strip_brackets v in
  Str.toUpperCase (Str.trim stripped).

Definition makeDispatchKey (so customer item color : option string) : string :=
  normalizeFieldForKey so ++ "|" ++ normalizeFieldForKey customer ++ "|"
  ++ normalizeFieldForKey item ++ "|" ++ normalizeFieldForKey color.

Definition normItemKey (s : option string) : string :=
  match s with
  | None => ""
  | Some v =>
      if Str.is_empty v then ""
      else Str.toLowerCase (Str.trim (Str.collapse_spaces (Str.strip_brackets v)))
  end.

Definition normalizeCustomerForCompare (s : option string) : string :=
  Str.toLowerCase (Str.trim (Str.strip_brackets (orEmpty s))).
Definition normalizeItemForCompare (s : option string) : string :=
  Str.toLowerCase (Str.trim (orEmpty s)).
Definition normalizeColorForCompare (s : option string) : string :=
  Str.toLowerCase (Str.trim (orEmpty s)).

(** ** JavaScript values *)

(** A number: finite, an infinity or NaN. *)
Inductive num := Fin (z : Z) | PInf | NInf | NaN.

(** A value read from JSON or from a warehouse row (arrays are not needed
    by the code modelled here).  [undefined] is the absence of a value. *)
#[warnings="-register-all"]
Inductive jsval :=
  | JNull
  | JBool (b : bool)
  | JNum (n : num)
  | JStr (s : string)
  | JObj (fields : list (string * jsval)).

(** A [Record<string, unknown>]. *)
Abbreviation jsrecord := (gmap string jsval).

Module Js.

Definition num_to_string (n : num) : string :=
  match n with
  | Fin z => pretty z
  | PInf => "Infinity"
  | NInf => "-Infinity"
  | NaN => "NaN"
  end.

(** [String(v)] / [v.toString()]. *)
Definition toString (v : jsval) : string :=
  match v with
  | JNull => "null"
  | JBool true => "true"
  | JBool false => "false"
  | JNum n => num_to_string n
  | JStr s => s
  | JObj _ => "[object Object]"
  end.

(** Truthiness of a value (of [undefined], when absent). *)
Definition truthy (v : option jsval) : bool :=
  match v with
  | None | Some JNull => false
  | Some (JBool b) => b
  | Some (JNum (Fin z)) => negb (z =? 0)
  | Some (JNum NaN) => false
  | Some (JNum _) => true
  | Some (JStr s) => negb (Str.is_empty s)
  | Some (JObj _) => true
  end.

(** [v == null]: [null] or [undefined]. *)
Definition nullish (v : option jsval) : bool :=
  match v with
  | None | Some JNull => true
  | _ => false
  end.

(** Lookup of a property in an object literal, [o[k]]. *)
Fixpoint field (k : string) (o : list (string * jsval)) : option jsval :=
  match o with
  | [] => None
  | (k', v) :: o' => if String.eqb k k' then Some v else field k o'
  end.

(** [k in o]. *)
Definition has_field (k : string) (o : list (string * jsval)) : bool :=
  existsb (fun kv => String.eqb k kv.1) o.

(** A field read as a string: [(r.F as string) ?? null], then
    [(s ?? "").toString()] in the normalisers. *)
Definition as_string (v : option jsval) : option string :=
  match v with
  | None | Some JNull => None
  | Some w => Some (toString w)
  end.

End Js.

(** ** Verification boundary: the server-side merge *)

Module Verify.

(** [String(v).trim().length > 0], where [v] may be [undefined]. *)
Definition nonblank_as_string (v : option jsval) : bool :=
  match v with
  | None => true
  | Some w => negb (Str.is_empty (Str.trim (Js.toString w)))
  end.

Definition normalizeKeyPart (s : option string) : string :=
  Str.toUpperCase (Str.trim (Str.strip_brackets (orEmpty s))).

Definition makeGroupKey (so customer item color : option string) : string :=
  normalizeKeyPart so ++ "|" ++ normalizeKeyPart customer ++ "|"
  ++ normalizeKeyPart item ++ "|" ++ normalizeKeyPart color.

(** The local [hasTimestamp] of [mergeVerifyRows]. *)
Definition hasTimestamp (v : option jsval) : bool :=
  match v with
  | None | Some JNull => false
  | Some (JStr s) => negb (Str.is_empty (Str.trim s))
  | Some (JNum _) => true
  | Some (JObj o) =>
      if Js.has_field "value" o && nonblank_as_string (Js.field "value" o) then true
      else if Js.has_field "seconds" o && negb (Js.nullish (Js.field "seconds" o)) then true
      else (0 <? length o)%nat
  | Some (JBool _) => true
  end.

(** [existingVal === undefined || existingVal === null ||
     (typeof existingVal === "string" && String(existingVal).trim() === "")]. *)
Definition is_vacant (v : option jsval) : bool :=
  match v with
  | None | Some JNull => true
  | Some (JStr s) => Str.is_empty (Str.trim s)
  | _ => false
  end.

(** What one pass of the inner loop leaves in [existing[prop]], from the
    value it held and the value [r[prop]] of the incoming record ([None]:
    the record has no such property, the loop does not visit it). *)
Definition merge_val (prop : string) (existingVal val : option jsval) : option jsval :=
  match val with
  | None => existingVal
  | Some w =>
      if is_vacant existingVal
      then (if Js.nullish val then existingVal else Some w)
      else if String.eqb prop "verified_at"
      then (if negb (hasTimestamp existingVal) && hasTimestamp val then Some w
            else existingVal)
      else existingVal
  end.

(** Body of [for (const prop of Object.keys(r))]. *)
Definition merge_prop (prop : string) (val : jsval) (existing : jsrecord) : jsrecord :=
  match merge_val prop (existing !! prop) (Some val) with
  | Some w => <[prop := w]> existing
  | None => existing
  end.

Definition merge_into (existing r : jsrecord) : jsrecord :=
  map_fold merge_prop existing r.

Definition rowGroupKey (r : jsrecord) : string :=
  makeGroupKey (Js.as_string (r !! "SO_No")) (Js.as_string (r !! "Customer"))
               (Js.as_string (r !! "Item")) (Js.as_string (r !! "Color")).

(** The insertion-ordered [Map<string, Record>]. *)
Fixpoint map_get {V} (k : string) (m : list (string * V)) : option V :=
  match m with
  | [] => None
  | (k', v) :: m' => if String.eqb k k' then Some v else map_get k m'
  end.

Fixpoint map_replace {V} (k : string) (v : V) (m : list (string * V)) : list (string * V) :=
  match m with
  | [] => []
  | (k', v') :: m' =>
      if String.eqb k k' then (k', v) :: m' else (k', v') :: map_replace k v m'
  end.

(** One iteration of [for (const r of rows)]. *)
Definition merge_step (m : list (string * jsrecord)) (r : jsrecord)
  : list (string * jsrecord) :=
  let key := rowGroupKey r in
  match map_get key m with
  | None => m ++ [(key, r)]
  | Some existing => map_replace key (merge_into existing r) m
  end.

Definition merge_map (rows : list jsrecord) : list (string * jsrecord) :=
  fold_left merge_step rows [].

Definition mergeVerifyRows (rows : list jsrecord) : list jsrecord :=
  (merge_map rows).*2.

(** The records of [rows] with composite key [k], in input order, and the
    values they give to a property. *)
Definition group (k : string) (rows : list jsrecord) : list jsrecord :=
  List.filter (fun r => String.eqb k (rowGroupKey r)) rows.

Definition column (prop : string) (g : list jsrecord) : list (option jsval) :=
  map (fun r : jsrecord => r !! prop) g.

(** First value of a column that passes [good]. *)
Fixpoint first_such (good : option jsval -> bool) (vs : list (option jsval))
  : option jsval :=
  match vs with
  | [] => None
  | v :: vs' => if good v then v else first_such good vs'
  end.

Definition first_nonempty := first_such (fun v => negb (is_vacant v)).
Definition first_timestamp := first_such hasTimestamp.

End Verify.

(** Two partial submissions for one order line, used as a running example. *)
Module VerifySample.

Definition first_submission : jsrecord :=
  list_to_map [("SO_No", JStr "S1"); ("Customer", JStr "Acme [Pune]");
               ("Item", JStr "I-9"); ("Color", JStr "red");
               ("New_Color", JNull); ("Size", JStr " "); ("verified_at", JObj [])].

Definition second_submission : jsrecord :=
  list_to_map [("SO_No", JStr "s1"); ("Customer", JStr "acme");
               ("Item", JStr "i-9 "); ("Color", JStr "RED");
               ("New_Color", JStr "blue"); ("Size", JStr "XL");
               ("verified_at", JStr "2024-01-05")].

Definition other_line : jsrecord :=
  list_to_map [("SO_No", JStr "S2"); ("Customer", JStr "Zed");
               ("Item", JStr "I-9"); ("Color", JStr "red")].

Definition submissions : list jsrecord :=
  [first_submission; other_line; second_submission].

End VerifySample.

(** ** Stable sorting by a comparator

    [Array.prototype.sort(cmp)] and SQL's [ORDER BY] are modelled by a
    stable insertion sort: an element moves behind those that must come
    before it ([after x y]: the comparator puts [x] after [y]) and keeps its
    place among those it ties with. *)

Module Sorting.
Section sort_by.
Context {A : Type} (after : A -> A -> bool).

Fixpoint insert_by (x : A) (l : list A) : list A :=
  match l with
  | [] => [x]
  | y :: l' => if after x y then y :: insert_by x l' else x :: l
  end.

Fixpoint sort_by (l : list A) : list A :=
  match l with
  | [] => []
  | x :: l' => insert_by x (sort_by l')
  end.
End sort_by.
End Sorting.

(** ** Query builder: deduplication and ranking of the selection query

    The rows of the [joined] CTE, with the columns the window and the final
    [ORDER BY] read.  A SQL [NULL] is [None]; [so_date_parsed] holds the
    [DATE] that [SAFE_CAST(so_date_parsed AS DATE)] yields (a day number),
    the column being that date cast to a string. *)

Module Query.

Record JoinedRow := {
  SO_Date : option string;
  SO_No : option string;
  Customer : option string;
  Rating : option string;
  Item : option string;
  Color : option string;
  OrderQty : option Z;
  so_date_parsed : option Z
}.

(** [COALESCE(x, '')]. *)
Definition coalesce (x : option string) : string := default "" x.

(** [UPPER(TRIM(COALESCE(Rating, '')))]: the rating as the ranking reads
    it. *)
Definition rating_label (r : JoinedRow) : string :=
  Str.toUpperCase (Str.trim (coalesce (Rating r))).

(** [ratingPriorityCase]. *)
Definition ratingPriority (r : JoinedRow) : Z :=
  let u := Str.toUpperCase (Str.trim (coalesce (Rating r))) in
  if String.eqb u "HIGH" then 1
  else if String.eqb u "HIGH - CASH" then 2
  else if String.eqb u "CASH" then 3
  else if String.eqb u "CASH - NEW CLIENT" then 4
  else 5.

(** [d1 ASC NULLS LAST]. *)
Definition compare_nulls_last (d1 d2 : option Z) : comparison :=
  match d1, d2 with
  | Some a, Some b => Z.compare a b
  | Some _, None => Lt
  | None, Some _ => Gt
  | None, None => Eq
  end.

(** The ordering [ratingPriorityCase ASC, SAFE_CAST(so_date_parsed AS DATE)
    ASC NULLS LAST, COALESCE(SO_No, '') ASC]. *)
Definition rank_compare (a b : JoinedRow) : comparison :=
  match Z.compare (ratingPriority a) (ratingPriority b) with
  | Eq =>
      match compare_nulls_last (so_date_parsed a) (so_date_parsed b) with
      | Eq => String.compare (coalesce (SO_No a)) (coalesce (SO_No b))
      | c => c
      end
  | c => c
  end.

Definition rank_ltb (a b : JoinedRow) : bool :=
  match rank_compare a b with Lt => true | _ => false end.
Definition rank_leb (a b : JoinedRow) : bool :=
  match rank_compare a b with Gt => false | _ => true end.
Definition rank_gtb (a b : JoinedRow) : bool :=
  match rank_compare a b with Gt => true | _ => false end.

(** [PARTITION BY COALESCE(SO_No, ''), LOWER(TRIM(Item)), COALESCE(Color, '')]
    ([LOWER(TRIM(NULL))] is [NULL], and the [NULL]s form one partition). *)
Definition partition_key (r : JoinedRow) : string * option string * string :=
  (coalesce (SO_No r), (fun s => Str.toLowerCase (Str.trim s)) <$> Item r,
   coalesce (Color r)).

Definition same_partition (a b : JoinedRow) : bool :=
  bool_decide (partition_key a = partition_key b).

Definition in_partition (k : string * option string * string) (x : JoinedRow) : bool :=
  bool_decide (partition_key x = k).

Definition count_rows (p : JoinedRow -> bool) (l : list JoinedRow) : nat :=
  length (List.filter p l).

(** [ROW_NUMBER() OVER (PARTITION BY ... ORDER BY ...)] of the row [r] that
    stands between [before] and [after] in [joined].  Rows that tie on the
    whole ordering are numbered in the order of [joined] (SQL leaves their
    order open). *)
Definition row_number (before : list JoinedRow) (r : JoinedRow) (after : list JoinedRow)
  : nat :=
  1 + count_rows (fun x => same_partition x r && rank_leb x r) before
    + count_rows (fun x => same_partition x r && rank_ltb x r) after.

(** [SELECT ... FROM deduped WHERE rn = 1]. *)
Fixpoint deduped_go (before rest : list JoinedRow) : list JoinedRow :=
  match rest with
  | [] => []
  | r :: after =>
      (if (row_number before r after =? 1)%nat then [r] else [])
      ++ deduped_go (before ++ [r]) after
  end.

Definition deduped (joined : list JoinedRow) : list JoinedRow := deduped_go [] joined.

(** [... ORDER BY ... LIMIT @limit OFFSET @offset]. *)
Definition select_page (joined : list JoinedRow) (limit offset : nat) : list JoinedRow :=
  take limit (drop offset (Sorting.sort_by rank_gtb (deduped joined))).

(** The ranking in words: a smaller rating priority first; on equal
    priority the earlier date, a missing date last; on equal priority and
    date the smaller order number. *)
Definition date_before (d1 d2 : option Z) : Prop :=
  match d1, d2 with
  | Some a, Some b => a < b
  | Some _, None => True
  | None, _ => False
  end.

Definition ranks_before_or_ties (a b : JoinedRow) : Prop :=
  ratingPriority a < ratingPriority b \/
  (ratingPriority a = ratingPriority b /\
   (date_before (so_date_parsed a) (so_date_parsed b) \/
    (so_date_parsed a = so_date_parsed b /\
     String.leb (coalesce (SO_No a)) (coalesce (SO_No b)) = true))).

Definition ranks_strictly_before (a b : JoinedRow) : Prop :=
  ratingPriority a < ratingPriority b \/
  (ratingPriority a = ratingPriority b /\
   (date_before (so_date_parsed a) (so_date_parsed b) \/
    (so_date_parsed a = so_date_parsed b /\
     String.ltb (coalesce (SO_No a)) (coalesce (SO_No b)) = true))).

End Query.

Module QuerySample.
Import Query.

Definition row (so : string) (rating : option string) (item : string) (d : option Z)
  : JoinedRow :=
  {| SO_Date := None; SO_No := Some so; Customer := Some "Acme [Pune]";
     Rating := rating; Item := Some item; Color := Some "RED";
     OrderQty := Some 10; so_date_parsed := d |}.

Definition cash_row := row "SO-7" (Some "CASH") "AB12" (Some 19700).
Definition high_row := row "SO-7" (Some " high ") " ab12" (Some 19750).
Definition high_late := row "SO-7" (Some "HIGH") "AB12 " None.
Definition other_row := row "SO-3" (Some "walk-in") "AB12" (Some 19600).

Definition joined : list JoinedRow := [cash_row; high_late; high_row; other_row].

End QuerySample.

(** ** The orders table: rows, state and effects *)

Module Num.

Definition is_nan (n : num) : bool := match n with NaN => true | _ => false end.

(** [Number.isFinite]. *)
Definition finite (n : num) : option Z := match n with Fin z => Some z | _ => None end.

Definition add (a b : num) : num :=
  match a, b with
  | NaN, _ | _, NaN => NaN
  | Fin x, Fin y => Fin (x + y)
  | PInf, NInf | NInf, PInf => NaN
  | PInf, _ | _, PInf => PInf
  | NInf, _ | _, NInf => NInf
  end.

Definition opp (a : num) : num :=
  match a with Fin x => Fin (- x) | PInf => NInf | NInf => PInf | NaN => NaN end.

Definition sub (a b : num) : num := add a (opp b).

(** [a === b] on numbers: NaN differs from itself. *)
Definition strict_eq (a b : num) : bool :=
  match a, b with
  | Fin x, Fin y => x =? y
  | PInf, PInf | NInf, NInf => true
  | _, _ => false
  end.

(** [n > 0]; false for NaN. *)
Definition positive (n : num) : bool :=
  match n with Fin z => 0 <? z | PInf => true | _ => false end.

(** [x || 0] for a number that may be absent. *)
Definition or_zero (o : option num) : num :=
  match o with
  | None | Some NaN => Fin 0
  | Some n => n
  end.

End Num.

Module Table.

Record SalesOrderRow := {
  SO_Date : option string;
  SO_No : option string;
  Customer : option string;
  Customer_Type : option string;
  Rating : option string;
  Broker : option string;
  Item : option string;
  ItemCode : option string;
  Color : option string;
  New_Color : option string;
  (** a string or a number; a number is carried as its decimal text *)
  Size : option string;
  (** a number that came through JSON: finite when present *)
  OrderQty : option Z;
  Expected_Date : option string;
  Status : option string;
  so_date_parsed : option string;
  Concept : option string;
  Fabric : option string;
  File_URL : option string;
  Stock : option num;
  StockByColor : option (gmap string num);
  ProductionQty : option num;
  uid : option string;          (** [__uid] *)
  pending : option bool         (** [__pending] *)
}.

Definition blank_row : SalesOrderRow :=
  {| SO_Date := None; SO_No := None; Customer := None; Customer_Type := None;
     Rating := None; Broker := None; Item := None; ItemCode := None; Color := None;
     New_Color := None; Size := None; OrderQty := None; Expected_Date := None;
     Status := None; so_date_parsed := None; Concept := None; Fabric := None;
     File_URL := None; Stock := None; StockByColor := None; ProductionQty := None;
     uid := None; pending := None |}.

(** [{ ...row, Stock: s, StockByColor: c }]. *)
Definition with_stock (s : option num) (c : option (gmap string num)) (r : SalesOrderRow)
  : SalesOrderRow :=
  {| SO_Date := SO_Date r; SO_No := SO_No r; Customer := Customer r;
     Customer_Type := Customer_Type r; Rating := Rating r; Broker := Broker r;
     Item := Item r; ItemCode := ItemCode r; Color := Color r; New_Color := New_Color r;
     Size := Size r; OrderQty := OrderQty r; Expected_Date := Expected_Date r;
     Status := Status r; so_date_parsed := so_date_parsed r; Concept := Concept r;
     Fabric := Fabric r; File_URL := File_URL r; Stock := s; StockByColor := c;
     ProductionQty := ProductionQty r; uid := uid r; pending := pending r |}.

(** [{ ...r, __uid, __pending, New_Color, StockByColor: null }]. *)
Definition with_uid (u : string) (p : bool) (nc : option string) (r : SalesOrderRow)
  : SalesOrderRow :=
  {| SO_Date := SO_Date r; SO_No := SO_No r; Customer := Customer r;
     Customer_Type := Customer_Type r; Rating := Rating r; Broker := Broker r;
     Item := Item r; ItemCode := ItemCode r; Color := Color r; New_Color := nc;
     Size := Size r; OrderQty := OrderQty r; Expected_Date := Expected_Date r;
     Status := Status r; so_date_parsed := so_date_parsed r; Concept := Concept r;
     Fabric := Fabric r; File_URL := File_URL r; Stock := Stock r; StockByColor := None;
     ProductionQty := ProductionQty r; uid := Some u; pending := Some p |}.

(** [{ ...row, Status: "Cancelled" }]. *)
Definition with_status (st : string) (r : SalesOrderRow) : SalesOrderRow :=
  {| SO_Date := SO_Date r; SO_No := SO_No r; Customer := Customer r;
     Customer_Type := Customer_Type r; Rating := Rating r; Broker := Broker r;
     Item := Item r; ItemCode := ItemCode r; Color := Color r; New_Color := New_Color r;
     Size := Size r; OrderQty := OrderQty r; Expected_Date := Expected_Date r;
     Status := Some st; so_date_parsed := so_date_parsed r; Concept := Concept r;
     Fabric := Fabric r; File_URL := File_URL r; Stock := Stock r;
     StockByColor := StockByColor r; ProductionQty := ProductionQty r;
     uid := uid r; pending := pending r |}.

(** [makeDispatchKey(r.SO_No, r.Customer, r.Item, r.Color).toUpperCase()]. *)
Definition rowKey (r : SalesOrderRow) : string :=
  Str.toUpperCase (makeDispatchKey (SO_No r) (Customer r) (Item r) (Color r)).

(** [a ?? b]. *)
Definition orElse {A} (a b : option A) : option A :=
  match a with Some _ => a | None => b end.

Record Filters := {
  q : string; tokens : list string; brand : string; city : string;
  startDate : string; endDate : string; limit : nat;
  customers : option (list string); items : option (list string)
}.

(** The state of the component: the hook's state and the table's own. *)
Record State := {
  rows : list SalesOrderRow;
  page : nat;
  loading : bool;
  total : Z;
  invoiceMap : gmap string (string * Z);
  collapsedGroups : gmap string bool;
  checked : gmap string bool;
  saving : bool;
  verifying : bool;
  dispatchedSet : gset string;
  pendingSet : gset string;
  pendingMap : gmap string SalesOrderRow;
  selectedColors : gmap string string;
  productionQtyByUid : gmap string (option num);
  cancelDialogOrder : option SalesOrderRow
}.

(** The [useState] initial values. *)
Definition initial : State :=
  {| rows := []; page := 0; loading := false; total := 0; invoiceMap := ∅;
     collapsedGroups := ∅; checked := ∅; saving := false; verifying := false;
     dispatchedSet := ∅; pendingSet := ∅; pendingMap := ∅; selectedColors := ∅;
     productionQtyByUid := ∅; cancelDialogOrder := None |}.

(** A call of a state setter, with its updater ([setX(v)] is [setX(_ => v)]). *)
Inductive setter :=
  | setRows (f : list SalesOrderRow -> list SalesOrderRow)
  | setPage (f : nat -> nat)
  | setLoading (f : bool -> bool)
  | setTotal (f : Z -> Z)
  | setInvoiceMap (f : gmap string (string * Z) -> gmap string (string * Z))
  | setCollapsedGroups (f : gmap string bool -> gmap string bool)
  | setChecked (f : gmap string bool -> gmap string bool)
  | setSaving (f : bool -> bool)
  | setVerifying (f : bool -> bool)
  | setDispatchedSet (f : gset string -> gset string)
  | setPendingSet (f : gset string -> gset string)
  | setPendingMap (f : gmap string SalesOrderRow -> gmap string SalesOrderRow)
  | setSelectedColors (f : gmap string string -> gmap string string)
  | setProductionQtyByUid (f : gmap string (option num) -> gmap string (option num))
  | setCancelDialogOrder (f : option SalesOrderRow -> option SalesOrderRow).

Inductive endpoint :=
  | DispatchKeys | VerifyList | SalesOrders | InvoiceDetails | StockBatch
  | VerifyRequest | DispatchSave | CancelOrder.

(** What a handler does, in order: it awaits a request, calls a setter or
    writes to the console. *)
Inductive event :=
  | Await (e : endpoint)
  | Call (s : setter)
  | ConsoleError
  | ConsoleWarn.

End Table.

Module Effects.
Import Table.

(** The state after a setter call. *)
Definition apply_setter (s : setter) (st : State) : State :=
  match s with
  | setRows f =>
      {| rows := f (rows st); page := page st; loading := loading st; total := total st;
         invoiceMap := invoiceMap st; collapsedGroups := collapsedGroups st;
         checked := checked st; saving := saving st; verifying := verifying st;
         dispatchedSet := dispatchedSet st; pendingSet := pendingSet st;
         pendingMap := pendingMap st; selectedColors := selectedColors st;
         productionQtyByUid := productionQtyByUid st;
         cancelDialogOrder := cancelDialogOrder st |}
  | setPage f =>
      {| rows := rows st; page := f (page st); loading := loading st; total := total st;
         invoiceMap := invoiceMap st; collapsedGroups := collapsedGroups st;
         checked := checked st; saving := saving st; verifying := verifying st;
         dispatchedSet := dispatchedSet st; pendingSet := pendingSet st;
         pendingMap := pendingMap st; selectedColors := selectedColors st;
         productionQtyByUid := productionQtyByUid st;
         cancelDialogOrder := cancelDialogOrder st |}
  | setLoading f =>
      {| rows := rows st; page := page st; loading := f (loading st); total := total st;
         invoiceMap := invoiceMap st; collapsedGroups := collapsedGroups st;
         checked := checked st; saving := saving st; verifying := verifying st;
         dispatchedSet := dispatchedSet st; pendingSet := pendingSet st;
         pendingMap := pendingMap st; selectedColors := selectedColors st;
         productionQtyByUid := productionQtyByUid st;
         cancelDialogOrder := cancelDialogOrder st |}
  | setTotal f =>
      {| rows := rows st; page := page st; loading := loading st; total := f (total st);
         invoiceMap := invoiceMap st; collapsedGroups := collapsedGroups st;
         checked := checked st; saving := saving st; verifying := verifying st;
         dispatchedSet := dispatchedSet st; pendingSet := pendingSet st;
         pendingMap := pendingMap st; selectedColors := selectedColors st;
         productionQtyByUid := productionQtyByUid st;
         cancelDialogOrder := cancelDialogOrder st |}
  | setInvoiceMap f =>
      {| rows := rows st; page := page st; loading := loading st; total := total st;
         invoiceMap := f (invoiceMap st); collapsedGroups := collapsedGroups st;
         checked := checked st; saving := saving st; verifying := verifying st;
         dispatchedSet := dispatchedSet st; pendingSet := pendingSet st;
         pendingMap := pendingMap st; selectedColors := selectedColors st;
         productionQtyByUid := productionQtyByUid st;
         cancelDialogOrder := cancelDialogOrder st |}
  | setCollapsedGroups f =>
      {| rows := rows st; page := page st; loading := loading st; total := total st;
         invoiceMap := invoiceMap st; collapsedGroups := f (collapsedGroups st);
         checked := checked st; saving := saving st; verifying := verifying st;
         dispatchedSet := dispatchedSet st; pendingSet := pendingSet st;
         pendingMap := pendingMap st; selectedColors := selectedColors st;
         productionQtyByUid := productionQtyByUid st;
         cancelDialogOrder := cancelDialogOrder st |}
  | setChecked f =>
      {| rows := rows st; page := page st; loading := loading st; total := total st;
         invoiceMap := invoiceMap st; collapsedGroups := collapsedGroups st;
         checked := f (checked st); saving := saving st; verifying := verifying st;
         dispatchedSet := dispatchedSet st; pendingSet := pendingSet st;
         pendingMap := pendingMap st; selectedColors := selectedColors st;
         productionQtyByUid := productionQtyByUid st;
         cancelDialogOrder := cancelDialogOrder st |}
  | setSaving f =>
      {| rows := rows st; page := page st; loading := loading st; total := total st;
         invoiceMap := invoiceMap st; collapsedGroups := collapsedGroups st;
         checked := checked st; saving := f (saving st); verifying := verifying st;
         dispatchedSet := dispatchedSet st; pendingSet := pendingSet st;
         pendingMap := pendingMap st; selectedColors := selectedColors st;
         productionQtyByUid := productionQtyByUid st;
         cancelDialogOrder := cancelDialogOrder st |}
  | setVerifying f =>
      {| rows := rows st; page := page st; loading := loading st; total := total st;
         invoiceMap := invoiceMap st; collapsedGroups := collapsedGroups st;
         checked := checked st; saving := saving st; verifying := f (verifying st);
         dispatchedSet := dispatchedSet st; pendingSet := pendingSet st;
         pendingMap := pendingMap st; selectedColors := selectedColors st;
         productionQtyByUid := productionQtyByUid st;
         cancelDialogOrder := cancelDialogOrder st |}
  | setDispatchedSet f =>
      {| rows := rows st; page := page st; loading := loading st; total := total st;
         invoiceMap := invoiceMap st; collapsedGroups := collapsedGroups st;
         checked := checked st; saving := saving st; verifying := verifying st;
         dispatchedSet := f (dispatchedSet st); pendingSet := pendingSet st;
         pendingMap := pendingMap st; selectedColors := selectedColors st;
         productionQtyByUid := productionQtyByUid st;
         cancelDialogOrder := cancelDialogOrder st |}
  | setPendingSet f =>
      {| rows := rows st; page := page st; loading := loading st; total := total st;
         invoiceMap := invoiceMap st; collapsedGroups := collapsedGroups st;
         checked := checked st; saving := saving st; verifying := verifying st;
         dispatchedSet := dispatchedSet st; pendingSet := f (pendingSet st);
         pendingMap := pendingMap st; selectedColors := selectedColors st;
         productionQtyByUid := productionQtyByUid st;
         cancelDialogOrder := cancelDialogOrder st |}
  | setPendingMap f =>
      {| rows := rows st; page := page st; loading := loading st; total := total st;
         invoiceMap := invoiceMap st; collapsedGroups := collapsedGroups st;
         checked := checked st; saving := saving st; verifying := verifying st;
         dispatchedSet := dispatchedSet st; pendingSet := pendingSet st;
         pendingMap := f (pendingMap st); selectedColors := selectedColors st;
         productionQtyByUid := productionQtyByUid st;
         cancelDialogOrder := cancelDialogOrder st |}
  | setSelectedColors f =>
      {| rows := rows st; page := page st; loading := loading st; total := total st;
         invoiceMap := invoiceMap st; collapsedGroups := collapsedGroups st;
         checked := checked st; saving := saving st; verifying := verifying st;
         dispatchedSet := dispatchedSet st; pendingSet := pendingSet st;
         pendingMap := pendingMap st; selectedColors := f (selectedColors st);
         productionQtyByUid := productionQtyByUid st;
         cancelDialogOrder := cancelDialogOrder st |}
  | setProductionQtyByUid f =>
      {| rows := rows st; page := page st; loading := loading st; total := total st;
         invoiceMap := invoiceMap st; collapsedGroups := collapsedGroups st;
         checked := checked st; saving := saving st; verifying := verifying st;
         dispatchedSet := dispatchedSet st; pendingSet := pendingSet st;
         pendingMap := pendingMap st; selectedColors := selectedColors st;
         productionQtyByUid := f (productionQtyByUid st);
         cancelDialogOrder := cancelDialogOrder st |}
  | setCancelDialogOrder f =>
      {| rows := rows st; page := page st; loading := loading st; total := total st;
         invoiceMap := invoiceMap st; collapsedGroups := collapsedGroups st;
         checked := checked st; saving := saving st; verifying := verifying st;
         dispatchedSet := dispatchedSet st; pendingSet := pendingSet st;
         pendingMap := pendingMap st; selectedColors := selectedColors st;
         productionQtyByUid := productionQtyByUid st;
         cancelDialogOrder := f (cancelDialogOrder st) |}
  end.

Definition apply_event (st : State) (e : event) : State :=
  match e with
  | Call s => apply_setter s st
  | _ => st
  end.

(** The state once every setter call of a trace has been applied, in
    order. *)
Definition run (tr : list event) (st : State) : State := fold_left apply_event tr st.

(** The kinds of events the claims speak of. *)
Definition sets_rows (e : event) : bool :=
  match e with Call (setRows _) => true | _ => false end.
Definition sets_total (e : event) : bool :=
  match e with Call (setTotal _) => true | _ => false end.
Definition sets_dispatched (e : event) : bool :=
  match e with Call (setDispatchedSet _) => true | _ => false end.
Definition sets_pending (e : event) : bool :=
  match e with Call (setPendingSet _) | Call (setPendingMap _) => true | _ => false end.
Definition sets_invoice_map (e : event) : bool :=
  match e with Call (setInvoiceMap _) => true | _ => false end.
Definition reports_error (e : event) : bool :=
  match e with ConsoleError | ConsoleWarn => true | _ => false end.

(** A mutation of the visible rows, the total, the dispatched set, the
    pending set or the invoice map, or a report of an error. *)
Definition visible_effect (e : event) : bool :=
  sets_rows e || sets_total e || sets_dispatched e || sets_pending e
  || sets_invoice_map e || reports_error e.

Definition is_await (p : endpoint) (e : event) : bool :=
  match e, p with
  | Await DispatchKeys, DispatchKeys | Await VerifyList, VerifyList
  | Await SalesOrders, SalesOrders | Await InvoiceDetails, InvoiceDetails
  | Await StockBatch, StockBatch | Await VerifyRequest, VerifyRequest
  | Await DispatchSave, DispatchSave | Await CancelOrder, CancelOrder => true
  | _, _ => false
  end.

(** What a trace does after it starts to wait for [p]. *)
Fixpoint after_await (p : endpoint) (tr : list event) : list event :=
  match tr with
  | [] => []
  | e :: tr' => if is_await p e then tr' else after_await p tr'
  end.

(** *** Requests *)

(** How a request ends when nothing cancels it: a 2xx response with its
    parsed body, another status, or a network failure. *)
Inductive response (A : Type) :=
  | Ok200 (body : A)
  | NotOk
  | NetError.
Arguments Ok200 {A} body.
Arguments NotOk {A}.
Arguments NetError {A}.

(** What the awaiting code sees: the response, or the [AbortError] that a
    request tied to an aborted signal rejects with. *)
Inductive outcome (A : Type) :=
  | Settled (r : response A)
  | AbortError.
Arguments Settled {A} r.
Arguments AbortError {A}.

(** Position of the requests of a reconciliation cycle, in program order. *)
Definition stage (p : endpoint) : nat :=
  match p with
  | DispatchKeys => 0 | VerifyList => 1 | SalesOrders => 2
  | InvoiceDetails => 3 | StockBatch => 4
  | _ => 5
  end.

(** [fetch(url, { signal })] awaited while, or after, the cycle is
    superseded ([abort_during]: the request being awaited when the cleanup
    of the effect aborts the controller) rejects with [AbortError]. *)
Definition fetch_signal {A} (abort_during : option endpoint) (p : endpoint)
    (r : response A) : outcome A :=
  match abort_during with
  | Some a => if (stage a <=? stage p)%nat then AbortError else Settled r
  | None => Settled r
  end.

(** [fetch(url, { ... })] without a signal is not affected by the abort. *)
Definition fetch_plain {A} (r : response A) : outcome A := Settled r.

End Effects.

(** ** The reconciliation cycle *)

Module Cycle.
Import Table Effects.

(** The rows of the verification, invoice and stock boundaries. *)
Record InvoiceRow := {
  inv_Customer_Name : option string; inv_Customer : option string;
  inv_Item_Code : option string; inv_Item : option string;
  inv_Item_Color : option string; inv_Color : option string;
  inv_parsed_date : option string; inv_parsed_date_iso : option string;
  inv_Date : option string; inv_date : option string
}.

(** [Closing_Stock?: number | string]. *)
Inductive closing := CsNumber (n : num) | CsString (s : string).

Record StockRow := {
  stock_Item : option string;
  stock_normalized_item : option string;
  stock_Color : option string;
  Closing_Stock : option closing
}.

Record OrdersBody := { body_rows : list SalesOrderRow; body_total : num }.

(** What the boundaries answer in one cycle, and when the cycle is
    superseded, if it is. *)
Record Env := {
  abort_during : option endpoint;
  dispatch_keys : response (list (option string));
  verify_rows : response (list jsrecord);
  orders : response OrdersBody;
  invoices : response (list InvoiceRow);
  stock : response (list StockRow);
  (** [crypto.randomUUID()] for the row at an index, when it exists *)
  randomUUID : nat -> option string
}.

Definition uidForRow (so item color : option string) (idx : Z) (uuid : option string)
  : string :=
  let base := Str.trim (orEmpty so) ++ "__" ++ Str.trim (orEmpty item) ++ "__"
              ++ Str.trim (orEmpty color) in
  let base' := if Str.is_empty base then "uid" else base in
  match uuid with
  | Some u => base' ++ "__" ++ u
  | None => base' ++ "__" ++ pretty idx
  end.

(** The table's [verifyHasTimestamp]. *)
Definition verifyHasTimestamp (v : option jsval) : bool :=
  match v with
  | None | Some JNull => false
  | Some (JStr s) => negb (Str.is_empty (Str.trim s))
  | Some (JObj o) =>
      match Js.field "value" o with
      | Some (JStr m) => negb (Str.is_empty (Str.trim m))
      | _ =>
          if negb (Js.nullish (Js.field "seconds" o)) then true
          else (0 <? length o)%nat
      end
  | Some _ => true
  end.

(** Key of a verification record, as the table computes it. *)
Definition recordKey (r : jsrecord) : string :=
  Str.toUpperCase
    (makeDispatchKey (Js.as_string (r !! "SO_No")) (Js.as_string (r !! "Customer"))
                     (Js.as_string (r !! "Item")) (Js.as_string (r !! "Color"))).

Record VerifyIndex := {
  verifyMap : gmap string jsrecord;
  localPendingSet : gset string;
  localVerifiedSet : gset string
}.

Definition no_verifications : VerifyIndex :=
  {| verifyMap := ∅; localPendingSet := ∅; localVerifiedSet := ∅ |}.

(** Body of [for (const r of vrows)]. *)
Definition index_record (acc : VerifyIndex) (r : jsrecord) : VerifyIndex :=
  let key := recordKey r in
  if verifyHasTimestamp (r !! "verified_at")
  then {| verifyMap := <[key := r]> (verifyMap acc);
          localPendingSet := localPendingSet acc;
          localVerifiedSet := {[key]} ∪ localVerifiedSet acc |}
  else {| verifyMap := <[key := r]> (verifyMap acc);
          localPendingSet := {[key]} ∪ localPendingSet acc;
          localVerifiedSet := localVerifiedSet acc |}.

Definition index_verifications (vrows : list jsrecord) : VerifyIndex :=
  fold_left index_record vrows no_verifications.

(** [new Set(keys.map((k) => (k ?? "").toString().trim().toUpperCase()))]. *)
Definition dispatched_set_of (keys : list (option string)) : gset string :=
  list_to_set (map (fun k => Str.toUpperCase (Str.trim (orEmpty k))) keys).

(** [verifyRec && verifyRec.New_Color ? String(verifyRec.New_Color) : undefined]. *)
Definition newColorFromServer (vi : VerifyIndex) (key : string) : option string :=
  match verifyMap vi !! key with
  | Some rec =>
      match rec !! "New_Color" with
      | Some v => if Js.truthy (Some v) then Some (Js.toString v) else None
      | None => None
      end
  | None => None
  end.

(** The updater that pre-selects the server's replacement colour. *)
Definition preselect (key color : string) (prev : gmap string string) : gmap string string :=
  if bool_decide (prev !! key = Some color) then prev else <[key := color]> prev.

(** [incoming.map((r, i) => ...)]: the rows with their uid, and the colour
    pre-selections made on the way. *)
Fixpoint rows_with_uid (env : Env) (vi : VerifyIndex) (i : nat) (incoming : list SalesOrderRow)
  : list SalesOrderRow * list event :=
  match incoming with
  | [] => ([], [])
  | r :: rest =>
      let u := uidForRow (SO_No r) (orElse (Item r) (ItemCode r)) (Color r)
                 (Z.of_nat i) (randomUUID env i) in
      let key := rowKey r in
      let isPending := bool_decide (key ∈ localPendingSet vi) in
      let nc := newColorFromServer vi key in
      let ev := match nc with
                | Some c => [Call (setSelectedColors (preselect key c))]
                | None => []
                end in
      let '(rs, evs) := rows_with_uid env vi (S i) rest in
      (with_uid u isPending (orElse (New_Color r) nc) r :: rs, (ev ++ evs)%list)
  end.

(** [if (set.size > 0) rows = rows.filter((row) => !set.has(key(row)))]. *)
Definition exclude_keys (s : gset string) (l : list SalesOrderRow) : list SalesOrderRow :=
  if bool_decide (s = ∅) then l
  else List.filter (fun row => negb (bool_decide (rowKey row ∈ s))) l.

(** [new Set(Object.keys(pendingMap).map((k) => k.toUpperCase()))]. *)
Definition originPendingKeys (pm : gmap string SalesOrderRow) : gset string :=
  set_map Str.toUpperCase (dom pm).

(** Dispatched, pending and locally pending rows leave, in this order. *)
Definition exclusions (dispatched : gset string) (vi : VerifyIndex)
    (pm : gmap string SalesOrderRow) (l : list SalesOrderRow) : list SalesOrderRow :=
  exclude_keys (originPendingKeys pm)
    (exclude_keys (localPendingSet vi) (exclude_keys dispatched l)).

End Cycle.

(** The built-ins the cycle calls are parameters: [Date.parse] (a time
    value, [None] for NaN), [new Date(t).toISOString().slice(0, 10)],
    [Number] on a string, and [Date.now()]. *)
Record Builtins := {
  Date_parse : string -> option Z;
  toISODate : Z -> string;
  Number_of_string : string -> num;
  Date_now : Z
}.

Module Pipeline.
Import Table Effects Cycle.

Section with_builtins.
Context (js : Builtins).

Definition is_digit (c : ascii) : bool :=
  let n := nat_of_ascii c in (48 <=? n)%nat && (n <=? 57)%nat.
Definition is_dmy_sep (c : ascii) : bool := Ascii.eqb c "-" || Ascii.eqb c "/".

(** [ds.match(/^(\d{2})[-\/](\d{2})[-\/](\d{4})$/)], rebuilt as
    [`${m[3]}-${m[2]}-${m[1]}`]. *)
Definition dmy_to_iso_like (ds : string) : option string :=
  match ds with
  | String d1 (String d2 (String s1 (String m1 (String m2 (String s2
      (String y1 (String y2 (String y3 (String y4 EmptyString))))))))) =>
      if forallb is_digit [d1; d2; m1; m2; y1; y2; y3; y4]
         && is_dmy_sep s1 && is_dmy_sep s2
      then Some (String y1 (String y2 (String y3 (String y4 (String "-"
                   (String m1 (String m2 (String "-" (String d1 (String d2 ""))))))))))
      else None
  | _ => None
  end.

(** [ds.replace(/\./g, "-")]. *)
Definition dots_to_dashes : string -> string :=
  Str.map_chars (fun c => if Ascii.eqb c "." then "-"%char else c).

Definition tryParseIso (ds : string) : option string :=
  match Date_parse js ds with
  | Some p => Some (toISODate js p)
  | None =>
      match match dmy_to_iso_like ds with
            | Some isoLike => Date_parse js isoLike
            | None => None
            end with
      | Some p2 => Some (toISODate js p2)
      | None => toISODate js <$> Date_parse js (dots_to_dashes ds)
      end
  end.

Definition tryParseToIso (ds : option string) : option string :=
  match ds with
  | None => None
  | Some d =>
      if Str.is_empty d then None
      else let s := Str.trim d in
           if Str.is_empty s then None else tryParseIso s
  end.

(** [x ? Some x : None] for a string. *)
Definition truthy_string (s : option string) : option string :=
  match s with
  | Some v => if Str.is_empty v then None else Some v
  | None => None
  end.

(** Body of [for (const inv of invRows)]. *)
Definition invoice_step (invMapRaw : gmap string string) (inv : InvoiceRow)
  : gmap string string :=
  let custName := orEmpty (orElse (inv_Customer_Name inv) (inv_Customer inv)) in
  let itemCode := orEmpty (orElse (inv_Item_Code inv) (inv_Item inv)) in
  let color := orEmpty (orElse (inv_Item_Color inv) (inv_Color inv)) in
  let cNorm := normalizeCustomerForCompare (Some custName) in
  let iNorm := normalizeItemForCompare (Some itemCode) in
  let colNorm := normalizeColorForCompare (Some color) in
  if Str.is_empty cNorm || Str.is_empty iNorm then invMapRaw
  else
    let dateStrCandidate :=
      orElse (inv_parsed_date inv)
        (orElse (inv_parsed_date_iso inv) (orElse (inv_Date inv) (inv_date inv))) in
    let iso := match truthy_string dateStrCandidate with
               | Some ds => tryParseIso ds
               | None => None
               end in
    match truthy_string iso with
    | None => invMapRaw
    | Some iso =>
        let key := cNorm ++ "|" ++ iNorm ++ "|" ++ colNorm in
        match truthy_string (invMapRaw !! key) with
        | None => <[key := iso]> invMapRaw
        | Some prev => if String.ltb prev iso then <[key := iso]> invMapRaw else invMapRaw
        end
    end.

(** [finalInvMap]: latest invoice date per (customer, item, colour), with
    its age in days. *)
Definition build_invoice_map (invRows : list InvoiceRow) : gmap string (string * Z) :=
  omap (fun iso => (fun t => (iso, (Date_now js - t) `div` 86400000)) <$> Date_parse js iso)
       (fold_left invoice_step invRows ∅).

(** The invoice filter: a row older than the last matching invoice is
    hidden. *)
Definition invoice_keep (finalInvMap : gmap string (string * Z)) (r : SalesOrderRow) : bool :=
  let cust := orEmpty (Customer r) in
  let item := orEmpty (orElse (Item r) (ItemCode r)) in
  let color := orEmpty (Color r) in
  let invKey := normalizeCustomerForCompare (Some cust) ++ "|"
                ++ normalizeItemForCompare (Some item) ++ "|"
                ++ normalizeColorForCompare (Some color) in
  match finalInvMap !! invKey with
  | None => true
  | Some invRec =>
      match tryParseToIso (Some (orEmpty (orElse (SO_Date r) (so_date_parsed r)))) with
      | None => true
      | Some soIso => String.leb invRec.1 soIso
      end
  end.

(** *** Stock batch *)

Definition closing_value (s : StockRow) : num :=
  match Closing_Stock s with
  | Some (CsNumber n) => n
  | Some (CsString t) => Number_of_string js t
  | None => NaN
  end.

Record StockMaps := {
  totalStockMap : gmap string num;
  colorStockMap : gmap string (gmap string num)
}.

(** Body of [for (const s of stockRows)].  The two plain objects stand for
    their own keys: the rows read them under item keys of at most eight
    characters (the orders route admits no longer item), too short to name
    a property that a plain object inherits. *)
Definition stock_step (m : StockMaps) (s : StockRow) : StockMaps :=
  let norm := Str.toLowerCase
                (Str.trim (orEmpty (orElse (stock_normalized_item s) (stock_Item s)))) in
  if Str.is_empty norm then m
  else
    let color := Str.trim (orEmpty (stock_Color s)) in
    let cs := closing_value s in
    if Num.is_nan cs then m
    else
      let byColor := default ∅ (colorStockMap m !! norm) in
      {| colorStockMap :=
           <[norm := <[color := Num.add (Num.or_zero (byColor !! color)) cs]> byColor]>
             (colorStockMap m);
         totalStockMap :=
           <[norm := Num.add (Num.or_zero (totalStockMap m !! norm)) cs]> (totalStockMap m) |}.

Definition aggregate_stock (stockRows : list StockRow) : StockMaps :=
  fold_left stock_step stockRows {| totalStockMap := ∅; colorStockMap := ∅ |}.

Definition stock_item_key (r : SalesOrderRow) : string :=
  normItemKey (orElse (Item r) (ItemCode r)).

(** [rowsWithUid[i] = { ...row, Stock: foundTotal, StockByColor: ... }]. *)
Definition annotate_stock (m : StockMaps) (r : SalesOrderRow) : SalesOrderRow :=
  let key := stock_item_key r in
  if Str.is_empty key then with_stock None None r
  else with_stock (totalStockMap m !! key) (colorStockMap m !! key) r.

(** [Array.from(new Set(rows.map(...).filter(Boolean)))]. *)
Definition stock_keys (l : list SalesOrderRow) : list string :=
  remove_dups (List.filter (fun k => negb (Str.is_empty k)) (map stock_item_key l)).

End with_builtins.
End Pipeline.

Module Reconciler.
Import Table Effects Cycle Pipeline.

Section with_builtins.
Context (js : Builtins).

(** *** Sorting and the client-side filters *)

(** [Number(a.OrderQty ?? 0)]. *)
Definition qty_of (r : SalesOrderRow) : num := Fin (default 0 (OrderQty r)).

(** [typeof a.Stock === "number" && !Number.isNaN(a.Stock) ? a.Stock :
     Number.NEGATIVE_INFINITY]. *)
Definition stock_of (r : SalesOrderRow) : num :=
  match Stock r with
  | Some NaN | None => NInf
  | Some n => n
  end.

(** [a.so_date_parsed ? Date.parse(a.so_date_parsed) : Number.POSITIVE_INFINITY]. *)
Definition date_of (r : SalesOrderRow) : num :=
  match truthy_string (so_date_parsed r) with
  | Some d => match Date_parse js d with Some t => Fin t | None => NaN end
  | None => PInf
  end.

(** The comparator given to [rowsWithUid.sort]. *)
Definition comparator (a b : SalesOrderRow) : num :=
  let aQty := qty_of a in
  let bQty := qty_of b in
  if negb (Num.strict_eq bQty aQty) then Num.sub bQty aQty
  else
    let aStock := stock_of a in
    let bStock := stock_of b in
    if negb (Num.strict_eq bStock aStock) then Num.sub bStock aStock
    else Num.sub (date_of a) (date_of b).

(** The comparator puts [a] after [b] when its result is positive (a NaN
    result counts as zero).  The sort is the stable one; it stands for every
    engine's as long as the comparator is consistent, which it is when no
    date is NaN (two missing dates give [Infinity - Infinity], a tie). *)
Definition sorts_after (a b : SalesOrderRow) : bool := Num.positive (comparator a b).

Definition sort_rows : list SalesOrderRow -> list SalesOrderRow :=
  Sorting.sort_by sorts_after.

(** The predicate of [filteredRows]. *)
Definition stock_keep (r : SalesOrderRow) : bool :=
  match Stock r with
  | None => true
  | Some (Fin 0) => false
  | Some NaN => false
  | Some _ => true
  end.

Definition selected_set (norm : option string -> string) (sel : option (list string))
  : gset string :=
  list_to_set (map (fun c => norm (Some c)) (default [] sel)).

(** The predicate of [finalRows]: every non-empty selection must match. *)
Definition selection_keep (filters : Filters) (r : SalesOrderRow) : bool :=
  let selectedCustomersSet := selected_set normalizeCustomerForCompare (customers filters) in
  let selectedItemsSet := selected_set normalizeItemForCompare (items filters) in
  let customerNorm := normalizeCustomerForCompare (Customer r) in
  let itemNorm := normalizeItemForCompare (Item r) in
  if negb (bool_decide (selectedCustomersSet = ∅))
     && negb (bool_decide (customerNorm ∈ selectedCustomersSet)) then false
  else if negb (bool_decide (selectedItemsSet = ∅))
          && negb (bool_decide (itemNorm ∈ selectedItemsSet)) then false
  else true.

(** [Number.isFinite(Number(data.total)) ? Number(data.total) : incoming.length]. *)
Definition serverTotal (body : OrdersBody) : Z :=
  match Num.finite (body_total body) with
  | Some t => t
  | None => Z.of_nat (length (body_rows body))
  end.

(** [Math.max(0, serverTotal - Math.max(0, incoming.length - finalRows.length))]
    ([serverTotal] is finite by construction, so the other branch of the
    source's conditional is never taken). *)
Definition computedTotal (body : OrdersBody) (finalRows : list SalesOrderRow) : Z :=
  let removedCount :=
    Z.max 0 (Z.of_nat (length (body_rows body)) - Z.of_nat (length finalRows)) in
  Z.max 0 (serverTotal body - removedCount).

(** *** The stages of [load] *)

(** [localDispatchedSet]: the fetched keys, or the empty set when the
    request fails. *)
Definition fetched_dispatched (env : Env) : gset string :=
  match dispatch_keys env with
  | Ok200 keys => dispatched_set_of keys
  | _ => ∅
  end.

(** [verifyMap], [localPendingSet] and [localVerifiedSet]. *)
Definition fetched_verifications (env : Env) : VerifyIndex :=
  match verify_rows env with
  | Ok200 vrows => index_verifications vrows
  | _ => no_verifications
  end.

(** The invoice map, and what the request for it leaves in the trace. *)
Definition invoice_stage (env : Env) : gmap string (string * Z) * list event :=
  match fetch_signal (abort_during env) InvoiceDetails (invoices env) with
  | Settled (Ok200 invRows) => (build_invoice_map js invRows, [])
  | Settled NotOk => (∅, [])
  | Settled NetError => (∅, [ConsoleWarn])
  | AbortError => (∅, [])
  end.

(** Rows left by the dispatched, pending and invoice exclusions. *)
Definition surviving_rows (env : Env) (pm : gmap string SalesOrderRow)
    (body : OrdersBody) : list SalesOrderRow :=
  List.filter (invoice_keep js (invoice_stage env).1)
    (exclusions (fetched_dispatched env) (fetched_verifications env) pm
       (rows_with_uid env (fetched_verifications env) 0 (body_rows body)).1).

(** The rows with their stock, and what the batch request leaves in the
    trace.  The request carries no signal. *)
Definition stock_stage (env : Env) (l : list SalesOrderRow)
  : list SalesOrderRow * list event :=
  match stock_keys l with
  | [] => (l, [])
  | _ :: _ =>
      match fetch_plain (stock env) with
      | Settled (Ok200 stockRows) =>
          (map (annotate_stock (aggregate_stock js stockRows)) l, [Await StockBatch])
      | Settled NotOk => (l, [Await StockBatch; ConsoleWarn])
      | Settled NetError => (l, [Await StockBatch; ConsoleError])
      | AbortError => (l, [Await StockBatch; ConsoleError])
      end
  end.

(** [rowsWithUid] when the sort starts. *)
Definition stocked_rows (env : Env) (pm : gmap string SalesOrderRow) (body : OrdersBody)
  : list SalesOrderRow :=
  (stock_stage env (surviving_rows env pm body)).1.

Definition final_rows (filters : Filters) (stocked : list SalesOrderRow)
  : list SalesOrderRow :=
  List.filter (selection_keep filters) (List.filter stock_keep (sort_rows stocked)).

(** [finalRows]: the rows the cycle makes visible. *)
Definition visible_rows (env : Env) (filters : Filters) (pm : gmap string SalesOrderRow)
    (body : OrdersBody) : list SalesOrderRow :=
  final_rows filters (stocked_rows env pm body).

(** From a page of orders to the visible rows. *)
Definition process_orders (env : Env) (filters : Filters)
    (pm : gmap string SalesOrderRow) (body : OrdersBody) : list event :=
  let preselections :=
    (rows_with_uid env (fetched_verifications env) 0 (body_rows body)).2 in
  let finalRows := visible_rows env filters pm body in
  (preselections ++ [Await InvoiceDetails] ++ (invoice_stage env).2
   ++ [Call (setInvoiceMap (const (invoice_stage env).1))]
   ++ (stock_stage env (surviving_rows env pm body)).2
   ++ [Call (setRows (const finalRows));
       Call (setTotal (const (computedTotal body finalRows)));
       Call (setCollapsedGroups (const ∅));
       Call (setChecked (const ∅))])%list.

(** The [try { ... } catch { ... } finally { setLoading(false) }] around the
    orders request. *)
Definition orders_stage (env : Env) (filters : Filters) (pg : nat)
    (pm : gmap string SalesOrderRow) : list event :=
  (Await SalesOrders ::
   match fetch_signal (abort_during env) SalesOrders (orders env) with
   | AbortError => []
   | Settled NetError => [ConsoleError]
   | Settled NotOk =>
       [ConsoleError; Call (setRows (const [])); Call (setTotal (const 0));
        Call (setLoading (const false))]
   | Settled (Ok200 body) =>
       if bool_decide (length (body_rows body) = 0%nat)
          && (0 <? serverTotal body) && (0 <? pg)%nat
       then [Call (setPage (const 0%nat)); Call (setLoading (const false))]
       else process_orders env filters pm body
   end ++ [Call (setLoading (const false))])%list.

(** The verification list, and then the orders. *)
Definition verify_stage (env : Env) (filters : Filters) (pg : nat)
    (pm : gmap string SalesOrderRow) : list event :=
  Await VerifyList ::
  match fetch_signal (abort_during env) VerifyList (verify_rows env) with
  | AbortError => [Call (setLoading (const false))]
  | Settled _ =>
      Call (setPendingSet (const (localPendingSet (fetched_verifications env))))
      :: orders_stage env filters pg pm
  end.

(** [load()]: one reconciliation cycle, for the filters, the page and the
    local pending map the effect was started with. *)
Definition load (env : Env) (filters : Filters) (pg : nat)
    (pm : gmap string SalesOrderRow) : list event :=
  Call (setLoading (const true)) :: Await DispatchKeys ::
  match fetch_signal (abort_during env) DispatchKeys (dispatch_keys env) with
  | AbortError => [Call (setLoading (const false))]
  | Settled _ =>
      Call (setDispatchedSet (const (fetched_dispatched env)))
      :: verify_stage env filters pg pm
  end.

End with_builtins.
End Reconciler.

(** ** The hook's own fetch, the action handlers and the cross-tab handler *)

Module Actions.
Import Table Effects Cycle.

(** [load()] of [useSalesOrders]: the hook fetches the page on its own and
    stores it as it comes ([aborted]: the request was cancelled). *)
Definition hook_load (aborted : bool) (reply : response OrdersBody) : list event :=
  (Call (setLoading (const true)) :: Await SalesOrders ::
   match (if aborted then AbortError else Settled reply) with
   | AbortError | Settled NetError => [ConsoleError]
   | Settled NotOk =>
       [Call (setRows (const [])); Call (setTotal (const 0));
        Call (setLoading (const false))]
   | Settled (Ok200 body) =>
       [Call (setRows (const (body_rows body)));
        Call (setTotal (const (match Num.finite (body_total body) with
                               | Some t => t
                               | None => Z.of_nat (length (body_rows body))
                               end)));
        Call (setInvoiceMap (const ∅))]
   end ++ [Call (setLoading (const false))])%list.

(** [Object.keys(checked).filter((k) => checked[k])]. *)
Definition selected_uids (c : gmap string bool) : gset string :=
  dom (filter (fun kv => kv.2 = true) c).

(** [for (const k of keys) if (k in next) delete next[k]]. *)
Definition delete_keys {V} (keys : list string) (m : gmap string V) : gmap string V :=
  foldr delete m keys.

(** *** Request verification *)

Record OutgoingRow := {
  out_SO_No : string;
  out_Customer : option string;
  out_Item : option string;
  out_Color : option string;
  out_New_Color : option string;
  out_Size : option string;
  out_OrderQty : option Z;
  out_SO_Date : option string
}.

(** One element of [maybeRows]. *)
Definition outgoing (st : State) (r : SalesOrderRow) : option OutgoingRow :=
  let u := orEmpty (uid r) in
  let key := rowKey r in
  let hasSelectedColor :=
    match selectedColors st !! key with
    | Some c => negb (Str.is_empty c)
    | None => false
    end in
  let isChecked := bool_decide (u ∈ selected_uids (checked st)) in
  if negb isChecked && negb hasSelectedColor then None
  else Some {| out_SO_No := orEmpty (SO_No r);
               out_Customer := Customer r;
               out_Item := Item r;
               out_Color := Color r;
               out_New_Color := orElse (selectedColors st !! key) (New_Color r);
               out_Size := Size r;
               out_OrderQty := OrderQty r;
               out_SO_Date := SO_Date r |}.

Definition rowsToSend (st : State) : list OutgoingRow := omap (outgoing st) (rows st).

Definition outgoingKey (sr : OutgoingRow) : string :=
  Str.toUpperCase
    (makeDispatchKey (Some (out_SO_No sr)) (out_Customer sr) (out_Item sr) (out_Color sr)).

(** The updater given to [setPendingMap]: the original row of every key
    that has one. *)
Definition remember_pending (visible : list SalesOrderRow) (keysToAdd : list string)
    (pm : gmap string SalesOrderRow) : gmap string SalesOrderRow :=
  fold_left (fun next key =>
               match List.find (fun r => String.eqb (rowKey r) key) visible with
               | Some original => <[key := original]> next
               | None => next
               end) keysToAdd pm.

Definition handleVerifySelected (st : State) (reply : response unit) : list event :=
  let toSend := rowsToSend st in
  match toSend with
  | [] => []
  | _ :: _ =>
      (Call (setVerifying (const true)) :: Await VerifyRequest ::
       match fetch_plain reply with
       | Settled (Ok200 _) =>
           let keysToAdd := map outgoingKey toSend in
           [Call (setPendingMap (remember_pending (rows st) keysToAdd));
            Call (setPendingSet (fun s => list_to_set keysToAdd ∪ s));
            Call (setRows (List.filter
                    (fun r => negb (bool_decide (rowKey r ∈ keysToAdd)))));
            Call (setSelectedColors (delete_keys keysToAdd));
            Call (setChecked (const ∅));
            Call (setTotal (fun t => Z.max 0 (t - Z.of_nat (length toSend))))]
       | _ => [ConsoleError]
       end ++ [Call (setVerifying (const false))])%list
  end.

(** *** Save dispatched *)

Record DispatchRowOut := {
  d_SO_No : string;
  d_Customer : option string;
  d_Item : option string;
  d_Old_Color : option string;
  d_New_Color : option string;
  d_Color : option string;
  d_ProductionQty : option num;
  d_uid : string
}.

Definition is_selected (st : State) (r : SalesOrderRow) : bool :=
  match uid r with
  | Some u => negb (Str.is_empty u) && bool_decide (u ∈ selected_uids (checked st))
  | None => false
  end.

Definition dispatch_out (st : State) (r : SalesOrderRow) : DispatchRowOut :=
  let selectedNew := orElse (selectedColors st !! rowKey r) (New_Color r) in
  let u := orEmpty (uid r) in
  {| d_SO_No := orEmpty (SO_No r);
     d_Customer := Customer r;
     d_Item := Item r;
     d_Old_Color := Color r;
     d_New_Color := selectedNew;
     d_Color := orElse selectedNew (Color r);
     d_ProductionQty :=
       match productionQtyByUid st !! u with
       | Some (Some n) => Some n
       | _ => ProductionQty r
       end;
     d_uid := u |}.

Definition selectedRows (st : State) : list DispatchRowOut :=
  map (dispatch_out st) (List.filter (is_selected st) (rows st)).

Definition dispatchedKey (sr : DispatchRowOut) : string :=
  Str.toUpperCase (makeDispatchKey (Some (d_SO_No sr)) (d_Customer sr) (d_Item sr) (d_Color sr)).

Definition originalKey (sr : DispatchRowOut) : string :=
  Str.toUpperCase
    (makeDispatchKey (Some (d_SO_No sr)) (d_Customer sr) (d_Item sr) (d_Old_Color sr)).

Definition handleSaveDispatched (st : State) (reply : response unit) : list event :=
  if bool_decide (selected_uids (checked st) = ∅) then []
  else
    let sel := selectedRows st in
    match sel with
    | [] => [ConsoleWarn]
    | _ :: _ =>
        (Call (setSaving (const true)) :: Await DispatchSave ::
         match fetch_plain reply with
         | Settled (Ok200 _) =>
             let remaining := List.filter (fun r => negb (is_selected st r)) (rows st) in
             [Call (setRows (const remaining));
              Call (setChecked (const ∅));
              Call (setTotal (fun t => Z.max 0 (t - Z.of_nat (length sel))));
              Call (setDispatchedSet (fun s => list_to_set (map dispatchedKey sel) ∪ s));
              Call (setSelectedColors
                      (delete_keys (flat_map (fun r => [originalKey r; dispatchedKey r]) sel)));
              Call (setProductionQtyByUid
                      (delete_keys (elements (selected_uids (checked st)))))]
         | _ => [ConsoleError]
         end ++ [Call (setSaving (const false))])%list
    end.

(** *** Cancel order *)

Definition handleCancelOrder (order : SalesOrderRow) (reply : response unit) : list event :=
  match Pipeline.truthy_string (SO_No order) with
  | None => []
  | Some _ =>
      Await CancelOrder ::
      match fetch_plain reply with
      | Settled (Ok200 _) =>
          [Call (setRows (map (fun row =>
                   if bool_decide (SO_No row = SO_No order)
                   then with_status "Cancelled" row else row)));
           Call (setCancelDialogOrder (const None))]
      | _ => [ConsoleError]
      end
  end.

End Actions.

(** *** Cross-tab notification *)

Module CrossTab.
Import Table Effects Cycle.

(** The [data] of a message on the [sales-orders] channel. *)
Record Message := { msg_type : option string; msg_row : option jsrecord }.

Section with_builtins.
Context (js : Builtins).

(** [String(v ?? "")]. *)
Definition string_or_empty (v : option jsval) : string :=
  if Js.nullish v then "" else default "" (Js.toString <$> v).

(** [Number(v)] for a value that is not nullish. *)
Definition to_number (v : jsval) : num :=
  match v with
  | JNum n => n
  | JStr s => Number_of_string js s
  | JBool true => Fin 1
  | JBool false => Fin 0
  | JNull => Fin 0
  | JObj _ => NaN
  end.

(** [v !== undefined && v !== null ? String(v) : undefined]. *)
Definition string_if_present (v : option jsval) : option string :=
  if Js.nullish v then None else Js.toString <$> v.

Definition incoming_key (incoming : jsrecord) : string :=
  Str.toUpperCase
    (makeDispatchKey (Some (string_or_empty (incoming !! "SO_No")))
                     (Some (string_or_empty (incoming !! "Customer")))
                     (Some (string_or_empty (incoming !! "Item")))
                     (Some (string_or_empty (incoming !! "Color")))).

(** [incoming.F ? String(incoming.F) : fallback]. *)
Definition string_or (v : option jsval) (fallback : string) : string :=
  if Js.truthy v then default fallback (Js.toString <$> v) else fallback.

Definition newRow (incoming : jsrecord) : SalesOrderRow :=
  {| SO_Date := string_if_present (incoming !! "SO_Date");
     SO_No := Some (string_or (incoming !! "SO_No") (string_or_empty (incoming !! "SO_No")));
     Customer := Some (string_or (incoming !! "Customer")
                                 (string_or_empty (incoming !! "Customer")));
     Customer_Type := None; Rating := None; Broker := None;
     Item := Some (string_or (incoming !! "Item") (string_or_empty (incoming !! "Item")));
     ItemCode := None;
     Color := Some (string_or (incoming !! "Color") (string_or_empty (incoming !! "Color")));
     New_Color := string_if_present (incoming !! "New_Color");
     Size := string_if_present (incoming !! "Size");
     OrderQty := match incoming !! "OrderQty" with
                 | Some v => if Js.nullish (Some v) then None else Num.finite (to_number v)
                 | None => None
                 end;
     Expected_Date := None; Status := None; so_date_parsed := None;
     Concept := None; Fabric := None; File_URL := None;
     Stock := None; StockByColor := None; ProductionQty := None;
     uid := None; pending := None |}.

Definition set_uid (u : string) (r : SalesOrderRow) : SalesOrderRow :=
  {| SO_Date := SO_Date r; SO_No := SO_No r; Customer := Customer r;
     Customer_Type := Customer_Type r; Rating := Rating r; Broker := Broker r;
     Item := Item r; ItemCode := ItemCode r; Color := Color r; New_Color := New_Color r;
     Size := Size r; OrderQty := OrderQty r; Expected_Date := Expected_Date r;
     Status := Status r; so_date_parsed := so_date_parsed r; Concept := Concept r;
     Fabric := Fabric r; File_URL := File_URL r; Stock := Stock r;
     StockByColor := StockByColor r; ProductionQty := ProductionQty r;
     uid := Some u; pending := pending r |}.

(** The updater given to [setRows]: the carried row goes to the front
    unless a visible row already has its key. *)
Definition prepend_if_absent (uuid : option string) (key : string) (nr : SalesOrderRow)
    (prev : list SalesOrderRow) : list SalesOrderRow :=
  if existsb (fun r => String.eqb (rowKey r) key) prev then prev
  else
    let u := uidForRow (SO_No nr) (orElse (Item nr) (ItemCode nr)) (Color nr)
               (Date_now js) uuid in
    set_uid u nr :: prev.

(** The listener of the channel (the window-event fallback does the same
    with [detail] as the row). *)
Definition on_message (uuid : option string) (data : option Message) : list event :=
  match data with
  | None => []
  | Some d =>
      match msg_type d, msg_row d with
      | Some ty, Some incoming =>
          if negb (String.eqb ty "verified:confirmed") then []
          else
            let key := incoming_key incoming in
            ([Call (setPendingSet (fun s => s ∖ {[key]}));
              Call (setPendingMap (delete key));
              Call (setRows (prepend_if_absent uuid key (newRow incoming)))]
             ++ (if Js.truthy (incoming !! "New_Color")
                 then [Call (setSelectedColors
                               (<[key := string_or_empty (incoming !! "New_Color")]>))]
                 else []))%list
      | _, _ => []
      end
  end.

End with_builtins.
End CrossTab.

(** ** The dashboard as a transition system *)

Module Dashboard.
Import Table Effects Cycle.

(** What can happen to the component. *)
Inductive action :=
  | ReconciliationCycle (env : Env) (filters : Filters)
  | HookFetch (aborted : bool) (reply : response OrdersBody)
  | RequestVerification (reply : response unit)
  | SaveDispatched (reply : response unit)
  | CancelOrderOf (order : SalesOrderRow) (reply : response unit)
  | CrossTabMessage (uuid : option string) (data : option CrossTab.Message).

Definition trace_of (js : Builtins) (st : State) (a : action) : list event :=
  match a with
  | ReconciliationCycle env filters =>
      Reconciler.load js env filters (page st) (pendingMap st)
  | HookFetch aborted reply => Actions.hook_load aborted reply
  | RequestVerification reply => Actions.handleVerifySelected st reply
  | SaveDispatched reply => Actions.handleSaveDispatched st reply
  | CancelOrderOf order reply => Actions.handleCancelOrder order reply
  | CrossTabMessage uuid data => CrossTab.on_message js uuid data
  end.

(** An action that runs to its end before anything else happens. *)
Definition step (js : Builtins) (st : State) (a : action) : State :=
  run (trace_of js st a) st.

Definition run_actions (js : Builtins) (l : list action) : State :=
  fold_left (step js) l initial.

(** *** Handlers that yield

    An asynchronous handler runs up to its next [await] and goes on later,
    on the state it then finds.  What it read from the state before the
    [await] it keeps: the events it still has to run were fixed when it
    started, the direct values as they were then, the updaters as
    functions of the state they will meet. *)

(** A trace run up to its next [await]: the state reached and the events
    left. *)
Fixpoint run_to_await (tr : list event) (st : State) : State * list event :=
  match tr with
  | [] => (st, [])
  | Await _ :: rest => (st, rest)
  | e :: rest => run_to_await rest (apply_event st e)
  end.

(** A turn of the event loop: an action starts and runs to its first
    [await], or the handler started as the [i]-th goes on to its next
    one. *)
Inductive turn :=
  | Start (a : action)
  | Resume (i : nat).

(** The state, and what the handlers that have started still have to run. *)
Definition turn_step (js : Builtins) (c : State * list (list event)) (t : turn)
  : State * list (list event) :=
  match t with
  | Start a =>
      let '(st', rest) := run_to_await (trace_of js c.1 a) c.1 in
      (st', (c.2 ++ [rest])%list)
  | Resume i =>
      match c.2 !! i with
      | Some tr => let '(st', rest) := run_to_await tr c.1 in (st', <[i := rest]> c.2)
      | None => c
      end
  end.

Definition interleave_from (js : Builtins) (c : State * list (list event))
    (ts : list turn) : State * list (list event) :=
  fold_left (turn_step js) ts c.

Definition interleave (js : Builtins) (ts : list turn) : State * list (list event) :=
  interleave_from js (initial, []) ts.

(** The order boundary keeps its contract: a count is not negative. *)
Definition reply_total_nonneg (reply : response OrdersBody) : Prop :=
  match reply with
  | Ok200 body => match body_total body with Fin t => 0 <= t | _ => True end
  | _ => True
  end.

Definition hook_contract (a : action) : Prop :=
  match a with
  | HookFetch _ reply => reply_total_nonneg reply
  | _ => True
  end.

Definition turn_contract (t : turn) : Prop :=
  match t with
  | Start a => hook_contract a
  | Resume _ => True
  end.

End Dashboard.

(** ** A concrete instance, for the examples

    The built-ins on the inputs the examples use: [Date.parse] on the
    date-only ISO form (NaN elsewhere), [toISOString] on whole days, and
    [Number] on optionally signed decimal integers, on the empty string and
    on the infinities (NaN elsewhere).  They stand for the engine's only
    there: the examples give them dates in the ISO form or strings that no
    engine reads as a date (a day above twelve in front, words), and whole
    numbers. *)

Module Sample.
Import Table Effects Cycle.

Definition digit (c : ascii) : Z := Z.of_nat (nat_of_ascii c) - 48.

Definition days_from_civil (y m d : Z) : Z :=
  let y' := if m <=? 2 then y - 1 else y in
  let era := y' `div` 400 in
  let yoe := y' - era * 400 in
  let doy := (153 * (if 2 <? m then m - 3 else m + 9) + 2) `div` 5 + d - 1 in
  let doe := yoe * 365 + yoe `div` 4 - yoe `div` 100 + doy in
  era * 146097 + doe - 719468.

Definition civil_from_days (z : Z) : Z * Z * Z :=
  let z' := z + 719468 in
  let era := z' `div` 146097 in
  let doe := z' - era * 146097 in
  let yoe := (doe - doe `div` 1460 + doe `div` 36524 - doe `div` 146096) `div` 365 in
  let doy := doe - (365 * yoe + yoe `div` 4 - yoe `div` 100) in
  let mp := (5 * doy + 2) `div` 153 in
  let d := doy - (153 * mp + 2) `div` 5 + 1 in
  let m := if mp <? 10 then mp + 3 else mp - 9 in
  ((if m <=? 2 then yoe + era * 400 + 1 else yoe + era * 400), m, d).

Definition parse_iso_date (s : string) : option Z :=
  match s with
  | String y1 (String y2 (String y3 (String y4 (String s1 (String m1 (String m2
      (String s2 (String d1 (String d2 EmptyString))))))))) =>
      if forallb Pipeline.is_digit [y1; y2; y3; y4; m1; m2; d1; d2]
         && Ascii.eqb s1 "-" && Ascii.eqb s2 "-"
      then
        let y := digit y1 * 1000 + digit y2 * 100 + digit y3 * 10 + digit y4 in
        let m := digit m1 * 10 + digit m2 in
        let d := digit d1 * 10 + digit d2 in
        if (1 <=? m) && (m <=? 12) && (1 <=? d) && (d <=? 31)
        then Some (days_from_civil y m d * 86400000)
        else None
      else None
  | _ => None
  end.

Definition pad (width : nat) (z : Z) : string :=
  let s := pretty z in
  String.concat "" (replicate (width - String.length s) "0") ++ s.

Definition iso_date_of (t : Z) : string :=
  let '(y, m, d) := civil_from_days (t `div` 86400000) in
  pad 4 y ++ "-" ++ pad 2 m ++ "-" ++ pad 2 d.

Fixpoint digits_value (acc : Z) (s : string) : option Z :=
  match s with
  | EmptyString => Some acc
  | String c r =>
      if Pipeline.is_digit c then digits_value (acc * 10 + digit c) r else None
  end.

Definition unsigned_number (s : string) : num :=
  if String.eqb s "Infinity" then PInf
  else match s with
       | EmptyString => NaN
       | _ => match digits_value 0 s with Some z => Fin z | None => NaN end
       end.

Definition number_of_string (s : string) : num :=
  match Str.trim s with
  | EmptyString => Fin 0
  | String "-" r => Num.opp (unsigned_number r)
  | String "+" r => unsigned_number r
  | t => unsigned_number t
  end.

Definition builtins : Builtins :=
  {| Date_parse := parse_iso_date;
     toISODate := iso_date_of;
     Number_of_string := number_of_string;
     Date_now := 1762041600000 |}.

Definition order (so customer item color : string) (qty : Z) (d : option string)
  : SalesOrderRow :=
  {| SO_Date := None; SO_No := Some so; Customer := Some customer; Customer_Type := None;
     Rating := None; Broker := None; Item := Some item; ItemCode := None;
     Color := Some color; New_Color := None; Size := None; OrderQty := Some qty;
     Expected_Date := None; Status := Some "Pending"; so_date_parsed := d;
     Concept := None; Fabric := None; File_URL := None; Stock := None;
     StockByColor := None; ProductionQty := None; uid := None; pending := None |}.

Definition order1 := order "SO-1" "Acme" "AB12" "Red" 5 (Some "2024-01-10").
Definition order2 := order "SO-2" "Zed" "CD34" "Blue" 5 (Some "2024-01-05").

Definition stock_of_item (item : string) (cs : closing) : StockRow :=
  {| stock_Item := None; stock_normalized_item := Some item; stock_Color := Some "Red";
     Closing_Stock := Some cs |}.

Definition no_filter : Filters :=
  {| q := ""; tokens := []; brand := ""; city := ""; startDate := ""; endDate := "";
     limit := 25; customers := None; items := None |}.

(** A cycle in which everything answers: [SO-1] has been dispatched. *)
Definition env_dispatched : Env :=
  {| abort_during := None;
     dispatch_keys := Ok200 [Some " so-1|acme|ab12|red"];
     verify_rows := Ok200 [];
     orders := Ok200 {| body_rows := [order1; order2]; body_total := Fin 2 |};
     invoices := Ok200 [];
     stock := Ok200 [stock_of_item "ab12" (CsNumber (Fin 3));
                     stock_of_item "cd34" (CsNumber (Fin 7))];
     randomUUID := fun _ => None |}.

(** The same answers, but the cycle is superseded while it waits for the
    stock batch, or for the invoices. *)
Definition env_superseded (during : endpoint) : Env :=
  {| abort_during := Some during;
     dispatch_keys := Ok200 [];
     verify_rows := Ok200 [];
     orders := Ok200 {| body_rows := [order1; order2]; body_total := Fin 2 |};
     invoices := Ok200 [];
     stock := Ok200 [stock_of_item "ab12" (CsNumber (Fin 3));
                     stock_of_item "cd34" (CsNumber (Fin 7))];
     randomUUID := fun _ => None |}.

(** The stock of [AB12] does not parse, the stock of [CD34] is zero. *)
Definition env_stock : Env :=
  {| abort_during := None;
     dispatch_keys := Ok200 [];
     verify_rows := Ok200 [];
     orders := Ok200 {| body_rows := [order1; order2]; body_total := Fin 2 |};
     invoices := Ok200 [];
     stock := Ok200 [stock_of_item "ab12" (CsString "n/a");
                     stock_of_item "cd34" (CsNumber (Fin 0))];
     randomUUID := fun _ => None |}.

(** The confirmation of [SO-1], as another tab broadcasts it. *)
Definition confirmed_so1 : CrossTab.Message :=
  {| CrossTab.msg_type := Some "verified:confirmed";
     CrossTab.msg_row :=
       Some (list_to_map [("SO_No", JStr "SO-1"); ("Customer", JStr "Acme");
                          ("Item", JStr "AB12"); ("Color", JStr "Red");
                          ("OrderQty", JNum (Fin 5))]) |}.

End Sample.

(** ** Vocabulary of the properties *)

Module Claims.
Import Table Effects Cycle.

(** [r] is the order line [r0], with whatever the cycle has attached to it. *)
Definition same_order (r r0 : SalesOrderRow) : Prop :=
  SO_No r = SO_No r0 /\ Customer r = Customer r0 /\ Item r = Item r0 /\
  ItemCode r = ItemCode r0 /\ Color r = Color r0 /\ OrderQty r = OrderQty r0 /\
  so_date_parsed r = so_date_parsed r0.

(** The order of the numbers that are not NaN. *)
Definition num_lt (a b : num) : Prop :=
  match a, b with
  | NInf, Fin _ | NInf, PInf | Fin _, PInf => True
  | Fin x, Fin y => x < y
  | _, _ => False
  end.

Definition quantity (r : SalesOrderRow) : Z := default 0 (OrderQty r).

(** The stock a row is ranked by: its total stock when that is a number,
    minus infinity when it is unknown (absent, or not a number). *)
Definition ranking_stock (r : SalesOrderRow) : num :=
  match Stock r with
  | Some n => if Num.is_nan n then NInf else n
  | None => NInf
  end.

(** The date a row is ranked by: its parsed order date as a time value,
    plus infinity when it has none or when the date cannot be read. *)
Definition ranking_date (js : Builtins) (r : SalesOrderRow) : num :=
  match so_date_parsed r with
  | Some d => match Date_parse js d with Some t => Fin t | None => PInf end
  | None => PInf
  end.

(** [a] may stand before [b]: larger quantity first; then larger stock,
    unknown stock last; then earlier date, a missing or unreadable date
    last. *)
Definition sorted_before (js : Builtins) (a b : SalesOrderRow) : Prop :=
  quantity b < quantity a \/
  (quantity a = quantity b /\
   (num_lt (ranking_stock b) (ranking_stock a) \/
    (ranking_stock a = ranking_stock b /\
     (num_lt (ranking_date js a) (ranking_date js b) \/
      ranking_date js a = ranking_date js b)))).

(** The parsed date of a row of the orders route,
    [CAST(ps.so_date_parsed AS STRING)]: a date in the ISO form, which
    [Date.parse] reads, or [NULL]. *)
Definition route_date (js : Builtins) (r : SalesOrderRow) : Prop :=
  forall d, so_date_parsed r = Some d -> d <> "" /\ Date_parse js d <> None.

Definition route_dates (js : Builtins) (l : list SalesOrderRow) : Prop :=
  forall r, r ∈ l -> route_date js r.

(** A trace that neither touches the visible rows, the total, the
    dispatched set, the pending set or the invoice map, nor reports an
    error. *)
Definition quiet (tr : list event) : bool := forallb (fun e => negb (visible_effect e)) tr.

(** A setter call that keeps a total that is not negative so. *)
Definition keeps_total_nonneg (e : event) : Prop :=
  match e with
  | Call (setTotal f) => forall t, 0 <= t -> 0 <= f t
  | _ => True
  end.

End Claims.

(** A state in which [SO-2] is visible and checked. *)
Module SampleState.
Import Table Effects Cycle.

Definition after_cycle : State :=
  Dashboard.run_actions Sample.builtins
    [Dashboard.ReconciliationCycle Sample.env_dispatched Sample.no_filter].

Definition so2_checked : State :=
  apply_setter (setChecked (const {["SO-2__CD34__Blue__1" := true]})) after_cycle.

(** Nothing is dispatched yet: [SO-1] and [SO-2] are both visible, and
    [SO-2] is checked. *)
Definition env_open : Env :=
  {| abort_during := None;
     dispatch_keys := Ok200 [];
     verify_rows := Ok200 [];
     orders := Ok200 {| body_rows := [Sample.order1; Sample.order2]; body_total := Fin 2 |};
     invoices := Ok200 [];
     stock := Ok200 [Sample.stock_of_item "ab12" (CsNumber (Fin 3));
                     Sample.stock_of_item "cd34" (CsNumber (Fin 7))];
     randomUUID := fun _ => None |}.

Definition both_visible : State :=
  apply_setter (setChecked (const {["SO-2__CD34__Blue__1" := true]}))
    (Dashboard.run_actions Sample.builtins
       [Dashboard.ReconciliationCycle env_open Sample.no_filter]).

End SampleState.

(** An opening bracket, a line feed, and [[x]]]. *)
Definition two_line_sample : string := "[" ++ String Str.LF "[x]]".

(** ** The table's view: grouping, check marks and badges *)

Module View.
Import Table Effects Cycle Pipeline.

Definition ALL_GROUP_KEYS : list string := ["Customer"; "Item"; "Color"; "Broker"; "Status"].

(** [effectiveGroupKeys]: the known keys of [groupBy], in its order, or
    [["Customer"]] when there is none. *)
Definition effectiveGroupKeys (groupBy : option (list string)) : list string :=
  match groupBy with
  | None | Some [] => ["Customer"]
  | Some l =>
      match List.filter (fun g => bool_decide (g ∈ ALL_GROUP_KEYS)) l with
      | [] => ["Customer"]
      | arr => arr
      end
  end.

(** [formatCell]: what a cell shows, a string or a number. *)
Definition formatCell (value : option jsval) : jsval :=
  match value with
  | None | Some JNull => JStr ""
  | Some (JStr s) =>
      let v := Str.trim s in
      if Str.is_empty v then JStr ""
      else if String.eqb (Str.toLowerCase v) "nan" then JStr ""
      else JStr v
  | Some (JNum n) => if Num.is_nan n then JStr "" else JNum n
  | Some w => JStr (Js.toString w)
  end.

(** The properties of a row object, for [(r as Record<string, unknown>)[k]]. *)
Definition row_fields (r : SalesOrderRow) : list (string * option jsval) :=
  [("SO_Date", JStr <$> SO_Date r); ("SO_No", JStr <$> SO_No r);
   ("Customer", JStr <$> Customer r); ("Customer_Type", JStr <$> Customer_Type r);
   ("Rating", JStr <$> Rating r); ("Broker", JStr <$> Broker r);
   ("Item", JStr <$> Item r); ("ItemCode", JStr <$> ItemCode r);
   ("Color", JStr <$> Color r); ("New_Color", JStr <$> New_Color r);
   ("Size", JStr <$> Size r); ("OrderQty", (fun z => JNum (Fin z)) <$> OrderQty r);
   ("Expected_Date", JStr <$> Expected_Date r); ("Status", JStr <$> Status r);
   ("so_date_parsed", JStr <$> so_date_parsed r); ("Concept", JStr <$> Concept r);
   ("Fabric", JStr <$> Fabric r); ("File_URL", JStr <$> File_URL r);
   ("Stock", JNum <$> Stock r);
   ("StockByColor",
    (fun m : gmap string num => JObj (map (fun cn => (cn.1, JNum cn.2)) (map_to_list m)))
      <$> StockByColor r);
   ("ProductionQty", JNum <$> ProductionQty r);
   ("__uid", JStr <$> uid r); ("__pending", JBool <$> pending r)].

Definition row_field (k : string) (r : SalesOrderRow) : option jsval :=
  default None (Verify.map_get k (row_fields r)).

(** [formatted === "" ? "(empty)" : String(formatted)] for each group key. *)
Definition group_part (k : string) (r : SalesOrderRow) : string :=
  match formatCell (row_field k r) with
  | JStr EmptyString => "(empty)"
  | formatted => Js.toString formatted
  end.

Definition group_parts (keys : list string) (r : SalesOrderRow) : list string :=
  map (fun k => group_part k r) keys.

(** [parts.join(" | ")]. *)
Definition group_key (keys : list string) (r : SalesOrderRow) : string :=
  String.concat " | " (group_parts keys r).

(** [Number(r.OrderQty ?? 0) || 0]. *)
Definition qty (r : SalesOrderRow) : Z := default 0 (OrderQty r).

(** [Math.min] on two numbers. *)
Definition num_min (a b : num) : num :=
  match a, b with
  | NaN, _ | _, NaN => NaN
  | NInf, _ | _, NInf => NInf
  | PInf, x | x, PInf => x
  | Fin x, Fin y => Fin (Z.min x y)
  end.

Record Group := {
  g_key : string;
  labelParts : list string;
  g_rows : list SalesOrderRow;
  count : Z;
  sum : Z;
  minTimestamp : num
}.

Section with_builtins.
(** [localeCompare] is a parameter, like the built-ins: a negative number,
    zero or a positive number. *)
Context (js : Builtins) (localeCompare : string -> string -> Z).

(** [parseDateToTs]: a time value, or [Infinity] where there is no date to
    read. *)
Definition parseDateToTs (value : option string) : num :=
  match value with
  | None => PInf
  | Some v =>
      let s := Str.trim v in
      if Str.is_empty s then PInf
      else
        match Date_parse js s with
        | Some iso => Fin iso
        | None =>
            match match dmy_to_iso_like s with
                  | Some isoLike => Date_parse js isoLike
                  | None => None
                  end with
            | Some t => Fin t
            | None =>
                match Date_parse js (dots_to_dashes s) with
                | Some loose => Fin loose
                | None => PInf
                end
            end
        end
  end.

(** [parseDateToTs(r.so_date_parsed ?? r.SO_Date)]. *)
Definition row_ts (r : SalesOrderRow) : num :=
  parseDateToTs (orElse (so_date_parsed r) (SO_Date r)).

(** The comparator of the rows of a group: by date, then by order number. *)
Definition compare_rows (a b : SalesOrderRow) : num :=
  let ta := row_ts a in
  let tb := row_ts b in
  if negb (Num.strict_eq ta tb) then Num.sub ta tb
  else Fin (localeCompare (orEmpty (SO_No a)) (orEmpty (SO_No b))).

Definition sort_by_date : list SalesOrderRow -> list SalesOrderRow :=
  Sorting.sort_by (fun a b => Num.positive (compare_rows a b)).

(** The comparator of the groups: by earliest date, then by key. *)
Definition compare_groups (a b : Group) : num :=
  if negb (Num.strict_eq (minTimestamp a) (minTimestamp b))
  then Num.sub (minTimestamp a) (minTimestamp b)
  else Fin (localeCompare (g_key a) (g_key b)).

(** A first row opens a group; a further row joins it. *)
Definition new_group (keys : list string) (r : SalesOrderRow) : Group :=
  {| g_key := group_key keys r; labelParts := group_parts keys r; g_rows := [r];
     count := 1; sum := qty r; minTimestamp := row_ts r |}.

Definition add_row (existing : Group) (r : SalesOrderRow) : Group :=
  {| g_key := g_key existing; labelParts := labelParts existing;
     g_rows := g_rows existing ++ [r];
     count := count existing + 1;
     sum := sum existing + qty r;
     minTimestamp := num_min (minTimestamp existing) (row_ts r) |}.

(** Body of [for (const r of rows)], on the insertion-ordered [Map]. *)
Definition group_step (keys : list string) (m : list (string * Group)) (r : SalesOrderRow)
  : list (string * Group) :=
  let key := group_key keys r in
  match Verify.map_get key m with
  | Some existing => Verify.map_replace key (add_row existing r) m
  | None => (m ++ [(key, new_group keys r)])%list
  end.

(** [grp.rows.sort(...)]. *)
Definition sort_group_rows (g : Group) : Group :=
  {| g_key := g_key g; labelParts := labelParts g; g_rows := sort_by_date (g_rows g);
     count := count g; sum := sum g; minTimestamp := minTimestamp g |}.

(** [grouped]: the groups the table shows, for the rows and the effective
    group keys. *)
Definition grouped (rows : list SalesOrderRow) (keys : list string) : list Group :=
  match keys with
  | [] =>
      let flatSorted := sort_by_date rows in
      [{| g_key := "__all__"; labelParts := ["All"]; g_rows := flatSorted;
          count := Z.of_nat (length flatSorted);
          sum := fold_left (fun s r => s + qty r) rows 0;
          minTimestamp := fold_left (fun m r => num_min m (row_ts r)) rows PInf |}]
  | _ :: _ =>
      Sorting.sort_by (fun a b => Num.positive (compare_groups a b))
        (map sort_group_rows (fold_left (group_step keys) rows []).*2)
  end.

End with_builtins.

(** *** Check marks, colours and badges *)

(** The updaters of [toggleGroupCollapse], [toggleRowCheckedByUid], the
    checkbox's [onCheckedChange] and [toggleSelectColorForRow]. *)
Definition toggleGroupCollapse (key : string) (s : gmap string bool) : gmap string bool :=
  <[key := negb (default false (s !! key))]> s.

Definition toggleRowCheckedByUid (u : string) (c : gmap string bool) : gmap string bool :=
  <[u := negb (default false (c !! u))]> c.

Definition onCheckedChange (u : string) (v : bool) (c : gmap string bool)
  : gmap string bool :=
  <[u := v]> c.

Definition toggleSelectColorForRow (row : SalesOrderRow) (color : string)
    (prev : gmap string string) : gmap string string :=
  let key := rowKey row in
  if bool_decide (prev !! key = Some color) then delete key prev
  else <[key := color]> prev.

(** [Object.values(checked).filter(Boolean).length]. *)
Definition selectedCount (c : gmap string bool) : nat :=
  length (List.filter (fun b : bool => b) (map_to_list c).*2).

(** The [disabled] attribute of the two buttons. *)
Definition save_disabled (st : State) : bool :=
  (selectedCount (checked st) =? 0)%nat || saving st.

Definition verify_disabled (st : State) : bool :=
  ((selectedCount (checked st) =? 0)%nat && bool_decide (selectedColors st = ∅))
  || verifying st.

(** [s.add(so)] on an insertion-ordered [Set]. *)
Definition set_add (so : string) (s : list string) : list string :=
  if bool_decide (so ∈ s) then s else (s ++ [so])%list.

(** Body of the loop of [itemToSOs]. *)
Definition itemToSOs_step (m : gmap string (list string)) (r : SalesOrderRow)
  : gmap string (list string) :=
  let key := normItemKey (orElse (Item r) (ItemCode r)) in
  if Str.is_empty key then m
  else
    let so := Str.trim (orEmpty (SO_No r)) in
    if Str.is_empty so then m
    else <[key := set_add so (default [] (m !! key))]> m.

Definition itemToSOs (rows : list SalesOrderRow) : gmap string (list string) :=
  fold_left itemToSOs_step rows ∅.

(** [otherSos]: the order numbers the badge of a row lists. *)
Definition otherSos (rows : list SalesOrderRow) (r : SalesOrderRow) : list string :=
  let itemKey := normItemKey (orElse (Item r) (ItemCode r)) in
  let allSos := default [] (itemToSOs rows !! itemKey) in
  let currentSo := Str.trim (orEmpty (SO_No r)) in
  List.filter (fun s => negb (String.eqb s currentSo)) allSos.

End View.

(** ** The boundaries, server side *)

(** *** Paging and counting of the orders query *)

Module Paging.
Import Query.

(** What [Number(...)] reads from a query parameter: a finite number (every
    double is a ratio of integers), an infinity or NaN. *)
Inductive parsed :=
  | Ratio (n : Z) (d : positive)
  | Infinite (negative : bool)
  | NotANumber.

(** [Number.isFinite(parsedLimit) && parsedLimit > 0
     ? Math.min(500, Math.floor(parsedLimit)) : 25]. *)
Definition limitNum (parsedLimit : parsed) : Z :=
  match parsedLimit with
  | Ratio n d => if 0 <? n then Z.min 500 (n `div` Z.pos d) else 25
  | _ => 25
  end.

(** [Number.isFinite(parsedOffset) && parsedOffset >= 0
     ? Math.floor(parsedOffset) : 0]. *)
Definition offsetNum (parsedOffset : parsed) : Z :=
  match parsedOffset with
  | Ratio n d => if 0 <=? n then n `div` Z.pos d else 0
  | _ => 0
  end.

(** [total], from the rows [countResult] of the count query (each with its
    [cnt], a count) and the number of rows of the page:
    [Array.isArray(countResult) && countResult.length > 0
     ? Number(countResult[0].cnt ?? cleanedRows.length) : cleanedRows.length]. *)
Definition reported_total (countResult : list (option nat)) (cleanedRows : nat) : num :=
  match countResult with
  | Some cnt :: _ => Fin (Z.of_nat cnt)
  | _ => Fin (Z.of_nat cleanedRows)
  end.

(** The page the route serves to the hook, which asks for
    [limit = filters.limit] and [offset = page * filters.limit]. *)
Definition served_page (joined : list JoinedRow) (limit page : nat) : list JoinedRow :=
  select_page joined
    (Z.to_nat (limitNum (Ratio (Z.of_nat limit) 1)))
    (Z.to_nat (offsetNum (Ratio (Z.of_nat (page * limit)) 1))).

(** The argument of [COUNT(DISTINCT CONCAT(COALESCE(SO_No, ''), '|',
    LOWER(TRIM(Item)), '|', COALESCE(Color, '')))]: [CONCAT] is [NULL] when
    an argument is. *)
Definition count_key (r : JoinedRow) : option string :=
  match Item r with
  | Some i => Some (coalesce (SO_No r) ++ "|" ++ Str.toLowerCase (Str.trim i) ++ "|"
                    ++ coalesce (Color r))
  | None => None
  end.

(** [cnt]: the number of distinct values that are not [NULL]. *)
Definition count_distinct (joined : list JoinedRow) : nat :=
  length (remove_dups (omap count_key joined)).

(** [count_key] read off the partition key of a row. *)
Definition concat_key (k : string * option string * string) : option string :=
  match k with
  | (so, Some i, color) => Some (so ++ "|" ++ i ++ "|" ++ color)
  | (_, None, _) => None
  end.

(** The rows the count does not confuse: they have an item, and neither the
    order number nor the item holds the separator. *)
Definition countable (r : JoinedRow) : Prop :=
  Item r <> None /\ Str.pipe_free (coalesce (SO_No r)) = true /\
  Str.pipe_free (default "" ((fun s => Str.toLowerCase (Str.trim s)) <$> Item r)) = true.

End Paging.

(** *** The dispatch boundary: what is stored, and the keys read back *)

Module DispatchBoundary.
Import Table Actions.

(** A row of the dispatched table. *)
Record Stored := {
  st_SO_No : option string;
  st_Customer : option string;
  st_Item : option string;
  st_Color : option string;
  st_Dispatched : bool
}.

(** [typeof v === 'string' ? v : null]. *)
Definition string_or_null (v : option jsval) : option string :=
  match v with Some (JStr s) => Some s | _ => None end.

(** [Boolean(v)]. *)
Definition to_boolean (v : option jsval) : bool := Js.truthy v.

(** One element of [rawRows.map(...)] of the POST handler: [None] for a row
    that is dropped. *)
Definition normalize_row (r : jsval) : option Stored :=
  match r with
  | JObj obj =>
      match Js.field "SO_No" obj with
      | Some (JStr s) =>
          let so := Str.trim s in
          if Str.is_empty so then None
          else Some {| st_SO_No := Some so;
                       st_Customer := string_or_null (Js.field "Customer" obj);
                       st_Item := string_or_null (Js.field "Item" obj);
                       st_Color := string_or_null (Js.field "Color" obj);
                       st_Dispatched := to_boolean (Js.field "Dispatched" obj) |}
      | _ => None
      end
  | _ => None
  end.

Definition rowsToInsert (rawRows : list jsval) : list Stored := omap normalize_row rawRows.

(** The body the table sends: [JSON.stringify({ rows: selectedRows })]. *)
Definition json_string (v : option string) : jsval :=
  match v with Some s => JStr s | None => JNull end.

Definition json_number (v : option num) : jsval :=
  match v with Some (Fin z) => JNum (Fin z) | _ => JNull end.

Definition dispatch_json (sr : DispatchRowOut) : jsval :=
  JObj [("SO_No", JStr (d_SO_No sr)); ("Customer", json_string (d_Customer sr));
        ("Item", json_string (d_Item sr)); ("Old_Color", json_string (d_Old_Color sr));
        ("New_Color", json_string (d_New_Color sr)); ("Color", json_string (d_Color sr));
        ("ProductionQty", json_number (d_ProductionQty sr)); ("Dispatched", JBool true)].

(** [COALESCE(UPPER(TRIM(x)), '')]. *)
Definition sql_upper_trim (x : option string) : string :=
  default "" ((fun s => Str.toUpperCase (Str.trim s)) <$> x).

(** The [dispatch_key] the keys route selects for a stored row. *)
Definition dispatch_key (s : Stored) : string :=
  sql_upper_trim (st_SO_No s) ++ "|" ++ sql_upper_trim (st_Customer s) ++ "|"
  ++ sql_upper_trim (st_Item s) ++ "|" ++ sql_upper_trim (st_Color s).

(** [SELECT DISTINCT ... WHERE SO_No IS NOT NULL], then
    [.filter((k) => k.length > 0)]. *)
Definition dispatch_keys_of (table : list Stored) : list string :=
  List.filter (fun k => negb (Str.is_empty k))
    (remove_dups
       (map dispatch_key
          (List.filter (fun s => match st_SO_No s with Some _ => true | None => false end)
             table))).

(** No opening bracket: the normaliser of the table has nothing to strip. *)
Definition bracket_free (v : option string) : bool :=
  negb (Str.mem_char Str.is_open (orEmpty v)).

End DispatchBoundary.

(** *** The stock boundary: the batch request *)

Module StockBoundary.
Import Cycle.

(** [(body.items ?? []).map((s) => String(s ?? "").trim().toLowerCase())
     .filter(Boolean)]. *)
Definition batch_items (items : list (option string)) : list string :=
  List.filter (fun s => negb (Str.is_empty s))
    (map (fun s => Str.toLowerCase (Str.trim (orEmpty s))) items).

(** [LOWER(TRIM(x)) IN UNNEST(@items)], which is not true for a [NULL]. *)
Definition lower_trim_in (items : list string) (x : option string) : bool :=
  match x with
  | Some s => bool_decide (Str.toLowerCase (Str.trim s) ∈ items)
  | None => false
  end.

(** The rows the route answers with, out of the stock table. *)
Definition stock_batch (table : list StockRow) (items : list (option string))
  : list StockRow :=
  match batch_items items with
  | [] => []
  | its =>
      List.filter (fun s => lower_trim_in its (stock_normalized_item s)
                            || lower_trim_in its (stock_Item s)) table
  end.

End StockBoundary.

(** *** The verification boundary: what a request stores *)

Module VerifyBoundary.
Import Table Actions.

Section with_builtins.
Context (js : Builtins).

(** [r.F == null ? null : String(r.F)]. *)
Definition text_or_null (v : option jsval) : jsval :=
  match v with
  | None | Some JNull => JNull
  | Some w => JStr (Js.toString w)
  end.

(** The [OrderQty] of the stored record: [null] for a missing or blank
    quantity and for one that is not a finite number.  The numbers of the
    model are whole, so that [Math.trunc] leaves a finite one as it is. *)
Definition stored_qty (v : option jsval) : jsval :=
  match v with
  | None | Some JNull => JNull
  | Some w =>
      if match w with JStr s => Str.is_empty (Str.trim s) | _ => false end then JNull
      else match CrossTab.to_number js w with
           | Fin z => JNum (Fin z)
           | _ => JNull
           end
  end.

(** [buildWhitelistedRow]: the record the route stores for a row of the
    request, always without a [verified_at]. *)
Definition buildWhitelistedRow (r : jsrecord) : jsrecord :=
  list_to_map
    [("SO_No", JStr (match r !! "SO_No" with
                     | None | Some JNull => ""
                     | Some w => Js.toString w
                     end));
     ("Customer", text_or_null (r !! "Customer"));
     ("Item", text_or_null (r !! "Item"));
     ("Color", text_or_null (r !! "Color"));
     ("New_Color", text_or_null (r !! "New_Color"));
     ("Size", text_or_null (r !! "Size"));
     ("OrderQty", stored_qty (r !! "OrderQty"));
     ("SO_Date", text_or_null (r !! "SO_Date"));
     ("verified_at", JNull);
     ("source", JStr "sales_orders")].

(** [body.rows.map((r) => buildWhitelistedRow(r))]. *)
Definition verify_rowsToInsert (rows : list jsrecord) : list jsrecord :=
  map buildWhitelistedRow rows.

End with_builtins.

(** An element of [rows] in the body the table sends,
    [JSON.stringify({ action: "request", rows: rowsToSend })]. *)
Definition verify_json (sr : OutgoingRow) : jsrecord :=
  list_to_map
    [("SO_No", JStr (out_SO_No sr));
     ("Customer", DispatchBoundary.json_string (out_Customer sr));
     ("Item", DispatchBoundary.json_string (out_Item sr));
     ("Color", DispatchBoundary.json_string (out_Color sr));
     ("New_Color", DispatchBoundary.json_string (out_New_Color sr));
     ("Size", DispatchBoundary.json_string (out_Size sr));
     ("OrderQty", match out_OrderQty sr with Some z => JNum (Fin z) | None => JNull end);
     ("SO_Date", DispatchBoundary.json_string (out_SO_Date sr))].

End VerifyBoundary.

(** ** Vocabulary of the properties of the view *)

Module ViewProps.
Import Table View.

(** A time value or [Infinity]: what [parseDateToTs] returns. *)
Definition is_time (n : num) : bool :=
  match n with Fin _ | PInf => true | _ => false end.

(** The order of the time values, [Infinity] last. *)
Definition ts_le (a b : num) : Prop :=
  match a, b with
  | Fin x, Fin y => x <= y
  | Fin _, PInf | PInf, PInf => True
  | _, _ => False
  end.

(** The rows of [rows] whose group key is [k], in their order. *)
Definition members (keys : list string) (k : string) (rows : list SalesOrderRow)
  : list SalesOrderRow :=
  List.filter (fun r => String.eqb k (group_key keys r)) rows.

Definition sum_qty (l : list SalesOrderRow) : Z := foldr Z.add 0 (map qty l).

(** All the rows of a list of groups. *)
Definition all_rows (groups : list Group) : list SalesOrderRow :=
  concat (map g_rows groups).

(** What a cell may show: a number that is not NaN, or a string that is
    empty or else trimmed and not [nan] in any case of the letters. *)
Definition presentable (v : jsval) : Prop :=
  match v with
  | JNum n => Num.is_nan n = false
  | JStr s => s = "" \/ (Str.trim s = s /\ Str.toLowerCase s <> "nan")
  | _ => False
  end.

(** The normalised item of a row and its trimmed order number, as the badge
    reads them. *)
Definition item_of (r : SalesOrderRow) : string := normItemKey (orElse (Item r) (ItemCode r)).
Definition number_of (r : SalesOrderRow) : string := Str.trim (orEmpty (SO_No r)).

End ViewProps.

(** ** Vocabulary of the further properties *)

Module Props.
Import Table Effects Cycle.


(** The orders request of a cycle sends the user back to the first page: an
    empty page beyond the first although the server counts rows. *)
Definition back_to_first_page (body : OrdersBody) (pg : nat) : bool :=
  bool_decide (length (body_rows body) = 0%nat)
  && (0 <? Reconciler.serverTotal body) && (0 <? pg)%nat.

(** The pending map holds, under the key [k], a row of [visible] that has
    this key. *)
Definition remembered (visible : list SalesOrderRow) (k : string)
    (pm : gmap string SalesOrderRow) : Prop :=
  exists original, pm !! k = Some original /\ rowKey original = k /\ original ∈ visible.

(** The part of a string after its last underscore (the string itself when
    it has none). *)
Definition is_underscore (c : ascii) : bool := Ascii.eqb c "_".

Fixpoint last_segment (s : string) : string :=
  match s with
  | EmptyString => EmptyString
  | String c r =>
      if Str.mem_char is_underscore r then last_segment r
      else if is_underscore c then r else s
  end.


End Props.

(** ** Vocabulary of the invoice and stock stages *)

Module StageProps.
Import Table Effects Cycle Pipeline.

Section with_builtins.
Context (js : Builtins).





(** The item a stock record is filed under, and what it adds to the total
    of the item [k]: its closing stock when that is a finite number. *)
Definition stock_norm (s : StockRow) : string :=
  Str.toLowerCase (Str.trim (orEmpty (orElse (stock_normalized_item s) (stock_Item s)))).

Definition counted (k : string) (s : StockRow) : option Z :=
  if String.eqb (stock_norm s) k then Num.finite (closing_value js s) else None.

Definition stock_sum (k : string) (stockRows : list StockRow) : Z :=
  foldr Z.add 0 (omap (counted k) stockRows).

(** No closing stock is an infinity. *)
Definition no_infinite_stock (stockRows : list StockRow) : Prop :=
  forall s, s ∈ stockRows -> closing_value js s <> PInf /\ closing_value js s <> NInf.

(** [(total || 0) + cs] for a finite closing stock [z]. *)
Definition add_counted (total : option num) (z : Z) : option num :=
  Some (Num.add (Num.or_zero total) (Fin z)).

End with_builtins.
End StageProps.

(** ** Vocabulary of the merged verification records *)

Module VerifyProps.
Import Verify.

(** The four normalised parts of the composite key of a record. *)
Definition key_parts (r : jsrecord) : list string :=
  map (fun f => normalizeKeyPart (Js.as_string (r !! f)))
      ["SO_No"; "Customer"; "Item"; "Color"].

(** No part of the key holds the separator of the composite key. *)
Definition separable (r : jsrecord) : Prop :=
  Forall (fun p => Str.pipe_free p = true) (key_parts r).

(** No part before the last (order number, customer, item) holds the
    separator: what it takes to read the parts back from the key. *)
Definition separated (r : jsrecord) : Prop :=
  Forall (fun p => Str.pipe_free p = true) (take 3 (key_parts r)).

End VerifyProps.

(** Three records whose order numbers and customers hold the separator:
    the first two share a composite key, and merged they have the key of
    the third. *)
Module MergeSample.

Definition number_with_separator : jsrecord :=
  list_to_map [("SO_No", JStr "A|B"); ("Customer", JNull)].

Definition customer_with_separator : jsrecord :=
  list_to_map [("SO_No", JStr "A"); ("Customer", JStr "B|")].

Definition both_with_separator : jsrecord :=
  list_to_map [("SO_No", JStr "A|B"); ("Customer", JStr "B|"); ("Size", JStr "9")].

Definition records : list jsrecord :=
  [number_with_separator; customer_with_separator; both_with_separator].

End MergeSample.

(** A page of five order lines as the orders route sends them (the date as
    [dd-mm-yyyy] and parsed; the last line has no date), with stock for two
    of the four items. *)
Module SortSample.
Import Table Effects Cycle.

Definition line (so item color : string) (qty : Z) (soDate parsed : option string)
  : SalesOrderRow :=
  {| SO_Date := soDate; SO_No := Some so; Customer := Some "Acme";
     Customer_Type := None; Rating := None; Broker := None; Item := Some item;
     ItemCode := None; Color := Some color; New_Color := None; Size := None;
     OrderQty := Some qty; Expected_Date := None; Status := Some "Pending";
     so_date_parsed := parsed; Concept := None; Fabric := None; File_URL := None;
     Stock := None; StockByColor := None; ProductionQty := None; uid := None;
     pending := None |}.

Definition page : list SalesOrderRow :=
  [line "SO-A" "AB12" "Red" 5 (Some "20-01-2024") (Some "2024-01-20");
   line "SO-B" "CD34" "Blue" 9 (Some "25-01-2024") (Some "2024-01-25");
   line "SO-C" "EF56" "Red" 5 (Some "15-01-2024") (Some "2024-01-15");
   line "SO-D" "AB12" "Blue" 5 (Some "14-01-2024") (Some "2024-01-14");
   line "SO-E" "GH78" "Red" 5 None None].

Definition env : Env :=
  {| abort_during := None;
     dispatch_keys := Ok200 [];
     verify_rows := Ok200 [];
     orders := Ok200 {| body_rows := page; body_total := Fin 5 |};
     invoices := Ok200 [];
     stock := Ok200 [Sample.stock_of_item "ab12" (CsNumber (Fin 3));
                     Sample.stock_of_item "cd34" (CsNumber (Fin 7))];
     randomUUID := fun _ => None |}.

End SortSample.

(** An invoice of the first of February 2024 for [AB12] in red, sold to
    Acme; an order line of the 25th of January for the same, with its date
    as the orders route sends it ([dd-mm-yyyy], and parsed); a second stock
    record for [AB12]. *)
Module StageSample.
Import Table Effects Cycle.



Definition stock_records : list StockRow :=
  [Sample.stock_of_item "ab12" (CsNumber (Fin 3));
   Sample.stock_of_item " AB12" (CsString "4");
   Sample.stock_of_item "ab12" (CsString "n/a");
   Sample.stock_of_item "cd34" (CsNumber (Fin 7))].

End StageSample.

(** The dispatched table after the save of the checked row of
    [SampleState.so2_checked], and a cycle that reads its keys. *)
Module BoundarySample.
Import Table Effects Cycle.

Definition table : list DispatchBoundary.Stored :=
  DispatchBoundary.rowsToInsert
    (map DispatchBoundary.dispatch_json (Actions.selectedRows SampleState.so2_checked)).

Definition env_after_save : Env :=
  {| abort_during := None;
     dispatch_keys := Ok200 (map Some (DispatchBoundary.dispatch_keys_of table));
     verify_rows := Ok200 [];
     orders := Ok200 {| body_rows := [Sample.order1; Sample.order2]; body_total := Fin 2 |};
     invoices := Ok200 [];
     stock := Ok200 [];
     randomUUID := fun _ => None |}.

Definition stock_table : list StockRow :=
  StageSample.stock_records
  ++ [{| stock_Item := Some "AB12"; stock_normalized_item := None;
         stock_Color := Some "Blue"; Closing_Stock := Some (CsNumber (Fin 2)) |};
      {| stock_Item := Some "ZZ99"; stock_normalized_item := None;
         stock_Color := None; Closing_Stock := Some (CsNumber (Fin 9)) |}].

End BoundarySample.

(** The verification table after the request for the checked row of
    [so2_checked], and a cycle that reads it. *)
Module VerifySample2.
Import Table Effects Cycle.

Definition verified_table : list jsrecord :=
  VerifyBoundary.verify_rowsToInsert Sample.builtins
    (map VerifyBoundary.verify_json (Actions.rowsToSend SampleState.so2_checked)).

Definition env_after_request : Env :=
  {| abort_during := None;
     dispatch_keys := Ok200 [];
     verify_rows := Ok200 (Verify.mergeVerifyRows verified_table);
     orders := Ok200 {| body_rows := [Sample.order1; Sample.order2]; body_total := Fin 2 |};
     invoices := Ok200 [];
     stock := Ok200 [];
     randomUUID := fun _ => None |}.

End VerifySample2.

(* ================================================================== *)
(** * Properties *)
(* ================================================================== *)

(** ** Strings *)

Module StrFacts.
Import Str.

Ltac all_chars c := destruct c as [[] [] [] [] [] [] [] []]; reflexivity.

Lemma is_space_upper c : is_space (upper_char c) = is_space c.
Proof. all_chars c. Qed.

Lemma is_open_upper c : is_open (upper_char c) = is_open c.
Proof. all_chars c. Qed.

Lemma is_close_upper c : is_close (upper_char c) = is_close c.
Proof. all_chars c. Qed.

Lemma is_pipe_upper c : is_pipe (upper_char c) = is_pipe c.
Proof. all_chars c. Qed.

Lemma upper_char_idem c : upper_char (upper_char c) = upper_char c.
Proof. all_chars c. Qed.

Lemma open_not_space c : is_open c = true -> is_space c = false.
Proof. destruct c as [[] [] [] [] [] [] [] []]; vm_compute; congruence. Qed.

Lemma toUpperCase_idem s : toUpperCase (toUpperCase s) = toUpperCase s.
Proof.
  unfold toUpperCase. induction s as [|c r IH]; simpl; [reflexivity|].
  now rewrite upper_char_idem, IH.
Qed.

Lemma mem_close_upper s : mem_char is_close (toUpperCase s) = mem_char is_close s.
Proof.
  unfold toUpperCase. induction s as [|c r IH]; simpl; [reflexivity|].
  now rewrite is_close_upper, IH.
Qed.

Lemma mem_pipe_upper s : mem_char is_pipe (toUpperCase s) = mem_char is_pipe s.
Proof.
  unfold toUpperCase. induction s as [|c r IH]; simpl; [reflexivity|].
  now rewrite is_pipe_upper, IH.
Qed.

Lemma no_pair_upper s : no_pair (toUpperCase s) = no_pair s.
Proof.
  pose proof mem_close_upper as Hm. unfold toUpperCase in *.
  induction s as [|c r IH]; simpl; [reflexivity|].
  now rewrite is_open_upper, Hm, IH.
Qed.

Lemma is_empty_upper s : is_empty (toUpperCase s) = is_empty s.
Proof. now destruct s. Qed.

Lemma trimStart_upper s : trimStart (toUpperCase s) = toUpperCase (trimStart s).
Proof.
  unfold toUpperCase. induction s as [|c r IH]; simpl; [reflexivity|].
  rewrite is_space_upper.
  destruct (is_space c); [exact IH | reflexivity].
Qed.

Lemma trimEnd_upper s : trimEnd (toUpperCase s) = toUpperCase (trimEnd s).
Proof.
  pose proof is_empty_upper as He. unfold toUpperCase in *.
  induction s as [|c r IH]; simpl; [reflexivity|].
  rewrite is_space_upper, IH, He.
  now destruct (is_space c && is_empty (trimEnd r)).
Qed.

Lemma trim_upper s : trim (toUpperCase s) = toUpperCase (trim s).
Proof. unfold trim. now rewrite trimStart_upper, trimEnd_upper. Qed.

Lemma trimEnd_idem s : trimEnd (trimEnd s) = trimEnd s.
Proof.
  induction s as [|c r IH]; simpl; [reflexivity|].
  destruct (is_space c && is_empty (trimEnd r)) eqn:E; simpl; [reflexivity|].
  now rewrite IH, E.
Qed.

Lemma starts_clean_trimStart s : starts_clean (trimStart s) = true.
Proof.
  induction s as [|c r IH]; simpl; [reflexivity|].
  destruct (is_space c) eqn:E; [exact IH | simpl; now rewrite E].
Qed.

Lemma starts_clean_trimEnd s : starts_clean s = true -> starts_clean (trimEnd s) = true.
Proof.
  destruct s as [|c r]; simpl; [reflexivity|].
  intros H. apply negb_true_iff in H. rewrite H. simpl. now rewrite H.
Qed.

Lemma trimStart_clean s : starts_clean s = true -> trimStart s = s.
Proof.
  destruct s as [|c r]; simpl; [reflexivity|].
  intros H. apply negb_true_iff in H. now rewrite H.
Qed.

Lemma starts_clean_trim s : starts_clean (trim s) = true.
Proof. apply starts_clean_trimEnd, starts_clean_trimStart. Qed.

Lemma trim_idem s : trim (trim s) = trim s.
Proof.
  unfold trim at 1. rewrite (trimStart_clean (trim s)) by apply starts_clean_trim.
  unfold trim. apply trimEnd_idem.
Qed.

Lemma mem_char_trimStart p s : mem_char p (trimStart s) = true -> mem_char p s = true.
Proof.
  induction s as [|c r IH]; simpl; [congruence|].
  destruct (is_space c); simpl; intros H; [rewrite IH by exact H; apply orb_true_r | exact H].
Qed.

Lemma mem_char_trimEnd p s : mem_char p (trimEnd s) = true -> mem_char p s = true.
Proof.
  induction s as [|c r IH]; simpl; [congruence|].
  destruct (is_space c && is_empty (trimEnd r)); simpl; [congruence|].
  intros H. apply orb_true_iff in H as [H|H]; [now rewrite H|].
  rewrite IH by exact H. apply orb_true_r.
Qed.

Lemma mem_char_trim p s : mem_char p (trim s) = true -> mem_char p s = true.
Proof. intros H. now apply mem_char_trimStart, mem_char_trimEnd. Qed.

Lemma mem_char_strip_go p s : forall k,
  mem_char p (strip_go k s) = true -> mem_char p s = true.
Proof.
  induction s as [|c r IH]; intros k; simpl; [congruence|].
  destruct k as [|k].
  - destruct (if is_space c then S <$> match_len r
              else if is_open c then S <$> scan_close r else None) as [[|j]|];
      simpl; intros H.
    + apply orb_true_iff in H as [H|H]; [now rewrite H|].
      rewrite (IH _ H). apply orb_true_r.
    + rewrite (IH _ H). apply orb_true_r.
    + apply orb_true_iff in H as [H|H]; [now rewrite H|].
      rewrite (IH _ H). apply orb_true_r.
  - intros H. rewrite (IH _ H). apply orb_true_r.
Qed.

Lemma not_mem_false p s (f : string -> string) :
  (mem_char p (f s) = true -> mem_char p s = true) ->
  mem_char p s = false -> mem_char p (f s) = false.
Proof. intros H E. destruct (mem_char p (f s)); [now rewrite H in E | reflexivity]. Qed.

Lemma no_pair_trimStart s : no_pair s = true -> no_pair (trimStart s) = true.
Proof.
  induction s as [|c r IH]; simpl; [reflexivity|].
  intros H. apply andb_true_iff in H as [H1 H2].
  destruct (is_space c); simpl; [auto | now rewrite H1, H2].
Qed.

Lemma no_pair_trimEnd s : no_pair s = true -> no_pair (trimEnd s) = true.
Proof.
  induction s as [|c r IH]; simpl; [reflexivity|].
  intros H. apply andb_true_iff in H as [H1 H2].
  destruct (is_space c && is_empty (trimEnd r)); simpl; [reflexivity|].
  rewrite (IH H2), andb_true_r.
  destruct (is_open c); [|reflexivity].
  apply negb_true_iff in H1. apply negb_true_iff.
  now apply (not_mem_false _ _ trimEnd (mem_char_trimEnd _ _)).
Qed.

Lemma no_pair_trim s : no_pair s = true -> no_pair (trim s) = true.
Proof. intros H. now apply no_pair_trimEnd, no_pair_trimStart. Qed.

(** Without a line terminator in the way, the lazy scan fails only when no
    closing bracket is left. *)
Lemma scan_close_none r :
  mem_char is_line_terminator r = false -> scan_close r = None ->
  mem_char is_close r = false.
Proof.
  induction r as [|c r IH]; simpl; [reflexivity|].
  intros Hl. apply orb_false_iff in Hl as [Hc Hr].
  destruct (is_close c); [discriminate|]. rewrite Hc. simpl.
  destruct (scan_close r); [discriminate|]. auto.
Qed.

Lemma scan_close_some r n : scan_close r = Some n -> mem_char is_close r = true.
Proof.
  revert n. induction r as [|c r IH]; simpl; [discriminate|].
  intros n. destruct (is_close c); [reflexivity|].
  destruct (is_line_terminator c); [discriminate|].
  destruct (scan_close r); [|discriminate]. intros _. simpl. eauto.
Qed.

Lemma match_len_some s n : match_len s = Some n -> no_pair s = false.
Proof.
  revert n. induction s as [|c r IH]; simpl; [discriminate|].
  intros n. destruct (is_space c) eqn:Es.
  - destruct (match_len r); [|discriminate]. intros _.
    rewrite (IH _ eq_refl). apply andb_false_r.
  - destruct (is_open c); [|discriminate].
    destruct (scan_close r) eqn:E; [|discriminate]. intros _.
    now rewrite (scan_close_some _ _ E).
Qed.

(** A string without a bracket pair is left alone by the replacement. *)
Lemma strip_brackets_fixed s : no_pair s = true -> strip_brackets s = s.
Proof.
  unfold strip_brackets.
  induction s as [|c r IH]; [reflexivity|].
  intros H. change (strip_go 0 (String c r)) with
    (match match_len (String c r) with
     | Some (S k) => strip_go k r
     | _ => String c (strip_go 0 r)
     end).
  destruct (match_len (String c r)) as [n|] eqn:E.
  - apply match_len_some in E. congruence.
  - simpl in H. apply andb_true_iff in H as [_ H]. now rewrite IH.
Qed.

(** On a single-line string, what the replacement leaves has no bracket
    pair. *)
Lemma strip_go_no_pair s :
  mem_char is_line_terminator s = false -> forall k, no_pair (strip_go k s) = true.
Proof.
  induction s as [|c r IH]; intros Hl k; [reflexivity|].
  simpl in Hl. apply orb_false_iff in Hl as [Hc Hr].
  destruct k as [|k]; [|simpl; auto].
  change (strip_go 0 (String c r)) with
    (match match_len (String c r) with
     | Some (S k) => strip_go k r
     | _ => String c (strip_go 0 r)
     end).
  assert (Hkeep : no_pair (String c (strip_go 0 r)) = true
                  \/ exists j, match_len (String c r) = Some (S j)).
  { simpl. destruct (is_open c) eqn:Eo.
    - rewrite (open_not_space _ Eo).
      destruct (scan_close r) eqn:E; simpl; [right; eauto|left].
      rewrite (IH Hr 0%nat), andb_true_r. apply negb_true_iff.
      apply (not_mem_false _ _ (strip_go 0)); [apply mem_char_strip_go|].
      now apply scan_close_none.
    - destruct (is_space c); [|left; now rewrite (IH Hr 0%nat)].
      destruct (match_len r); simpl; [right; eauto|left; now rewrite (IH Hr 0%nat)]. }
  destruct Hkeep as [Hk|[j Hj]].
  - destruct (match_len (String c r)) as [[|j]|]; auto.
  - rewrite Hj. auto.
Qed.

Lemma append_pipe_inj a a' r r' :
  pipe_free a = true -> pipe_free a' = true ->
  a ++ String "|" r = a' ++ String "|" r' -> a = a' /\ r = r'.
Proof.
  unfold pipe_free. revert a'.
  induction a as [|c a IH]; intros [|c' a'] Ha Ha' E; simpl in *.
  - now inversion E.
  - inversion E; subst. discriminate Ha'.
  - inversion E; subst. discriminate Ha.
  - inversion E; subst.
    apply negb_true_iff, orb_false_iff in Ha as [_ Ha].
    apply negb_true_iff, orb_false_iff in Ha' as [_ Ha'].
    destruct (IH a') as [-> ->]; auto; now apply negb_true_iff.
Qed.

Lemma trimEnd_app_clean a c b :
  is_space c = false -> trimEnd b = b -> trimEnd (a ++ String c b) = a ++ String c b.
Proof.
  intros Hc Hb. induction a as [|x a IH]; simpl.
  - now rewrite Hc, Hb.
  - rewrite IH. destruct a; simpl; now rewrite andb_false_r.
Qed.

Lemma starts_clean_upper s : starts_clean (toUpperCase s) = starts_clean s.
Proof. destruct s as [|c r]; simpl; [reflexivity|]. now rewrite is_space_upper. Qed.

Lemma starts_clean_app a c b :
  starts_clean a = true -> is_space c = false -> starts_clean (a ++ String c b) = true.
Proof. destruct a; simpl; [now intros _ -> | auto]. Qed.

Lemma trim_fixed s : starts_clean s = true -> trimEnd s = s -> trim s = s.
Proof. intros H1 H2. unfold trim. now rewrite trimStart_clean. Qed.

(** *** Case, white space and annotations under the pattern *)

Lemma append_cons c (r x : string) : String c r ++ x = String c (r ++ x).
Proof. reflexivity. Qed.

Lemma is_line_terminator_upper c : is_line_terminator (upper_char c) = is_line_terminator c.
Proof. all_chars c. Qed.

Lemma scan_close_upper r : scan_close (toUpperCase r) = scan_close r.
Proof.
  induction r as [|c r IH]; [reflexivity|].
  change (toUpperCase (String c r)) with (String (upper_char c) (toUpperCase r)).
  cbn [scan_close]. now rewrite is_close_upper, is_line_terminator_upper, IH.
Qed.

Lemma match_len_upper s : match_len (toUpperCase s) = match_len s.
Proof.
  induction s as [|c r IH]; [reflexivity|].
  change (toUpperCase (String c r)) with (String (upper_char c) (toUpperCase r)).
  cbn [match_len]. now rewrite is_space_upper, is_open_upper, scan_close_upper, IH.
Qed.

(** The pattern does not see the case of the letters. *)
Lemma strip_go_upper s : forall k,
  strip_go k (toUpperCase s) = toUpperCase (strip_go k s).
Proof.
  induction s as [|c r IH]; intros k; [reflexivity|].
  destruct k as [|k].
  - change (strip_go 0 (toUpperCase (String c r)))
      with (match match_len (toUpperCase (String c r)) with
            | Some (S k) => strip_go k (toUpperCase r)
            | _ => String (upper_char c) (strip_go 0 (toUpperCase r))
            end).
    rewrite match_len_upper.
    change (strip_go 0 (String c r))
      with (match match_len (String c r) with
            | Some (S k) => strip_go k r
            | _ => String c (strip_go 0 r)
            end).
    destruct (match_len (String c r)) as [[|k]|]; rewrite IH; reflexivity.
  - change (strip_go k (toUpperCase r) = toUpperCase (strip_go k r)). apply IH.
Qed.

Lemma match_len_pos s n : match_len s = Some n -> n <> 0%nat.
Proof.
  destruct s as [|c r]; [discriminate|]. cbn [match_len].
  destruct (is_space c); [|destruct (is_open c); [|discriminate]].
  - destruct (match_len r); [|discriminate]. now intros [= <-].
  - destruct (scan_close r); [|discriminate]. now intros [= <-].
Qed.

Lemma strip_go_head c r :
  strip_go 0 (String c r)
  = match match_len (String c r) with
    | Some (S k) => strip_go k r
    | _ => String c (strip_go 0 r)
    end.
Proof. reflexivity. Qed.

(** A match that starts at the head of [s] is dropped whole. *)
Lemma strip_go_match s n : match_len s = Some n -> strip_go n s = strip_go 0 s.
Proof.
  intros H. pose proof (match_len_pos s n H) as Hn.
  destruct s as [|c r]; [discriminate|].
  rewrite strip_go_head, H. destruct n; [now destruct Hn | reflexivity].
Qed.

Lemma trim_space c s : is_space c = true -> trim (String c s) = trim s.
Proof. intros H. unfold trim. cbn [trimStart]. now rewrite H. Qed.

(** White space in front does not show after the trim. *)
Lemma strip_lead_space c x :
  is_space c = true -> trim (strip_go 0 (String c x)) = trim (strip_go 0 x).
Proof.
  intros Hc. rewrite strip_go_head. cbn [match_len]. rewrite Hc.
  destruct (match_len x) as [n|] eqn:E; cbn [fmap option_fmap option_map].
  - now rewrite (strip_go_match x n E).
  - now apply trim_space.
Qed.

Lemma strip_lead_white w x :
  white w = true -> trim (strip_go 0 (w ++ x)) = trim (strip_go 0 x).
Proof.
  induction w as [|c w IH]; [reflexivity|]. unfold white. cbn [every_char].
  intros [Hc Hw]%andb_true_iff. rewrite append_cons, strip_lead_space by exact Hc.
  now apply IH.
Qed.

Lemma white_not_close c : is_space c = true -> is_close c = false.
Proof. revert c. intros c. destruct c as [[] [] [] [] [] [] [] []]; now intros. Qed.

Lemma scan_close_white w : white w = true -> scan_close w = None.
Proof.
  induction w as [|c w IH]; [reflexivity|]. unfold white. cbn [every_char scan_close].
  intros [Hc Hw]%andb_true_iff. rewrite (white_not_close c Hc).
  destruct (is_line_terminator c); [reflexivity|]. now rewrite (IH Hw).
Qed.

Lemma scan_close_app_white r w : white w = true -> scan_close (r ++ w) = scan_close r.
Proof.
  intros Hw. induction r as [|c r IH]; [now apply scan_close_white|].
  rewrite append_cons. cbn [scan_close]. now rewrite IH.
Qed.

Lemma match_len_white w : white w = true -> match_len w = None.
Proof.
  induction w as [|c w IH]; [reflexivity|]. unfold white. cbn [every_char match_len].
  intros [Hc Hw]%andb_true_iff. now rewrite Hc, (IH Hw).
Qed.

Lemma match_len_app_white s w : white w = true -> match_len (s ++ w) = match_len s.
Proof.
  intros Hw. induction s as [|c r IH]; [now apply match_len_white|].
  rewrite append_cons. cbn [match_len]. now rewrite IH, scan_close_app_white.
Qed.

Lemma trimEnd_cons c x :
  trimEnd (String c x)
  = if is_space c && is_empty (trimEnd x) then EmptyString else String c (trimEnd x).
Proof. reflexivity. Qed.

Lemma strip_go_white w : white w = true -> forall k, trimEnd (strip_go k w) = "".
Proof.
  induction w as [|c w IH]; intros Hw k; [now destruct k|].
  unfold white in Hw. cbn [every_char] in Hw. apply andb_true_iff in Hw as [Hc Hw].
  destruct k as [|k]; [|exact (IH Hw k)].
  rewrite strip_go_head, (match_len_white (String c w)).
  - rewrite trimEnd_cons, Hc, (IH Hw 0%nat). reflexivity.
  - unfold white. cbn [every_char]. now rewrite Hc.
Qed.

(** White space behind does not show after the trim. *)
Lemma strip_trail_white s w :
  white w = true -> forall k, trimEnd (strip_go k (s ++ w)) = trimEnd (strip_go k s).
Proof.
  intros Hw. induction s as [|c r IH]; intros k.
  - change ("" ++ w) with w. rewrite (strip_go_white w Hw). now destruct k.
  - rewrite append_cons. destruct k as [|k]; [|exact (IH k)].
    rewrite !strip_go_head. rewrite <- append_cons, (match_len_app_white _ _ Hw).
    destruct (match_len (String c r)) as [[|k]|]; rewrite ?trimEnd_cons, IH; reflexivity.
Qed.

Lemma trimStart_trimEnd s : trimStart (trimEnd s) = trimEnd (trimStart s).
Proof.
  induction s as [|c r IH]; [reflexivity|].
  rewrite trimEnd_cons. cbn [trimStart].
  destruct (is_space c) eqn:Hc; cbn [andb].
  - destruct (trimEnd r) as [|c' r'] eqn:E; cbn [is_empty].
    + now rewrite <- IH.
    + cbn [trimStart]. rewrite Hc. exact IH.
  - cbn [trimStart]. rewrite Hc. rewrite trimEnd_cons, Hc. reflexivity.
Qed.

Lemma trim_trimEnd s : trim (trimEnd s) = trim s.
Proof. unfold trim. now rewrite trimStart_trimEnd, trimEnd_idem. Qed.

Lemma trim_of_trimEnd x y : trimEnd x = trimEnd y -> trim x = trim y.
Proof. intros H. unfold trim. now rewrite <- !trimStart_trimEnd, H. Qed.

Lemma is_empty_trimEnd r : is_empty (trimEnd r) = white r.
Proof.
  induction r as [|c r IH]; [reflexivity|].
  rewrite trimEnd_cons. unfold white in *. cbn [every_char]. rewrite <- IH.
  now destruct (is_space c), (is_empty (trimEnd r)).
Qed.

Lemma trimEnd_white r : white r = true -> trimEnd r = "".
Proof. rewrite <- is_empty_trimEnd. now destruct (trimEnd r). Qed.

Lemma strip_go_short r : forall k, (String.length r <= k)%nat -> strip_go k r = "".
Proof.
  induction r as [|c r IH]; intros k Hk; [now destruct k|].
  cbn [String.length] in Hk. destruct k as [|k]; [lia|].
  change (strip_go k r = ""). apply IH. lia.
Qed.

(** The lazy [.*?\]] on an annotation that holds neither a closing bracket
    nor a line terminator runs to the bracket that closes it. *)
Lemma scan_close_annotation t :
  mem_char is_close t = false -> single_line t = true ->
  scan_close (t ++ "]") = Some (String.length (t ++ "]")).
Proof.
  unfold single_line. induction t as [|c t IH]; [reflexivity|].
  cbn [mem_char]. intros [Hc Ht]%orb_false_iff [Hl Hs]%negb_true_iff%orb_false_iff.
  rewrite append_cons. cbn [scan_close String.length]. rewrite Hc, Hl, IH; [reflexivity | exact Ht|].
  now apply negb_true_iff.
Qed.

Lemma match_len_annotation w t :
  white w = true -> mem_char is_close t = false -> single_line t = true ->
  match_len (w ++ "[" ++ t ++ "]") = Some (String.length (w ++ "[" ++ t ++ "]")).
Proof.
  intros Hw Hc Hs. induction w as [|c w IH].
  - change ("" ++ "[" ++ t ++ "]") with (String "[" (t ++ "]")).
    cbn [match_len String.length].
    change (is_space "[") with false. change (is_open "[") with true. cbv iota.
    now rewrite scan_close_annotation.
  - unfold white in Hw. cbn [every_char] in Hw. apply andb_true_iff in Hw as [Hc' Hw].
    rewrite append_cons. cbn [match_len String.length]. now rewrite Hc', (IH Hw).
Qed.

Lemma match_len_before r T :
  mem_char is_open r = false -> match_len T = Some (String.length T) ->
  match_len (r ++ T) = if white r then Some (String.length (r ++ T)) else None.
Proof.
  intros Ho HT. induction r as [|c r IH]; [exact HT|].
  cbn [mem_char] in Ho. apply orb_false_iff in Ho as [Hc Hr].
  rewrite append_cons. unfold white in *. cbn [match_len every_char String.length].
  rewrite (IH Hr), Hc.
  destruct (is_space c); cbn [andb]; [|reflexivity].
  now destruct (every_char is_space r).
Qed.

(** Before an annotation that the pattern matches, a string without an
    opening bracket loses the white space at its end, and nothing else. *)
Lemma strip_go_annotation s T :
  mem_char is_open s = false -> match_len T = Some (String.length T) ->
  strip_go 0 (s ++ T) = trimEnd s.
Proof.
  intros Ho HT. induction s as [|c r IH].
  - change ("" ++ T) with T. destruct T as [|c r]; [discriminate|].
    rewrite strip_go_head, HT. cbn [String.length]. now apply strip_go_short.
  - pose proof (match_len_before (String c r) T Ho HT) as Hm.
    cbn [mem_char] in Ho. apply orb_false_iff in Ho as [Hc Hr].
    rewrite append_cons in *. rewrite strip_go_head, Hm.
    destruct (white (String c r)) eqn:Hw.
    + cbn [String.length]. rewrite strip_go_short by lia. symmetry. now apply trimEnd_white.
    + rewrite (IH Hr), trimEnd_cons, is_empty_trimEnd.
      unfold white in Hw. cbn [every_char] in Hw. fold (white r) in Hw. now rewrite Hw.
Qed.

Lemma no_open_no_pair_str s : mem_char is_open s = false -> no_pair s = true.
Proof.
  induction s as [|c r IH]; [reflexivity|]. cbn [mem_char no_pair].
  intros [Hc Hr]%orb_false_iff. now rewrite Hc, (IH Hr).
Qed.

End StrFacts.

(** ** Key normaliser *)

Module KeyFacts.
Import Str StrFacts.

Lemma normalizeFieldForKey_no_pair s :
  single_line s = true -> no_pair (normalizeFieldForKey (Some s)) = true.
Proof.
  intros H. apply negb_true_iff in H.
  unfold normalizeFieldForKey, strip_brackets. simpl.
  rewrite no_pair_upper. apply no_pair_trim. now apply strip_go_no_pair.
Qed.

Lemma normalizeFieldForKey_fixed t :
  no_pair t = true -> trim t = t -> toUpperCase t = t ->
  normalizeFieldForKey (Some t) = t.
Proof.
  intros Hp Ht Hu. unfold normalizeFieldForKey. simpl.
  now rewrite (strip_brackets_fixed _ Hp), Ht, Hu.
Qed.

Lemma normalizeFieldForKey_pipe_free v :
  pipe_free (orEmpty v) = true -> pipe_free (normalizeFieldForKey v) = true.
Proof.
  unfold pipe_free, normalizeFieldForKey. intros H.
  apply negb_true_iff in H. apply negb_true_iff.
  rewrite mem_pipe_upper.
  apply (not_mem_false _ _ trim (mem_char_trim _ _)).
  apply (not_mem_false _ _ strip_brackets); [apply mem_char_strip_go | exact H].
Qed.

Lemma normalizeFieldForKey_clean v :
  starts_clean (normalizeFieldForKey v) = true /\
  trimEnd (normalizeFieldForKey v) = normalizeFieldForKey v.
Proof.
  unfold normalizeFieldForKey. split.
  - rewrite starts_clean_upper. apply starts_clean_trim.
  - rewrite trimEnd_upper. unfold trim. now rewrite trimEnd_idem.
Qed.

(** A composite key is already trimmed. *)
Lemma makeDispatchKey_trimmed so c i col :
  trim (makeDispatchKey so c i col) = makeDispatchKey so c i col.
Proof.
  unfold makeDispatchKey.
  destruct (normalizeFieldForKey_clean so) as [S1 _].
  destruct (normalizeFieldForKey_clean col) as [_ E4].
  apply trim_fixed.
  - now apply starts_clean_app.
  - repeat (apply trimEnd_app_clean; [reflexivity|]). exact E4.
Qed.

(** C8, the claim as stated fails.  On the two-line string made of an
    opening bracket, a line feed and [[x]]], the first pass removes the
    inner annotation together with the line feed and leaves [[]], which a
    second pass removes: the normaliser is not idempotent.  And an
    annotation is not always overlooked: after a name with an opening
    bracket of its own, the pattern takes the name's bracket for the start
    of the annotation. *)
Lemma normalizeFieldForKey_not_idempotent :
  normalizeFieldForKey (Some two_line_sample) = "[]" /\
  normalizeFieldForKey (Some (normalizeFieldForKey (Some two_line_sample))) = "" /\
  normalizeFieldForKey (Some (normalizeFieldForKey (Some two_line_sample)))
    <> normalizeFieldForKey (Some two_line_sample) /\
  normalizeFieldForKey (Some "a[b [Mumbai]") = "A" /\
  normalizeFieldForKey (Some "a[b") = "A[B".
Proof. repeat split; try reflexivity. discriminate. Qed.

(** C8 (amended), for strings of ASCII.  On every string without a line
    feed or a carriage return the normaliser is idempotent.  It does not see
    the case of the letters, nor white space around the string, nor a
    bracketed annotation at the end of a string that has no opening bracket
    of its own, when the annotation holds no closing bracket and no line
    feed or carriage return: it takes ["Acme [Mumbai]"] for ["acme"]. *)
Theorem normalizeFieldForKey_idempotent_single_line :
  (forall s, ascii_only s = true -> single_line s = true ->
     normalizeFieldForKey (Some (normalizeFieldForKey (Some s)))
     = normalizeFieldForKey (Some s)) /\
  (forall a b, ascii_only a = true -> ascii_only b = true ->
     toUpperCase a = toUpperCase b ->
     normalizeFieldForKey (Some a) = normalizeFieldForKey (Some b)) /\
  (forall w1 s w2, ascii_only s = true -> white w1 = true -> white w2 = true ->
     normalizeFieldForKey (Some (w1 ++ s ++ w2)) = normalizeFieldForKey (Some s)) /\
  (forall s w t, ascii_only s = true -> ascii_only t = true ->
     mem_char is_open s = false -> white w = true ->
     mem_char is_close t = false -> single_line t = true ->
     normalizeFieldForKey (Some (s ++ w ++ "[" ++ t ++ "]")) = normalizeFieldForKey (Some s)).
Proof.
  split; [|split; [|split]].
  - intros s _ H. apply normalizeFieldForKey_fixed.
    + now apply normalizeFieldForKey_no_pair.
    + unfold normalizeFieldForKey. now rewrite trim_upper, trim_idem.
    + unfold normalizeFieldForKey. apply toUpperCase_idem.
  - intros a b _ _ H. unfold normalizeFieldForKey, strip_brackets, orEmpty, default, id.
    cbv zeta. now rewrite <- !trim_upper, <- !strip_go_upper, H.
  - intros w1 s w2 _ H1 H2.
    unfold normalizeFieldForKey, strip_brackets, orEmpty, default, id.
    cbv zeta. f_equal.
    rewrite (strip_lead_white w1 _ H1). apply trim_of_trimEnd.
    now apply strip_trail_white.
  - intros s w t _ _ Ho Hw Hc Hs.
    unfold normalizeFieldForKey, strip_brackets, orEmpty, default, id.
    cbv zeta. f_equal.
    rewrite (strip_go_annotation s _ Ho (match_len_annotation w t Hw Hc Hs)).
    rewrite trim_trimEnd. f_equal. symmetry.
    apply (strip_brackets_fixed s). now apply no_open_no_pair_str.
Qed.

Lemma normalizeFieldForKey_idempotent_single_line_witness :
  normalizeFieldForKey (Some (normalizeFieldForKey (Some "Acme [Mumbai] [x")))
  = normalizeFieldForKey (Some "Acme [Mumbai] [x") /\
  normalizeFieldForKey (Some "Acme [Mumbai]") = normalizeFieldForKey (Some "acme") /\
  normalizeFieldForKey (Some "  ACME  ") = normalizeFieldForKey (Some "ACME").
Proof.
  destruct normalizeFieldForKey_idempotent_single_line as (Hidem & Hcase & Hwhite & Hnote).
  split; [|split].
  - apply Hidem; reflexivity.
  - transitivity (normalizeFieldForKey (Some "Acme")).
    + exact (Hnote "Acme" " " "Mumbai" eq_refl eq_refl eq_refl eq_refl eq_refl eq_refl).
    + apply Hcase; reflexivity.
  - exact (Hwhite "  " "ACME" "  " eq_refl eq_refl eq_refl).
Defined.

(** C9, the claim as stated fails: the separator is not escaped, so a field
    that contains it can shift the field boundaries. *)
Lemma makeDispatchKey_not_injective :
  makeDispatchKey (Some "X|Y") (Some "Z") None None
  = makeDispatchKey (Some "X") (Some "Y|Z") None None /\
  normalizeFieldForKey (Some "X|Y") <> normalizeFieldForKey (Some "X").
Proof. split; [reflexivity | discriminate]. Qed.

(** C9 (amended): rows that agree after normalisation have equal keys; and
    when none of the first three normalised fields of either row contains the
    separator, equal keys force the four normalised fields to agree. *)
Theorem makeDispatchKey_injective_without_separator
    (so c i col so' c' i' col' : option string) :
  (normalizeFieldForKey so = normalizeFieldForKey so' ->
   normalizeFieldForKey c = normalizeFieldForKey c' ->
   normalizeFieldForKey i = normalizeFieldForKey i' ->
   normalizeFieldForKey col = normalizeFieldForKey col' ->
   makeDispatchKey so c i col = makeDispatchKey so' c' i' col') /\
  (pipe_free (normalizeFieldForKey so) = true ->
   pipe_free (normalizeFieldForKey c) = true ->
   pipe_free (normalizeFieldForKey i) = true ->
   pipe_free (normalizeFieldForKey so') = true ->
   pipe_free (normalizeFieldForKey c') = true ->
   pipe_free (normalizeFieldForKey i') = true ->
   makeDispatchKey so c i col = makeDispatchKey so' c' i' col' ->
   normalizeFieldForKey so = normalizeFieldForKey so' /\
   normalizeFieldForKey c = normalizeFieldForKey c' /\
   normalizeFieldForKey i = normalizeFieldForKey i' /\
   normalizeFieldForKey col = normalizeFieldForKey col').
Proof.
  unfold makeDispatchKey. split.
  - now intros -> -> -> ->.
  - intros H1 H2 H3 H1' H2' H3' E.
    apply append_pipe_inj in E as [E1 E]; [|assumption..].
    apply append_pipe_inj in E as [E2 E]; [|assumption..].
    apply append_pipe_inj in E as [E3 E]; [|assumption..].
    auto.
Qed.

Lemma makeDispatchKey_injective_without_separator_witness :
  makeDispatchKey (Some "so-1") (Some "Acme [Pune]") (Some "ab12") (Some "Red")
  = makeDispatchKey (Some " SO-1") (Some "acme") (Some "AB12 ") (Some "red") /\
  (normalizeFieldForKey (Some "so-1") = normalizeFieldForKey (Some " SO-1") /\
   normalizeFieldForKey (Some "Acme [Pune]") = normalizeFieldForKey (Some "acme") /\
   normalizeFieldForKey (Some "ab12") = normalizeFieldForKey (Some "AB12 ") /\
   normalizeFieldForKey (Some "Red") = normalizeFieldForKey (Some "red")).
Proof.
  split.
  - apply (proj1 (makeDispatchKey_injective_without_separator
                    (Some "so-1") (Some "Acme [Pune]") (Some "ab12") (Some "Red")
                    (Some " SO-1") (Some "acme") (Some "AB12 ") (Some "red")));
      reflexivity.
  - apply (proj2 (makeDispatchKey_injective_without_separator
                    (Some "so-1") (Some "Acme [Pune]") (Some "ab12") (Some "Red")
                    (Some " SO-1") (Some "acme") (Some "AB12 ") (Some "red")));
      reflexivity.
Defined.

End KeyFacts.

(** ** Verification boundary: the server-side merge *)

Module VerifyFacts.
Import Verify.

Lemma normalizeKeyPart_eq v : normalizeKeyPart v = normalizeFieldForKey v.
Proof. reflexivity. Qed.

Lemma eqb_false_ne (a b : string) : String.eqb a b = false <-> a <> b.
Proof. apply String.eqb_neq. Qed.

Lemma merge_val_absent prop e : merge_val prop e None = e.
Proof. reflexivity. Qed.

Lemma merge_val_none prop e w : merge_val prop e (Some w) = None -> e = None.
Proof.
  unfold merge_val.
  destruct (is_vacant e); [destruct (Js.nullish (Some w))|]; try congruence.
  destruct (String.eqb prop "verified_at"); [|congruence].
  destruct (negb (hasTimestamp e) && hasTimestamp (Some w)); congruence.
Qed.

(** The inner loop acts on each property on its own. *)
Lemma merge_into_lookup (existing r : jsrecord) (prop : string) :
  merge_into existing r !! prop = merge_val prop (existing !! prop) (r !! prop).
Proof.
  unfold merge_into. revert prop.
  apply (map_fold_weak_ind
           (fun acc (m : jsrecord) =>
              forall prop, acc !! prop = merge_val prop (existing !! prop) (m !! prop))).
  - intros prop. now rewrite lookup_empty.
  - intros i x m acc Hi IH prop. unfold merge_prop.
    pose proof (IH i) as IHi. rewrite Hi, merge_val_absent in IHi.
    destruct (decide (prop = i)) as [->|Hne].
    + rewrite lookup_insert_eq, IHi.
      destruct (merge_val i (existing !! i) (Some x)) as [w|] eqn:E.
      * now rewrite lookup_insert_eq.
      * rewrite IHi. now apply merge_val_none in E.
    + rewrite (lookup_insert_ne m i prop) by congruence. rewrite <- IH.
      destruct (merge_val i (acc !! i) (Some x)); [|reflexivity].
      now rewrite lookup_insert_ne by congruence.
Qed.

Lemma fold_merge_into_lookup (g : list jsrecord) (e : jsrecord) prop :
  fold_left merge_into g e !! prop
  = fold_left (merge_val prop) (column prop g) (e !! prop).
Proof.
  revert e. induction g as [|r g IH]; intros e; simpl; [reflexivity|].
  now rewrite IH, merge_into_lookup.
Qed.

Lemma map_get_app {V} k k' (v : V) m :
  map_get k (m ++ [(k', v)])%list
  = match map_get k m with
    | Some x => Some x
    | None => if String.eqb k k' then Some v else None
    end.
Proof.
  induction m as [|[k0 v0] m IH]; simpl; [reflexivity|].
  now destruct (String.eqb k k0).
Qed.

Lemma map_get_replace {V} k k' (v : V) m :
  map_get k (map_replace k' v m)
  = match map_get k m with
    | Some x => if String.eqb k k' then Some v else Some x
    | None => None
    end.
Proof.
  induction m as [|[k0 v0] m IH]; simpl; [reflexivity|].
  destruct (String.eqb k' k0) eqn:E1; simpl.
  - apply String.eqb_eq in E1 as ->.
    destruct (String.eqb k k0); [reflexivity|]. now destruct (map_get k m).
  - destruct (String.eqb k k0) eqn:E2; [|exact IH].
    apply String.eqb_eq in E2 as ->. now rewrite String.eqb_sym, E1.
Qed.

Lemma map_replace_keys {V} k (v : V) m : (map_replace k v m).*1 = m.*1.
Proof.
  induction m as [|[k0 v0] m IH]; [reflexivity|].
  cbn [map_replace]. destruct (String.eqb k k0); rewrite !fmap_cons; cbn [fst];
    [reflexivity | now rewrite IH].
Qed.

Lemma map_get_none {V} k (m : list (string * V)) : map_get k m = None <-> k ∉ m.*1.
Proof.
  induction m as [|[k0 v0] m IH]; simpl.
  - split; [intros _; apply not_elem_of_nil | reflexivity].
  - rewrite not_elem_of_cons. destruct (String.eqb k k0) eqn:E.
    + apply String.eqb_eq in E. split; [discriminate | tauto].
    + apply String.eqb_neq in E. tauto.
Qed.

Lemma map_get_elem {V} k (v : V) m : NoDup m.*1 -> (k, v) ∈ m -> map_get k m = Some v.
Proof.
  induction m as [|[k0 v0] m IH]; simpl; intros Hnd Hin.
  - now apply elem_of_nil in Hin.
  - apply NoDup_cons in Hnd as [Hk0 Hnd].
    apply elem_of_cons in Hin as [E|Hin].
    + inversion E; subst. now rewrite String.eqb_refl.
    + destruct (String.eqb k k0) eqn:E; [|auto].
      apply String.eqb_eq in E as ->. exfalso. apply Hk0.
      change k0 with ((k0, v).1). now apply list_elem_of_fmap_2.
Qed.

Lemma merge_step_keys m r :
  (merge_step m r).*1
  = if decide (rowGroupKey r ∈ m.*1) then m.*1 else (m.*1 ++ [rowGroupKey r])%list.
Proof.
  unfold merge_step. destruct (map_get (rowGroupKey r) m) as [e|] eqn:E.
  - rewrite map_replace_keys. rewrite decide_True; [reflexivity|].
    destruct (decide (rowGroupKey r ∈ m.*1)) as [H|H]; [exact H|].
    apply map_get_none in H. congruence.
  - apply map_get_none in E. rewrite decide_False by exact E.
    now rewrite fmap_app.
Qed.

Lemma merge_fold_keys rows : forall acc,
  NoDup acc.*1 ->
  NoDup (fold_left merge_step rows acc).*1 /\
  (forall k, k ∈ (fold_left merge_step rows acc).*1
             <-> k ∈ acc.*1 \/ exists r, r ∈ rows /\ rowGroupKey r = k).
Proof.
  induction rows as [|r rows IH]; intros acc Hnd; simpl.
  - split; [exact Hnd|]. intros k. split; [auto|].
    intros [H|(r & Hr & _)]; [exact H | now apply elem_of_nil in Hr].
  - assert (Hnd' : NoDup (merge_step acc r).*1).
    { rewrite merge_step_keys. case_decide; [exact Hnd|].
      apply NoDup_app. repeat split; [exact Hnd | | apply NoDup_singleton].
      intros x Hx Hx'. apply list_elem_of_singleton in Hx'. now subst. }
    destruct (IH _ Hnd') as [H1 H2]. split; [exact H1|].
    intros k. rewrite H2, merge_step_keys. split.
    + intros [H|(r' & Hr' & Hk)].
      * case_decide; [now left|].
        apply elem_of_app in H as [H|H]; [now left|].
        apply list_elem_of_singleton in H. right. exists r. split; [left|auto].
      * right. exists r'. split; [now right | exact Hk].
    + intros [H|(r' & Hr' & Hk)].
      * left. case_decide; [exact H | apply elem_of_app; now left].
      * apply elem_of_cons in Hr' as [->|Hr'].
        -- left. subst k. case_decide; [assumption|].
           apply elem_of_app. right. now apply list_elem_of_singleton.
        -- right. eauto.
Qed.

(** What the map holds for a key: the records of its group, folded in input
    order into the first of them. *)
Lemma merge_fold_get k rows : forall acc,
  map_get k (fold_left merge_step rows acc)
  = match map_get k acc, group k rows with
    | Some e, g => Some (fold_left merge_into g e)
    | None, [] => None
    | None, r :: g => Some (fold_left merge_into g r)
    end.
Proof.
  induction rows as [|r rows IH]; intros acc; simpl.
  - now destruct (map_get k acc).
  - rewrite IH. unfold merge_step.
    destruct (String.eqb k (rowGroupKey r)) eqn:E.
    + apply String.eqb_eq in E. subst k.
      destruct (map_get (rowGroupKey r) acc) as [e|] eqn:Ea.
      * now rewrite map_get_replace, Ea, String.eqb_refl.
      * now rewrite map_get_app, Ea, String.eqb_refl.
    + destruct (map_get (rowGroupKey r) acc) as [e|] eqn:Ea.
      * rewrite map_get_replace, E. now destruct (map_get k acc).
      * rewrite map_get_app, E. now destruct (map_get k acc).
Qed.

Lemma first_such_fold good prop :
  good None = false ->
  (forall e v, good e = true -> merge_val prop e v = e) ->
  (forall e v, good e = false ->
     first_such good [merge_val prop e v] = first_such good [v]) ->
  forall vs e x,
    first_such good (e :: vs) = Some x -> fold_left (merge_val prop) vs e = Some x.
Proof.
  intros Hnone Hkeep Htake.
  induction vs as [|v vs IH]; intros e x; simpl.
  - now destruct (good e).
  - destruct (good e) eqn:Ge; intros H.
    + rewrite Hkeep by exact Ge. apply IH. simpl. now rewrite Ge.
    + apply IH. specialize (Htake e v Ge). simpl in *.
      destruct (good (merge_val prop e v)) eqn:Gm, (good v) eqn:Gv; congruence.
Qed.

Lemma has_timestamp_not_vacant e : hasTimestamp e = true -> is_vacant e = false.
Proof.
  destruct e as [[| | |s|]|]; simpl; try congruence.
  now intros ->%negb_true_iff.
Qed.

Lemma first_nonempty_fold prop vs e v :
  prop <> "verified_at" ->
  first_nonempty (e :: vs) = Some v -> fold_left (merge_val prop) vs e = Some v.
Proof.
  intros Hp%String.eqb_neq H. unfold first_nonempty in H.
  revert H. apply first_such_fold; [reflexivity | |].
  - intros e0 [w|] G%negb_true_iff; [|reflexivity].
    unfold merge_val. now rewrite G, Hp.
  - intros e0 [w|] G%negb_false_iff; [|cbn [merge_val first_such]; now rewrite G].
    unfold merge_val. rewrite G.
    destruct w; cbn [Js.nullish first_such]; rewrite ?G; reflexivity.
Qed.

Lemma first_timestamp_fold vs e v :
  first_timestamp (e :: vs) = Some v ->
  fold_left (merge_val "verified_at") vs e = Some v.
Proof.
  intros H. unfold first_timestamp in H.
  revert H. apply first_such_fold; [reflexivity | |].
  - intros e0 [w|] G; [|reflexivity].
    unfold merge_val. rewrite (has_timestamp_not_vacant _ G), G. reflexivity.
  - intros e0 [w|] G; [|cbn [merge_val first_such]; now rewrite G].
    unfold merge_val. rewrite String.eqb_refl, G.
    destruct (is_vacant e0) eqn:V.
    + destruct w; cbn [Js.nullish first_such]; rewrite ?G; reflexivity.
    + cbn [negb andb first_such].
      destruct (hasTimestamp (Some w)) eqn:W; cbn [first_such]; rewrite ?G, ?W; reflexivity.
Qed.

End VerifyFacts.

(** ** Stable sorting by a comparator *)

Module SortingFacts.
Import Sorting.

Section sort_by.
Context {A : Type} (after : A -> A -> bool).
(** [R] is the order the result is to follow, [ok] the elements the
    comparator behaves on. *)
Context (R : relation A) (ok : A -> Prop).
Hypothesis before_R : forall a b, ok a -> ok b -> after a b = false -> R a b.
Hypothesis after_R : forall a b, ok a -> ok b -> after a b = true -> R b a.
Hypothesis R_trans : forall a b c, ok a -> ok b -> ok c -> R a b -> R b c -> R a c.

Lemma insert_by_perm x l : insert_by after x l ≡ₚ x :: l.
Proof.
  induction l as [|y l IH]; simpl; [reflexivity|].
  destruct (after x y); [|reflexivity].
  rewrite IH. apply Permutation_swap.
Qed.

Lemma sort_by_perm l : sort_by after l ≡ₚ l.
Proof.
  induction l as [|x l IH]; simpl; [reflexivity|].
  now rewrite insert_by_perm, IH.
Qed.

Lemma elem_of_sort_by x l : x ∈ sort_by after l <-> x ∈ l.
Proof. now rewrite sort_by_perm. Qed.

Lemma insert_by_sorted x l :
  ok x -> Forall ok l -> StronglySorted R l -> StronglySorted R (insert_by after x l).
Proof.
  intros Hx Hl Hs.
  induction l as [|y l IH]; simpl; [repeat constructor|].
  apply Forall_cons in Hl as [Hy Hl].
  apply StronglySorted_inv in Hs as [Hs Hyl].
  destruct (after x y) eqn:E.
  - constructor; [now apply IH|].
    rewrite insert_by_perm. constructor; [now apply after_R | exact Hyl].
  - constructor; [now constructor|].
    assert (Rxy : R x y) by now apply before_R.
    constructor; [exact Rxy|].
    rewrite Forall_forall in Hyl, Hl |- *. intros z Hz.
    apply (R_trans x y z); auto.
Qed.

Lemma sort_by_sorted l : Forall ok l -> StronglySorted R (sort_by after l).
Proof.
  induction l as [|x l IH]; simpl; intros Hl; [constructor|].
  apply Forall_cons in Hl as [Hx Hl].
  apply insert_by_sorted; [exact Hx | now rewrite sort_by_perm | now apply IH].
Qed.
End sort_by.

Lemma StronglySorted_filter {A} (R : relation A) (p : A -> bool) l :
  StronglySorted R l -> StronglySorted R (List.filter p l).
Proof.
  induction 1 as [|x l Hs IH Hx]; simpl; [constructor|].
  destruct (p x); [|exact IH].
  constructor; [exact IH|].
  rewrite Forall_forall in Hx |- *. intros y Hy.
  apply Hx. apply list_elem_of_In in Hy. apply list_elem_of_In.
  now apply List.filter_In in Hy.
Qed.

Lemma StronglySorted_drop {A} (R : relation A) n l :
  StronglySorted R l -> StronglySorted R (drop n l).
Proof.
  revert l. induction n as [|n IH]; intros l Hs; [exact Hs|].
  destruct l as [|x l]; [constructor|]. simpl.
  apply IH. now apply StronglySorted_inv in Hs.
Qed.

Lemma StronglySorted_take {A} (R : relation A) n l :
  StronglySorted R l -> StronglySorted R (take n l).
Proof.
  revert l. induction n as [|n IH]; intros l Hs; [constructor|].
  destruct l as [|x l]; [constructor|]. simpl.
  apply StronglySorted_inv in Hs as [Hs Hx].
  constructor; [now apply IH|].
  rewrite Forall_forall in Hx |- *. intros y Hy. apply Hx.
  eapply subseteq_take, Hy.
Qed.

End SortingFacts.

(** ** Query builder: deduplication and ranking *)

Module QueryFacts.
Import Query.

Lemma ascii_compare_lt_trans a b c :
  Ascii.compare a b = Lt -> Ascii.compare b c = Lt -> Ascii.compare a c = Lt.
Proof.
  unfold Ascii.compare. rewrite !N.compare_lt_iff. apply N.lt_trans.
Qed.

Lemma string_compare_refl s : String.compare s s = Eq.
Proof.
  pose proof (String.compare_antisym s s) as H.
  destruct (String.compare s s); simpl in H; congruence.
Qed.

Lemma string_compare_lt_trans s1 : forall s2 s3,
  String.compare s1 s2 = Lt -> String.compare s2 s3 = Lt -> String.compare s1 s3 = Lt.
Proof.
  induction s1 as [|a s1 IH]; intros [|b s2] [|c s3]; simpl; try congruence.
  destruct (Ascii.compare a b) eqn:E1; try discriminate.
  - apply Ascii.compare_eq_iff in E1. subst b.
    destruct (Ascii.compare a c); try congruence. apply IH.
  - destruct (Ascii.compare b c) eqn:E2; try discriminate.
    + apply Ascii.compare_eq_iff in E2. subst c. now rewrite E1.
    + now rewrite (ascii_compare_lt_trans _ _ _ E1 E2).
Qed.

Lemma string_leb_trans s1 s2 s3 :
  String.leb s1 s2 = true -> String.leb s2 s3 = true -> String.leb s1 s3 = true.
Proof.
  unfold String.leb.
  destruct (String.compare s1 s2) eqn:E1; try discriminate; intros _;
    destruct (String.compare s2 s3) eqn:E2; try discriminate; intros _.
  - apply String.compare_eq_iff in E1, E2. subst. now rewrite string_compare_refl.
  - apply String.compare_eq_iff in E1. subst. now rewrite E2.
  - apply String.compare_eq_iff in E2. subst. now rewrite E1.
  - now rewrite (string_compare_lt_trans _ _ _ E1 E2).
Qed.

Lemma compare_nulls_last_antisym d1 d2 :
  compare_nulls_last d2 d1 = CompOpp (compare_nulls_last d1 d2).
Proof. destruct d1, d2; simpl; auto using Z.compare_antisym. Qed.

Lemma rank_compare_antisym a b : rank_compare b a = CompOpp (rank_compare a b).
Proof.
  unfold rank_compare.
  rewrite (Z.compare_antisym (ratingPriority a) (ratingPriority b)).
  rewrite (compare_nulls_last_antisym (so_date_parsed a) (so_date_parsed b)).
  rewrite (String.compare_antisym (coalesce (SO_No a)) (coalesce (SO_No b))).
  destruct (ratingPriority a ?= ratingPriority b); simpl; try reflexivity.
  destruct (compare_nulls_last (so_date_parsed a) (so_date_parsed b)); simpl;
    try reflexivity.
  now rewrite CompOpp_involutive.
Qed.

Lemma compare_nulls_last_eq d1 d2 : compare_nulls_last d1 d2 = Eq <-> d1 = d2.
Proof.
  destruct d1, d2; simpl; try (split; congruence).
  rewrite Z.compare_eq_iff. split; congruence.
Qed.

Lemma compare_nulls_last_lt d1 d2 : compare_nulls_last d1 d2 = Lt <-> date_before d1 d2.
Proof.
  destruct d1, d2; simpl; split; (congruence || tauto).
Qed.

(** The comparison of the query is the ranking in words. *)
Lemma rank_leb_iff a b : rank_leb a b = true <-> ranks_before_or_ties a b.
Proof.
  unfold rank_leb, rank_compare, ranks_before_or_ties, String.leb.
  pose proof (compare_nulls_last_eq (so_date_parsed a) (so_date_parsed b)) as He.
  pose proof (compare_nulls_last_lt (so_date_parsed a) (so_date_parsed b)) as Hl.
  destruct (Z.compare_spec (ratingPriority a) (ratingPriority b)) as [E|L|G].
  - destruct (compare_nulls_last (so_date_parsed a) (so_date_parsed b)).
    + destruct (String.compare (coalesce (SO_No a)) (coalesce (SO_No b)));
        intuition (congruence || lia).
    + intuition (congruence || lia).
    + split; [discriminate|]. intros [?|[_ [?|[? _]]]]; [lia| |];
        intuition congruence.
  - intuition lia.
  - split; [discriminate|]. intuition lia.
Qed.

Lemma rank_ltb_iff a b : rank_ltb a b = true <-> ranks_strictly_before a b.
Proof.
  unfold rank_ltb, rank_compare, ranks_strictly_before, String.ltb.
  pose proof (compare_nulls_last_eq (so_date_parsed a) (so_date_parsed b)) as He.
  pose proof (compare_nulls_last_lt (so_date_parsed a) (so_date_parsed b)) as Hl.
  destruct (Z.compare_spec (ratingPriority a) (ratingPriority b)) as [E|L|G].
  - destruct (compare_nulls_last (so_date_parsed a) (so_date_parsed b)).
    + destruct (String.compare (coalesce (SO_No a)) (coalesce (SO_No b)));
        intuition (congruence || lia).
    + intuition (congruence || lia).
    + split; [discriminate|]. intros [?|[_ [?|[? _]]]]; [lia| |];
        intuition congruence.
  - intuition lia.
  - split; [discriminate|]. intuition lia.
Qed.

Lemma date_before_trans d1 d2 d3 : date_before d1 d2 -> date_before d2 d3 -> date_before d1 d3.
Proof. destruct d1, d2, d3; simpl; intros; try tauto; lia. Qed.

Lemma ranks_trans a b c :
  ranks_before_or_ties a b -> ranks_before_or_ties b c -> ranks_before_or_ties a c.
Proof.
  unfold ranks_before_or_ties.
  intros [H1|[E1 [D1|[F1 S1]]]] [H2|[E2 [D2|[F2 S2]]]]; try (left; lia).
  - right. split; [lia|]. left. eapply date_before_trans; eauto.
  - right. split; [lia|]. left. now rewrite <- F2.
  - right. split; [lia|]. left. now rewrite F1.
  - right. split; [lia|]. right. split; [congruence|].
    eapply string_leb_trans; eauto.
Qed.

Lemma rank_leb_total a b : rank_leb a b = false -> rank_ltb b a = true.
Proof.
  unfold rank_leb, rank_ltb. rewrite (rank_compare_antisym a b).
  now destruct (rank_compare a b).
Qed.

Lemma rank_ltb_total a b : rank_ltb a b = false -> rank_leb b a = true.
Proof.
  unfold rank_leb, rank_ltb. rewrite (rank_compare_antisym a b).
  now destruct (rank_compare a b).
Qed.

Lemma rank_ltb_leb a b : rank_ltb a b = true -> rank_leb a b = true.
Proof. unfold rank_leb, rank_ltb. now destruct (rank_compare a b). Qed.

Lemma rank_ltb_not_leb a b : rank_ltb a b = true -> rank_leb b a = false.
Proof.
  unfold rank_leb, rank_ltb. rewrite (rank_compare_antisym a b).
  now destruct (rank_compare a b).
Qed.

Lemma rank_leb_refl a : rank_leb a a = true.
Proof.
  unfold rank_leb. pose proof (rank_compare_antisym a a) as H.
  destruct (rank_compare a a); simpl in H; congruence.
Qed.

Lemma rank_ltb_irrefl a : rank_ltb a a = false.
Proof.
  unfold rank_ltb. pose proof (rank_compare_antisym a a) as H.
  destruct (rank_compare a a); simpl in H; congruence.
Qed.

Lemma rank_leb_trans a b c : rank_leb a b = true -> rank_leb b c = true -> rank_leb a c = true.
Proof. rewrite !rank_leb_iff. apply ranks_trans. Qed.

Lemma rank_gtb_leb a b : rank_gtb a b = negb (rank_leb a b).
Proof. unfold rank_gtb, rank_leb. now destruct (rank_compare a b). Qed.

Lemma same_partition_iff a b :
  same_partition a b = true <-> partition_key a = partition_key b.
Proof. unfold same_partition. apply bool_decide_eq_true. Qed.

Lemma count_rows_zero p l : count_rows p l = 0%nat <-> forall x, x ∈ l -> p x = false.
Proof.
  unfold count_rows. induction l as [|y l IH]; simpl.
  - split; [intros _ x Hx; now apply elem_of_nil in Hx | reflexivity].
  - destruct (p y) eqn:E; simpl.
    + split; [discriminate|]. intros H. specialize (H y (list_elem_of_here _ _)). congruence.
    + rewrite IH. split.
      * intros H x Hx. apply elem_of_cons in Hx as [->|Hx]; auto.
      * intros H x Hx. apply H. now right.
Qed.

(** A row is numbered 1 when it ranks strictly before every earlier row of
    its partition and before or level with every later one. *)
Lemma row_number_one before r after :
  (row_number before r after =? 1)%nat = true <->
  (forall x, x ∈ before -> partition_key x = partition_key r -> rank_leb x r = false) /\
  (forall x, x ∈ after -> partition_key x = partition_key r -> rank_ltb x r = false).
Proof.
  unfold row_number. rewrite Nat.eqb_eq.
  pose proof (count_rows_zero (fun x => same_partition x r && rank_leb x r) before) as H1.
  pose proof (count_rows_zero (fun x => same_partition x r && rank_ltb x r) after) as H2.
  split.
  - intros H. split; intros x Hx Hk.
    + assert (E : count_rows (fun x => same_partition x r && rank_leb x r) before = 0%nat) by lia.
      pose proof (proj1 H1 E x Hx) as Hp. apply same_partition_iff in Hk.
      simpl in Hp. now rewrite Hk in Hp.
    + assert (E : count_rows (fun x => same_partition x r && rank_ltb x r) after = 0%nat) by lia.
      pose proof (proj1 H2 E x Hx) as Hp. apply same_partition_iff in Hk.
      simpl in Hp. now rewrite Hk in Hp.
  - intros [Hb Ha].
    rewrite (proj2 H1), (proj2 H2); [reflexivity | |].
    + intros x Hx. destruct (same_partition x r) eqn:E; [|reflexivity].
      apply same_partition_iff in E. simpl. auto.
    + intros x Hx. destruct (same_partition x r) eqn:E; [|reflexivity].
      apply same_partition_iff in E. simpl. auto.
Qed.

#[local] Opaque row_number.

Lemma deduped_go_elem r rest : forall before,
  r ∈ deduped_go before rest ->
  exists l1 l2, rest = (l1 ++ r :: l2)%list /\
                (row_number (before ++ l1) r l2 =? 1)%nat = true.
Proof.
  induction rest as [|y rest IH]; intros before; simpl.
  - intros H. now apply elem_of_nil in H.
  - intros H. apply elem_of_app in H as [H|H].
    + destruct (row_number before y rest =? 1)%nat eqn:E.
      * apply list_elem_of_singleton in H. subst y.
        exists [], rest. now rewrite app_nil_r.
      * now apply elem_of_nil in H.
    + destruct (IH _ H) as (l1 & l2 & -> & Hn).
      exists (y :: l1), l2. split; [reflexivity|].
      now rewrite <- app_assoc in Hn.
Qed.

Lemma deduped_go_sub r before rest : r ∈ deduped_go before rest -> r ∈ rest.
Proof.
  intros H. apply deduped_go_elem in H as (l1 & l2 & -> & _).
  apply elem_of_app. right. left.
Qed.

(** The kept row ranks before or level with every row of its partition. *)
Lemma deduped_minimal joined r x :
  r ∈ deduped joined -> x ∈ joined -> partition_key x = partition_key r ->
  rank_leb r x = true.
Proof.
  intros Hr Hx Hk. apply deduped_go_elem in Hr as (l1 & l2 & -> & Hn).
  apply row_number_one in Hn as [Hb Ha]. simpl in Hb.
  apply elem_of_app in Hx as [Hx|Hx].
  - apply rank_ltb_leb, rank_leb_total. auto.
  - apply elem_of_cons in Hx as [->|Hx]; [apply rank_leb_refl|].
    apply rank_ltb_total. auto.
Qed.

Section one_per_partition.
Context (k : string * option string * string).
#[local] Abbreviation in_k := (in_partition k).

Lemma not_kept_others before rest :
  (exists b, b ∈ before /\ partition_key b = k /\
             forall x, x ∈ rest -> partition_key x = k -> rank_leb b x = true) ->
  List.filter in_k (deduped_go before rest) = [].
Proof.
  revert before. induction rest as [|r rest IH]; intros before (b & Hb & Hk & Hmin);
    simpl; [reflexivity|].
  rewrite List.filter_app, IH.
  - rewrite app_nil_r.
    destruct (row_number before r rest =? 1)%nat eqn:E; [|reflexivity].
    simpl. unfold in_partition. case_bool_decide as Hr; [|reflexivity].
    apply row_number_one in E as [E _].
    pose proof (Hmin r (list_elem_of_here _ _) Hr) as H1.
    rewrite (E b Hb) in H1; [discriminate | congruence].
  - exists b. split; [apply elem_of_app; now left|]. split; [exact Hk|].
    intros x Hx. apply Hmin. now right.
Qed.

Lemma exactly_one_kept rest : forall before y,
  y ∈ rest -> partition_key y = k ->
  (forall x, x ∈ before -> partition_key x = k -> rank_ltb y x = true) ->
  (forall x, x ∈ rest -> partition_key x = k -> rank_leb y x = true) ->
  length (List.filter in_k (deduped_go before rest)) = 1%nat.
Proof.
  induction rest as [|r rest IH]; intros before y Hy Hk Hb Hr; simpl.
  - now apply elem_of_nil in Hy.
  - rewrite List.filter_app, length_app.
    destruct (decide (partition_key r = k)) as [Hrk|Hrk].
    + destruct (rank_leb r y) eqn:Ery.
      * (* [r] is numbered 1 and nothing after it is kept *)
        assert (Hone : (row_number before r rest =? 1)%nat = true).
        { apply row_number_one. split; intros x Hx Hxk.
          - destruct (rank_leb x r) eqn:E; [|reflexivity].
            pose proof (rank_leb_trans x r y E Ery) as H1.
            rewrite (rank_ltb_not_leb y x) in H1; [discriminate|].
            apply Hb; [exact Hx | congruence].
          - destruct (rank_ltb x r) eqn:E; [|reflexivity].
            apply rank_ltb_not_leb in E.
            rewrite (rank_leb_trans r y x) in E; [discriminate | exact Ery |].
            apply Hr; [now right | congruence]. }
        rewrite Hone. simpl. unfold in_partition at 1. rewrite bool_decide_eq_true_2 by exact Hrk.
        simpl. rewrite not_kept_others; [reflexivity|].
        exists r. split; [apply elem_of_app; right; left|]. split; [exact Hrk|].
        intros x Hx Hxk. apply (rank_leb_trans r y x); [exact Ery|].
        apply Hr; [now right | exact Hxk].
      * (* [y] comes later and ranks strictly before [r] *)
        apply rank_leb_total in Ery.
        assert (Hy' : y ∈ rest).
        { apply elem_of_cons in Hy as [Hy|Hy]; [|exact Hy].
          subst y. rewrite rank_ltb_irrefl in Ery. discriminate. }
        assert (Hnot : (row_number before r rest =? 1)%nat = false).
        { destruct (row_number before r rest =? 1)%nat eqn:E; [|reflexivity].
          apply row_number_one in E as [_ E].
          rewrite (E y Hy') in Ery; [discriminate | congruence]. }
        rewrite Hnot. simpl. apply (IH _ y); auto.
        -- intros x Hx Hxk. apply elem_of_app in Hx as [Hx|Hx]; [auto|].
           apply list_elem_of_singleton in Hx. now subst x.
        -- intros x Hx. apply Hr. now right.
    + assert (Hy' : y ∈ rest).
      { apply elem_of_cons in Hy as [->|Hy]; [contradiction | exact Hy]. }
      replace (length (List.filter in_k
                 (if (row_number before r rest =? 1)%nat then [r] else [])))
        with 0%nat.
      * simpl. apply (IH _ y); auto.
        -- intros x Hx Hxk. apply elem_of_app in Hx as [Hx|Hx]; [auto|].
           apply list_elem_of_singleton in Hx. now subst x.
        -- intros x Hx. apply Hr. now right.
      * destruct (row_number before r rest =? 1)%nat; [|reflexivity].
        simpl. unfold in_partition. now rewrite bool_decide_eq_false_2 by exact Hrk.
Qed.

Lemma minimum_exists (l : list JoinedRow) x :
  x ∈ l -> partition_key x = k ->
  exists y, y ∈ l /\ partition_key y = k /\
            forall z, z ∈ l -> partition_key z = k -> rank_leb y z = true.
Proof.
  revert x. induction l as [|a l IH]; intros x Hx Hk; [now apply elem_of_nil in Hx|].
  destruct (decide (Exists (fun z => partition_key z = k) l)) as [Hex|Hnone];
    rewrite Exists_exists in *; [destruct Hex as (z & Hz & Hzk)|].
  - destruct (IH z Hz Hzk) as (y & Hy & Hyk & Hmin).
    destruct (decide (partition_key a = k)) as [Hak|Hak].
    + destruct (rank_leb y a) eqn:E.
      * exists y. split; [now right|]. split; [exact Hyk|].
        intros w Hw Hwk. apply elem_of_cons in Hw as [->|Hw]; auto.
      * exists a. split; [left|]. split; [exact Hak|].
        intros w Hw Hwk. apply elem_of_cons in Hw as [->|Hw]; [apply rank_leb_refl|].
        apply (rank_leb_trans a y w); [|auto].
        now apply rank_ltb_leb, rank_leb_total.
    + exists y. split; [now right|]. split; [exact Hyk|].
      intros w Hw Hwk. apply elem_of_cons in Hw as [->|Hw]; [contradiction | auto].
  - exists x. split; [exact Hx|]. split; [exact Hk|].
    intros w Hw Hwk.
    assert (Hxa : x = a).
    { apply elem_of_cons in Hx as [->|Hx]; [reflexivity|]. exfalso. eauto. }
    apply elem_of_cons in Hw as [->|Hw]; [subst; apply rank_leb_refl|].
    exfalso. eauto.
Qed.
End one_per_partition.

Lemma ratingPriority_range r : 1 <= ratingPriority r <= 5.
Proof.
  unfold ratingPriority.
  repeat match goal with |- context [if ?c then _ else _] => destruct c end; lia.
Qed.

(** C2: the five rating tiers, read off the trimmed, upper-cased rating:
    [HIGH] is 1, [HIGH - CASH] 2, [CASH] 3, [CASH - NEW CLIENT] 4 and
    everything else 5.  Of the rows of one deduplication group the query
    keeps exactly one, and it ranks before or level with every row of the
    group in the order (rating priority, parsed date with nulls last, order
    number), so a row that ranks strictly after another of its group is not
    kept.  The result set is the kept rows, all of them and each once, in
    the same order; a page is a stretch of it. *)
Theorem deduped_keeps_best_ranked (joined : list JoinedRow) :
  (forall r,
     (rating_label r = "HIGH" -> ratingPriority r = 1) /\
     (rating_label r = "HIGH - CASH" -> ratingPriority r = 2) /\
     (rating_label r = "CASH" -> ratingPriority r = 3) /\
     (rating_label r = "CASH - NEW CLIENT" -> ratingPriority r = 4) /\
     (rating_label r ∉ ["HIGH"; "HIGH - CASH"; "CASH"; "CASH - NEW CLIENT"] ->
      ratingPriority r = 5)) /\
  (forall x, x ∈ joined ->
     length (List.filter (fun r => same_partition r x) (deduped joined)) = 1%nat) /\
  (forall r x, r ∈ deduped joined -> x ∈ joined ->
     partition_key x = partition_key r -> ranks_before_or_ties r x) /\
  (forall a b, a ∈ joined -> b ∈ joined -> partition_key a = partition_key b ->
     ranks_strictly_before a b -> b ∉ deduped joined) /\
  (exists ranked,
     ranked ≡ₚ deduped joined /\
     StronglySorted ranks_before_or_ties ranked /\
     forall limit offset,
       select_page joined limit offset = take limit (drop offset ranked)).
Proof.
  split; [|split; [|split; [|split]]].
  - intros r. unfold ratingPriority. fold (rating_label r).
    repeat split; try (intros ->; reflexivity).
    intros H. rewrite !not_elem_of_cons in H. destruct H as (H1 & H2 & H3 & H4 & _).
    apply String.eqb_neq in H1, H2, H3, H4. now rewrite H1, H2, H3, H4.
  - intros x Hx.
    destruct (minimum_exists (partition_key x) joined x Hx eq_refl) as (y & Hy & Hyk & Hmin).
    apply (exactly_one_kept (partition_key x) joined [] y); auto.
    intros z Hz. now apply elem_of_nil in Hz.
  - intros r x Hr Hx Hk. apply rank_leb_iff.
    exact (deduped_minimal joined r x Hr Hx Hk).
  - intros a b Ha Hb Hk Hlt Hin. apply rank_ltb_iff in Hlt.
    pose proof (deduped_minimal joined b a Hin Ha Hk) as Hle.
    rewrite (rank_ltb_not_leb a b Hlt) in Hle. discriminate.
  - exists (Sorting.sort_by rank_gtb (deduped joined)). split; [|split].
    + apply SortingFacts.sort_by_perm.
    + apply (SortingFacts.sort_by_sorted rank_gtb ranks_before_or_ties (fun _ => True)).
      * intros a b _ _ H. rewrite rank_gtb_leb in H. apply negb_false_iff in H.
        now apply rank_leb_iff.
      * intros a b _ _ H. rewrite rank_gtb_leb in H. apply negb_true_iff in H.
        apply rank_leb_iff. now apply rank_ltb_leb, rank_leb_total.
      * intros a b c _ _ _. apply ranks_trans.
      * now apply Forall_forall.
    + reflexivity.
Qed.

(** Four rows, three of them for one order line: the line keeps its [HIGH]
    row with a date, the [CASH] row is dropped, a rating the ranking does
    not know is of the fifth tier, and the result lists the two kept rows,
    the [HIGH] one first. *)
Lemma deduped_keeps_best_ranked_witness :
  (QuerySample.cash_row ∉ deduped QuerySample.joined) /\
  ranks_before_or_ties QuerySample.high_row QuerySample.high_late /\
  length (List.filter (fun r => same_partition r QuerySample.cash_row)
            (deduped QuerySample.joined)) = 1%nat /\
  ratingPriority QuerySample.other_row = 5 /\
  select_page QuerySample.joined 25 0 = [QuerySample.high_row; QuerySample.other_row].
Proof.
  destruct (deduped_keeps_best_ranked QuerySample.joined)
    as (Htier & Hone & Hmin & Hpair & _).
  split; [|split; [|split; [|split]]].
  - apply (Hpair QuerySample.high_row QuerySample.cash_row).
    + apply list_elem_of_In. simpl. tauto.
    + apply list_elem_of_In. simpl. tauto.
    + reflexivity.
    + left. reflexivity.
  - apply Hmin.
    + apply list_elem_of_In. vm_compute. tauto.
    + apply list_elem_of_In. simpl. tauto.
    + reflexivity.
  - apply Hone. apply list_elem_of_In. simpl. tauto.
  - apply (Htier QuerySample.other_row).
    rewrite !not_elem_of_cons.
    repeat split; try (vm_compute; discriminate). apply not_elem_of_nil.
  - vm_compute. reflexivity.
Defined.

End QueryFacts.

(** ** The orders table *)

Module TableFacts.
Import Table Effects Cycle Pipeline Reconciler Claims.

Lemma elem_of_lfilter {A} (p : A -> bool) l x :
  x ∈ List.filter p l <-> x ∈ l /\ p x = true.
Proof. rewrite !list_elem_of_In. apply List.filter_In. Qed.

Lemma run_app tr1 tr2 st : run (tr1 ++ tr2) st = run tr2 (run tr1 st).
Proof. apply fold_left_app. Qed.

Lemma same_order_refl r : same_order r r.
Proof. repeat split. Qed.

Lemma same_order_trans r1 r2 r3 : same_order r1 r2 -> same_order r2 r3 -> same_order r1 r3.
Proof. unfold same_order. intuition congruence. Qed.

Lemma rowKey_same_order r r0 : same_order r r0 -> rowKey r = rowKey r0.
Proof. unfold same_order, rowKey. intros (-> & -> & -> & _ & -> & _). reflexivity. Qed.

Lemma rows_with_uid_elem env vi l : forall i r,
  r ∈ (rows_with_uid env vi i l).1 -> exists r0, r0 ∈ l /\ same_order r r0.
Proof.
  induction l as [|r0 l IH]; intros i r; simpl.
  - intros H. now apply elem_of_nil in H.
  - destruct (rows_with_uid env vi (S i) l) as [rs evs] eqn:E. simpl.
    intros H. apply elem_of_cons in H as [->|H].
    + exists r0. split; [left | repeat split].
    + specialize (IH (S i) r). rewrite E in IH. destruct (IH H) as (r1 & H1 & H2).
      exists r1. split; [now right | exact H2].
Qed.

Lemma rows_with_uid_events env vi l : forall i,
  Forall (fun e => exists f, e = Call (setSelectedColors f)) (rows_with_uid env vi i l).2.
Proof.
  induction l as [|r0 l IH]; intros i; simpl; [constructor|].
  specialize (IH (S i)).
  destruct (rows_with_uid env vi (S i) l) as [rs evs]. simpl in *.
  apply Forall_app. split; [|exact IH].
  destruct (newColorFromServer vi (rowKey r0)); repeat constructor. eauto.
Qed.

Lemma exclude_keys_elem s l r : r ∈ exclude_keys s l -> r ∈ l /\ rowKey r ∉ s.
Proof.
  unfold exclude_keys. case_bool_decide as Hs.
  - subst s. intros H. split; [exact H | apply not_elem_of_empty].
  - rewrite elem_of_lfilter. intros [H1 H2]. split; [exact H1|].
    apply negb_true_iff in H2. now apply bool_decide_eq_false in H2.
Qed.

Lemma surviving_rows_elem js env pm body r :
  r ∈ surviving_rows js env pm body ->
  (rowKey r ∉ fetched_dispatched env) /\
  (rowKey r ∉ localPendingSet (fetched_verifications env)) /\
  exists r0, r0 ∈ body_rows body /\ same_order r r0.
Proof.
  unfold surviving_rows, exclusions. rewrite elem_of_lfilter. intros [H _].
  apply exclude_keys_elem in H as [H _].
  apply exclude_keys_elem in H as [H Hp].
  apply exclude_keys_elem in H as [H Hd].
  split; [exact Hd|]. split; [exact Hp|]. now apply rows_with_uid_elem in H.
Qed.

Lemma same_order_annotate m r : same_order (annotate_stock m r) r.
Proof. unfold annotate_stock. destruct (Str.is_empty (stock_item_key r)); repeat split. Qed.

Lemma stock_stage_elem js env l r :
  r ∈ (stock_stage js env l).1 -> exists r1, r1 ∈ l /\ same_order r r1.
Proof.
  unfold stock_stage. destruct (stock_keys l); simpl.
  - intros H. exists r. split; [exact H | apply same_order_refl].
  - destruct (stock env); simpl; intros H;
      try (exists r; split; [exact H | apply same_order_refl]).
    apply list_elem_of_fmap_1 in H as (r1 & -> & H1).
    exists r1. split; [exact H1 | apply same_order_annotate].
Qed.

Lemma final_rows_elem js filters stocked r :
  r ∈ final_rows js filters stocked <->
  r ∈ stocked /\ stock_keep r = true /\ selection_keep filters r = true.
Proof.
  unfold final_rows, sort_rows. rewrite !elem_of_lfilter.
  rewrite SortingFacts.elem_of_sort_by. tauto.
Qed.

(** Where a visible row comes from. *)
Lemma visible_rows_elem js env filters pm body r :
  r ∈ visible_rows js env filters pm body ->
  stock_keep r = true /\ selection_keep filters r = true /\
  (rowKey r ∉ fetched_dispatched env) /\
  (rowKey r ∉ localPendingSet (fetched_verifications env)) /\
  exists r0, r0 ∈ body_rows body /\ same_order r r0.
Proof.
  unfold visible_rows, stocked_rows. rewrite final_rows_elem.
  intros (H & Hs & Hf). split; [exact Hs|]. split; [exact Hf|].
  apply stock_stage_elem in H as (r1 & H1 & E1).
  apply surviving_rows_elem in H1 as (Hd & Hp & r0 & H0 & E0).
  rewrite (rowKey_same_order _ _ E1).
  split; [exact Hd|]. split; [exact Hp|].
  exists r0. split; [exact H0 | now apply same_order_trans with r1].
Qed.

(** *** What a cycle can do

    Every event of [load] is one of these. *)
Section inventory.
Context (js : Builtins) (env : Env) (filters : Filters) (pg : nat)
        (pm : gmap string SalesOrderRow) (P : event -> Prop).
Hypothesis P_await : forall p, P (Await p).
Hypothesis P_error : P ConsoleError.
Hypothesis P_warn : P ConsoleWarn.
Hypothesis P_loading : forall b, P (Call (setLoading (const b))).
Hypothesis P_select : forall f, P (Call (setSelectedColors f)).
Hypothesis P_dispatched : P (Call (setDispatchedSet (const (fetched_dispatched env)))).
Hypothesis P_pending :
  P (Call (setPendingSet (const (localPendingSet (fetched_verifications env))))).
Hypothesis P_invoice : forall m, P (Call (setInvoiceMap (const m))).
Hypothesis P_page : P (Call (setPage (const 0%nat))).
Hypothesis P_groups : P (Call (setCollapsedGroups (const ∅))).
Hypothesis P_checked : P (Call (setChecked (const ∅))).
Hypothesis P_failed : P (Call (setRows (const []))) /\ P (Call (setTotal (const 0))).
Hypothesis P_rows : forall body,
  orders env = Ok200 body ->
  P (Call (setRows (const (visible_rows js env filters pm body)))) /\
  P (Call (setTotal (const (computedTotal body (visible_rows js env filters pm body))))).

Lemma process_orders_inventory body :
  orders env = Ok200 body -> Forall P (process_orders js env filters pm body).
Proof.
  intros Hb. unfold process_orders. rewrite !Forall_app. repeat split.
  - eapply Forall_impl; [apply rows_with_uid_events|].
    intros e [f ->]. apply P_select.
  - repeat constructor; auto.
  - unfold invoice_stage.
    destruct (fetch_signal (abort_during env) InvoiceDetails (invoices env))
      as [[| |]|]; simpl; repeat constructor; auto.
  - repeat constructor; auto.
  - unfold stock_stage. destruct (stock_keys _); simpl; [constructor|].
    destruct (stock env); simpl; repeat constructor; auto.
  - destruct (P_rows body Hb). repeat constructor; auto.
Qed.

Lemma load_inventory : Forall P (load js env filters pg pm).
Proof.
  destruct P_failed as [Pr Pt].
  unfold load. repeat (constructor; auto).
  destruct (fetch_signal (abort_during env) DispatchKeys (dispatch_keys env));
    [|repeat (constructor; auto)].
  constructor; [exact P_dispatched|].
  unfold verify_stage. constructor; [auto|].
  destruct (fetch_signal (abort_during env) VerifyList (verify_rows env));
    [|repeat (constructor; auto)].
  constructor; [exact P_pending|].
  unfold orders_stage. constructor; [auto|].
  apply Forall_app. split; [|repeat (constructor; auto)].
  assert (Hsettled : Forall P
            match orders env with
            | Ok200 body =>
                if bool_decide (length (body_rows body) = 0%nat)
                   && (0 <? serverTotal body) && (0 <? pg)%nat
                then [Call (setPage (const 0%nat)); Call (setLoading (const false))]
                else process_orders js env filters pm body
            | NotOk =>
                [ConsoleError; Call (setRows (const [])); Call (setTotal (const 0));
                 Call (setLoading (const false))]
            | NetError => [ConsoleError]
            end).
  { pose proof process_orders_inventory as Hinv.
    destruct (orders env) as [body| |].
    - destruct (bool_decide (length (body_rows body) = 0%nat)
                && (0 <? serverTotal body) && (0 <? pg)%nat).
      + repeat (constructor; auto).
      + now apply Hinv.
    - repeat (constructor; auto).
    - repeat (constructor; auto). }
  unfold fetch_signal.
  destruct (abort_during env) as [a|]; [|exact Hsettled].
  destruct (stage a <=? stage SalesOrders)%nat; [constructor | exact Hsettled].
Qed.
End inventory.

End TableFacts.

(** ** Dispatched rows and the visible set *)

Module DispatchFacts.
Import Table Effects Cycle Pipeline Reconciler Claims TableFacts.
Import Actions CrossTab Dashboard.

Lemma string_or_same v : string_or v (string_or_empty v) = string_or_empty v.
Proof.
  unfold string_or, string_or_empty.
  destruct v as [[]|]; simpl; try reflexivity;
    repeat match goal with |- context [if ?c then _ else _] => destruct c end;
    reflexivity.
Qed.

Lemma rowKey_newRow js u incoming :
  rowKey (set_uid u (newRow js incoming)) = incoming_key incoming.
Proof. unfold rowKey, incoming_key. simpl. now rewrite !string_or_same. Qed.

Lemma existsb_key prev key :
  existsb (fun r => String.eqb (rowKey r) key) prev = true <->
  exists r, r ∈ prev /\ rowKey r = key.
Proof.
  rewrite existsb_exists. split; intros (r & Hr & E); exists r.
  - split; [now apply list_elem_of_In | now apply String.eqb_eq].
  - split; [now apply list_elem_of_In | now apply String.eqb_eq].
Qed.

Lemma rowKey_with_status s r : rowKey (with_status s r) = rowKey r.
Proof. reflexivity. Qed.

(** The trimming and upper-casing of the fetched keys leaves a row key as
    it is: a fetched key equal to the key of a row is in the set. *)
Lemma rowKey_normal r : Str.toUpperCase (Str.trim (rowKey r)) = rowKey r.
Proof.
  unfold rowKey.
  now rewrite StrFacts.trim_upper, KeyFacts.makeDispatchKey_trimmed,
    StrFacts.toUpperCase_idem.
Qed.

Lemma fetched_key_of_row env keys r :
  dispatch_keys env = Ok200 keys -> Some (rowKey r) ∈ keys ->
  rowKey r ∈ fetched_dispatched env.
Proof.
  intros Hk Hin. unfold fetched_dispatched, dispatched_set_of. rewrite Hk.
  apply elem_of_list_to_set, list_elem_of_In, in_map_iff.
  exists (Some (rowKey r)). split; [apply rowKey_normal | now apply list_elem_of_In].
Qed.

(** What a [verified:confirmed] message does to the rows and to the
    dispatched set. *)
Lemma on_message_rows js st uuid incoming :
  let st' := step js st
               (CrossTabMessage uuid
                  (Some {| msg_type := Some "verified:confirmed";
                           msg_row := Some incoming |})) in
  rows st' = prepend_if_absent js uuid (incoming_key incoming) (newRow js incoming) (rows st)
  /\ dispatchedSet st' = dispatchedSet st.
Proof.
  unfold step, trace_of, on_message. cbn [msg_type msg_row].
  change (String.eqb "verified:confirmed" "verified:confirmed") with true.
  cbn [negb]. rewrite run_app.
  destruct (Js.truthy (incoming !! "New_Color")); split; reflexivity.
Qed.

(** The counterexample to C1 as stated: a cycle learns that [SO-1] is
    dispatched and hides it; the confirmation of [SO-1] then arrives from
    another tab and the row is put back in front, its key still in the
    dispatched set. *)
Lemma confirmed_row_reenters_although_dispatched :
  let st := run_actions Sample.builtins
              [ReconciliationCycle Sample.env_dispatched Sample.no_filter;
               CrossTabMessage None (Some Sample.confirmed_so1)] in
  map rowKey (rows st) = ["SO-1|ACME|AB12|RED"; "SO-2|ZED|CD34|BLUE"] /\
  elements (dispatchedSet st) = ["SO-1|ACME|AB12|RED"].
Proof. vm_compute. split; reflexivity. Qed.

(** What the later writers do, seen where handlers yield.  The hook's own
    fetch ends after a cycle has hidden [SO-1]: it stores the page as it
    came, [SO-1] included. *)
Example hook_fetch_stores_the_page_unfiltered :
  let c := interleave Sample.builtins
             [Start (HookFetch false
                       (Ok200 {| body_rows := [Sample.order1; Sample.order2];
                                 body_total := Fin 2 |}));
              Start (ReconciliationCycle Sample.env_dispatched Sample.no_filter);
              Resume 1; Resume 1; Resume 1; Resume 1; Resume 1;
              Resume 0] in
  map SO_No (rows c.1) = [Some "SO-1"; Some "SO-2"] /\
  elements (dispatchedSet c.1) = ["SO-1|ACME|AB12|RED"].
Proof. vm_compute. split; reflexivity. Qed.

(** A save of [SO-2] starts while [SO-1] and [SO-2] are visible; while it
    waits for the answer a cycle learns that [SO-1] is dispatched and hides
    it; the save then writes back the rows it had read, less [SO-2]. *)
Example save_writes_back_the_rows_it_read :
  let c := interleave_from Sample.builtins (SampleState.both_visible, [])
             [Start (SaveDispatched (Ok200 tt));
              Start (ReconciliationCycle Sample.env_dispatched Sample.no_filter);
              Resume 1; Resume 1; Resume 1; Resume 1; Resume 1;
              Resume 0] in
  map SO_No (rows SampleState.both_visible) = [Some "SO-2"; Some "SO-1"] /\
  map SO_No (rows c.1) = [Some "SO-1"] /\
  elements (dispatchedSet c.1) = ["SO-1|ACME|AB12|RED"; "SO-2|ZED|CD34|BLUE"].
Proof. vm_compute. repeat split. Qed.

(** C1 (amended): the rows a reconciliation cycle makes visible never carry
    a key of the dispatched set fetched in that cycle, which is the set the
    cycle stores.  Of the later writers of the visible rows: a
    [verified:confirmed] message puts its row in front exactly when no
    visible row has its key, and leaves the dispatched set alone, which it
    does not consult; the hook's own fetch stores the page as it came; the
    save handler writes back the rows it read when it started, less the
    checked ones; the verification and the cancel handlers update the rows
    they find, whenever they come to it, and bring in no row with a new
    key. *)
Theorem dispatched_rows_excluded_by_cycle (js : Builtins) :
  (forall env filters pg pm e,
     e ∈ load js env filters pg pm ->
     (forall f, e = Call (setDispatchedSet f) -> f = const (fetched_dispatched env)) /\
     (forall f prev r, e = Call (setRows f) -> r ∈ f prev ->
        (rowKey r ∉ fetched_dispatched env) /\
        forall keys, dispatch_keys env = Ok200 keys -> Some (rowKey r) ∉ keys)) /\
  (forall st uuid incoming,
     let st' := step js st
                  (CrossTabMessage uuid
                     (Some {| msg_type := Some "verified:confirmed";
                              msg_row := Some incoming |})) in
     dispatchedSet st' = dispatchedSet st /\
     ((exists r, r ∈ rows st /\ rowKey r = incoming_key incoming) ->
        rows st' = rows st) /\
     ((forall r, r ∈ rows st -> rowKey r <> incoming_key incoming) ->
        exists nr, rows st' = nr :: rows st /\ rowKey nr = incoming_key incoming)) /\
  (forall st aborted reply e f,
     e ∈ trace_of js st (HookFetch aborted reply) -> e = Call (setRows f) ->
     f = const [] \/ exists body, reply = Ok200 body /\ f = const (body_rows body)) /\
  (forall st reply e f,
     e ∈ trace_of js st (SaveDispatched reply) -> e = Call (setRows f) ->
     f = const (List.filter (fun r => negb (is_selected st r)) (rows st))) /\
  (forall st a e f,
     match a with
     | RequestVerification _ | CancelOrderOf _ _ => True
     | _ => False
     end ->
     e ∈ trace_of js st a -> e = Call (setRows f) ->
     forall prev r', r' ∈ f prev -> exists r, r ∈ prev /\ rowKey r' = rowKey r).
Proof.
  split; [|split; [|split; [|split]]].
  - intros env filters pg pm. apply Forall_forall.
    apply load_inventory;
      try (intros; split; [intros ? [=] | intros ? ? ? [=]]; fail);
      try (split; [intros ? [=] | intros ? ? ? [=]]; fail).
    + split; [intros f [= <-]; reflexivity | intros ? ? ? [=]].
    + split; (split; [intros ? [=] | intros f prev r [= <-]]).
      * intros Hin. now apply elem_of_nil in Hin.
    + intros body Hb. split; (split; [intros ? [=] | intros f prev r [= <-]]).
      unfold const. intros Hin. apply visible_rows_elem in Hin as (_ & _ & Hin & _).
      split; [exact Hin|]. intros keys Hk Hraw. apply Hin.
      now apply fetched_key_of_row with keys.
  - intros st uuid incoming.
    destruct (on_message_rows js st uuid incoming) as [Hr Hd].
    cbv zeta in *. rewrite Hr, Hd. split; [reflexivity|].
    unfold prepend_if_absent. split.
    + intros H. apply existsb_key in H. now rewrite H.
    + intros H.
      destruct (existsb (fun r => String.eqb (rowKey r) (incoming_key incoming)) (rows st))
        eqn:E.
      * apply existsb_key in E as (r & Hr' & Hk). now destruct (H r Hr').
      * eexists. split; [reflexivity | apply rowKey_newRow].
  - intros st aborted reply e f H ->. cbn [trace_of] in H. unfold hook_load in H.
    destruct aborted; [|destruct reply as [body| |]];
      simpl in H; apply list_elem_of_In in H; simpl in H;
      repeat (destruct H as [H|H]; [try discriminate H|]); try contradiction;
      injection H as <-; eauto.
  - intros st reply e f H ->. cbn [trace_of] in H. unfold handleSaveDispatched in H.
    case_bool_decide; [now apply elem_of_nil in H|].
    destruct (selectedRows st) as [|sr sel].
    + apply list_elem_of_singleton in H. discriminate.
    + destruct reply; simpl in H; apply list_elem_of_In in H; simpl in H;
        repeat (destruct H as [H|H]; [try discriminate H|]); try contradiction.
      now injection H as <-.
  - intros st [| |reply| |order reply|] e f Ha H ->; try contradiction;
      cbn [trace_of] in H; intros prev r'.
    + unfold handleVerifySelected in H.
      destruct (rowsToSend st) as [|sr toSend]; [now apply elem_of_nil in H|].
      destruct reply; simpl in H; apply list_elem_of_In in H; simpl in H;
        repeat (destruct H as [H|H]; [try discriminate H|]); try contradiction.
      injection H as <-. rewrite elem_of_lfilter. intros [Hin _]. eauto.
    + unfold handleCancelOrder in H.
      destruct (truthy_string (SO_No order)); [|now apply elem_of_nil in H].
      destruct reply; simpl in H; apply list_elem_of_In in H; simpl in H;
        repeat (destruct H as [H|H]; [try discriminate H|]); try contradiction.
      injection H as <-. intros Hin.
      apply list_elem_of_fmap_1 in Hin as (r & -> & Hr).
      exists r. split; [exact Hr|]. now case_bool_decide.
Qed.

Lemma dispatched_rows_excluded_by_cycle_witness :
  Forall (fun r => rowKey r ∉ fetched_dispatched Sample.env_dispatched)
         (visible_rows Sample.builtins Sample.env_dispatched Sample.no_filter ∅
            {| body_rows := [Sample.order1; Sample.order2]; body_total := Fin 2 |}).
Proof.
  apply Forall_forall. intros r Hr.
  apply (proj1 (dispatched_rows_excluded_by_cycle Sample.builtins)
           Sample.env_dispatched Sample.no_filter 0%nat ∅
           (Call (setRows (const (visible_rows Sample.builtins Sample.env_dispatched
                                    Sample.no_filter ∅
                                    {| body_rows := [Sample.order1; Sample.order2];
                                       body_total := Fin 2 |}))))
        ) with (f := const (visible_rows Sample.builtins Sample.env_dispatched
                                    Sample.no_filter ∅
                                    {| body_rows := [Sample.order1; Sample.order2];
                                       body_total := Fin 2 |})) (prev := []).
  - apply list_elem_of_In. vm_compute. do 9 right. left. reflexivity.
  - reflexivity.
  - exact Hr.
Defined.

End DispatchFacts.

(** ** Superseded cycles *)

Module CancellationFacts.
Import Table Effects Cycle Pipeline Reconciler Claims TableFacts.

(** A cycle superseded while it waits for the dispatched keys, for the
    verification list or for the orders stops there: after the abort it
    only clears the loading flag. *)
Lemma load_superseded_early js env filters pg pm p :
  abort_during env = Some p ->
  p = DispatchKeys \/ p = VerifyList \/ p = SalesOrders ->
  after_await p (load js env filters pg pm) = [Call (setLoading (const false))] /\
  quiet (after_await p (load js env filters pg pm)) = true.
Proof.
  intros Ha Hp. unfold load, verify_stage, orders_stage, fetch_signal. rewrite Ha.
  destruct Hp as [->|[->| ->]]; split; reflexivity.
Qed.

Lemma after_await_skip p l1 l2 :
  Forall (fun e => is_await p e = false) l1 ->
  after_await p (l1 ++ Await p :: l2) = l2.
Proof.
  induction 1 as [|e l1 He Hl IH]; simpl.
  - now destruct p.
  - now rewrite He.
Qed.

(** Superseded while it waits for the invoices, the cycle goes on: the
    [catch] around that request swallows the abort, the stock batch is
    requested without the signal, and the rows and the total are set. *)
Lemma load_superseded_during_invoices js env filters pg pm body :
  abort_during env = Some InvoiceDetails ->
  orders env = Ok200 body ->
  (bool_decide (length (body_rows body) = 0%nat) && (0 <? serverTotal body)
   && (0 <? pg)%nat) = false ->
  after_await InvoiceDetails (load js env filters pg pm)
  = ([Call (setInvoiceMap (const ∅))]
     ++ (stock_stage js env (surviving_rows js env pm body)).2
     ++ [Call (setRows (const (visible_rows js env filters pm body)));
         Call (setTotal (const (computedTotal body (visible_rows js env filters pm body))));
         Call (setCollapsedGroups (const ∅));
         Call (setChecked (const ∅));
         Call (setLoading (const false))])%list.
Proof.
  intros Ha Ho Hp.
  unfold load, verify_stage, orders_stage, fetch_signal. rewrite Ha, Ho. simpl.
  rewrite Hp. unfold process_orders.
  assert (Hi : invoice_stage js env = (∅, [])).
  { unfold invoice_stage, fetch_signal. now rewrite Ha. }
  rewrite Hi. simpl. rewrite <- !app_assoc. simpl.
  rewrite after_await_skip.
  - now rewrite <- !app_assoc.
  - eapply Forall_impl; [apply rows_with_uid_events|]. now intros e [f ->].
Qed.

(** C3, the code at the failing input: the cycle is superseded while it
    waits for the stock batch (or for the invoices); the request is not tied
    to the signal, so the superseded cycle still replaces the visible rows
    and the total, and clears the selection. *)
Theorem superseded_cycle_still_sets_rows :
  let during_stock :=
    after_await StockBatch
      (load Sample.builtins (Sample.env_superseded StockBatch) Sample.no_filter 0 ∅) in
  let during_invoices :=
    after_await InvoiceDetails
      (load Sample.builtins (Sample.env_superseded InvoiceDetails) Sample.no_filter 0 ∅) in
  existsb sets_rows during_stock = true /\
  existsb sets_total during_stock = true /\
  quiet during_stock = false /\
  existsb sets_invoice_map during_invoices = true /\
  existsb sets_rows during_invoices = true /\
  existsb sets_total during_invoices = true /\
  map SO_No (rows (run (load Sample.builtins (Sample.env_superseded StockBatch)
                          Sample.no_filter 0 ∅) initial))
  = [Some "SO-2"; Some "SO-1"].
Proof. vm_compute. repeat split. Qed.

End CancellationFacts.

(** ** Stock exclusion *)

Module StockFacts.
Import Table Effects Cycle Pipeline Reconciler Claims TableFacts.

Lemma stock_keep_iff r :
  stock_keep r = true <-> Stock r <> Some (Fin 0) /\ Stock r <> Some NaN.
Proof.
  unfold stock_keep. destruct (Stock r) as [[[| |]| | |]|]; split;
    try (intros _; split; discriminate); try reflexivity; try discriminate;
    intros [H1 H2]; congruence.
Qed.

(** The counterexample to C5 as stated: the only stock record of [AB12]
    carries a closing stock that is not a number; the aggregation skips it,
    the row of [SO-1] gets no stock and stays visible, while [SO-2], whose
    stock is zero, goes. *)
Lemma unparseable_stock_row_stays_visible :
  closing_value Sample.builtins (Sample.stock_of_item "ab12" (CsString "n/a")) = NaN /\
  map (fun r => (SO_No r, Stock r))
      (visible_rows Sample.builtins Sample.env_stock Sample.no_filter ∅
         {| body_rows := [Sample.order1; Sample.order2]; body_total := Fin 2 |})
  = [(Some "SO-1", None)].
Proof. vm_compute. split; reflexivity. Qed.

(** C5 (amended): of the rows that survive the dispatched, pending and
    invoice exclusions, those whose total stock is the number 0 or the
    number NaN are not made visible, and those without a total stock pass
    the stock filter; the total stock of a row is what the aggregation holds
    for its item, and the aggregation skips a record whose closing stock
    does not parse as a number, so that such a record alone excludes no
    row. *)
Theorem stock_filter_of_cycle js env filters pm body :
  (forall r, r ∈ stocked_rows js env pm body ->
     Stock r = Some (Fin 0) \/ Stock r = Some NaN ->
     r ∉ visible_rows js env filters pm body) /\
  (forall r, r ∈ visible_rows js env filters pm body ->
     r ∈ stocked_rows js env pm body /\ Stock r <> Some (Fin 0) /\ Stock r <> Some NaN) /\
  (forall r, r ∈ stocked_rows js env pm body -> Stock r = None ->
     selection_keep filters r = true -> r ∈ visible_rows js env filters pm body) /\
  (forall m s, closing_value js s = NaN -> stock_step js m s = m) /\
  (forall m r, Stock (annotate_stock m r)
               = if Str.is_empty (stock_item_key r) then None
                 else totalStockMap m !! stock_item_key r).
Proof.
  unfold visible_rows. repeat split.
  - intros r _ H Hin. apply final_rows_elem in Hin as (_ & Hk & _).
    apply stock_keep_iff in Hk. intuition congruence.
  - now apply final_rows_elem in H.
  - apply final_rows_elem in H as (_ & Hk & _). now apply stock_keep_iff in Hk.
  - apply final_rows_elem in H as (_ & Hk & _). now apply stock_keep_iff in Hk.
  - intros r Hr Hs Hsel. apply final_rows_elem. repeat split; auto.
    unfold stock_keep. now rewrite Hs.
  - intros m s H. unfold stock_step. rewrite H. simpl.
    now destruct (Str.is_empty _).
  - intros m r. unfold annotate_stock. now destruct (Str.is_empty (stock_item_key r)).
Qed.

Lemma stock_filter_of_cycle_witness :
  stock_step Sample.builtins {| totalStockMap := ∅; colorStockMap := ∅ |}
    (Sample.stock_of_item "ab12" (CsString "n/a"))
  = {| totalStockMap := ∅; colorStockMap := ∅ |}.
Proof.
  apply (stock_filter_of_cycle Sample.builtins Sample.env_stock Sample.no_filter ∅
           {| body_rows := [Sample.order1; Sample.order2]; body_total := Fin 2 |}).
  reflexivity.
Defined.

End StockFacts.

(** ** Order of the visible rows *)

Module SortFacts.
Import Table Effects Cycle Pipeline Reconciler Claims TableFacts.

Lemma num_lt_trans a b c : num_lt a b -> num_lt b c -> num_lt a c.
Proof. destruct a, b, c; simpl; try tauto. lia. Qed.

Lemma num_lt_irrefl a : ~ num_lt a a.
Proof. destruct a; simpl; try tauto. lia. Qed.

Lemma positive_sub a b :
  a <> NaN -> b <> NaN -> (Num.positive (Num.sub b a) = true <-> num_lt a b).
Proof.
  destruct a, b; simpl; try congruence; intros _ _;
    try (split; [discriminate | tauto]); try tauto.
  rewrite Z.ltb_lt. lia.
Qed.

Lemma strict_eq_iff a b : a <> NaN -> b <> NaN -> (Num.strict_eq a b = true <-> a = b).
Proof.
  destruct a, b; simpl; try congruence; intros _ _;
    try (split; [discriminate | congruence]); try tauto.
  rewrite Z.eqb_eq. split; congruence.
Qed.

Lemma num_trichotomy a b : a <> NaN -> b <> NaN -> num_lt a b \/ a = b \/ num_lt b a.
Proof.
  destruct a, b; simpl; try congruence; intros _ _; auto.
  destruct (Z.lt_trichotomy z z0) as [H|[H|H]]; auto. subst. auto.
Qed.

Lemma stock_of_not_nan r : stock_of r <> NaN.
Proof. unfold stock_of. now destruct (Stock r) as [[]|]. Qed.

(** The code ranks a row by the stock and the date the order speaks of. *)
Lemma stock_of_ranking r : stock_of r = ranking_stock r.
Proof. unfold stock_of, ranking_stock. now destruct (Stock r) as [[]|]. Qed.

Lemma date_of_ranking js r :
  route_date js r -> date_of js r = ranking_date js r /\ date_of js r <> NaN.
Proof.
  unfold route_date, date_of, ranking_date, truthy_string. intros H.
  destruct (so_date_parsed r) as [d|]; [|now split].
  destruct (H d eq_refl) as [Hne Hp].
  destruct d as [|c d]; [now destruct Hne|]. cbn [Str.is_empty].
  destruct (Date_parse js (String c d)); [now split | now destruct Hp].
Qed.

Lemma route_date_same_order js r r0 : same_order r r0 -> route_date js r0 -> route_date js r.
Proof. unfold route_date. now intros (_ & _ & _ & _ & _ & _ & ->). Qed.

(** On rows with the dates of the route, the comparator agrees with the
    order. *)
Lemma sorts_after_spec js a b :
  route_date js a -> route_date js b ->
  (sorts_after js a b = false -> sorted_before js a b) /\
  (sorts_after js a b = true -> sorted_before js b a).
Proof.
  intros Pa Pb.
  destruct (date_of_ranking js a Pa) as [Da Ha], (date_of_ranking js b Pb) as [Db Hb].
  unfold sorts_after, comparator, sorted_before.
  rewrite <- !stock_of_ranking, <- Da, <- Db.
  unfold qty_of. fold (quantity a) (quantity b). simpl Num.strict_eq.
  destruct (Z.eqb_spec (quantity b) (quantity a)) as [Eq|Nq]; simpl negb; cbv iota.
  - pose proof (stock_of_not_nan a) as Sa. pose proof (stock_of_not_nan b) as Sb.
    destruct (Num.strict_eq (stock_of b) (stock_of a)) eqn:Es; simpl negb; cbv iota.
    + apply strict_eq_iff in Es; [|assumption..].
      destruct (Num.positive (Num.sub (date_of js a) (date_of js b))) eqn:Ed.
      * apply positive_sub in Ed; [|assumption..].
        split; [discriminate|]. intros _. right. split; [congruence|].
        right. split; [congruence|]. now left.
      * split; [|discriminate]. intros _. right. split; [congruence|].
        right. split; [congruence|].
        destruct (num_trichotomy (date_of js a) (date_of js b) Ha Hb) as [H|[H|H]]; auto.
        apply positive_sub in H; [congruence | assumption..].
    + assert (Hne : stock_of b <> stock_of a).
      { intros E. apply strict_eq_iff in E; [congruence | assumption..]. }
      destruct (Num.positive (Num.sub (stock_of b) (stock_of a))) eqn:Ep.
      * apply positive_sub in Ep; [|assumption..].
        split; [discriminate|]. intros _. right. split; [congruence|]. now left.
      * split; [|discriminate]. intros _. right. split; [congruence|]. left.
        destruct (num_trichotomy (stock_of b) (stock_of a) Sb Sa) as [H|[H|H]];
          [assumption | congruence |].
        apply positive_sub in H; [congruence | assumption..].
  - unfold Num.sub, Num.opp, Num.add, Num.positive.
    destruct (Z.ltb_spec 0 (quantity b + - quantity a)).
    + split; [discriminate|]. intros _. left. lia.
    + split; [|discriminate]. intros _. left. lia.
Qed.

Lemma sorted_before_trans js a b c :
  sorted_before js a b -> sorted_before js b c -> sorted_before js a c.
Proof.
  unfold sorted_before.
  intros [Q1|[Q1 [S1|[S1 D1]]]] [Q2|[Q2 [S2|[S2 D2]]]]; try (left; lia).
  - right. split; [lia|]. left. eapply num_lt_trans; eauto.
  - right. split; [lia|]. left. now rewrite S2 in S1.
  - right. split; [lia|]. left. now rewrite S1.
  - right. split; [lia|]. right. split; [congruence|].
    destruct D1 as [D1|D1], D2 as [D2|D2].
    + left. eapply num_lt_trans; eauto.
    + left. now rewrite <- D2.
    + left. now rewrite D1.
    + right. congruence.
Qed.

(** C6: on a page of the orders route (a parsed date is a date in the ISO
    form, which [Date.parse] reads, or it is missing), the rows a cycle
    makes visible are sorted by quantity descending, then by total stock
    descending with unknown stock as minus infinity and so last, then by
    parsed date ascending with the rows without a readable date last. *)
Theorem visible_rows_sorted js env filters pm body :
  route_dates js (body_rows body) ->
  StronglySorted (sorted_before js) (visible_rows js env filters pm body).
Proof.
  intros Hd. unfold visible_rows, final_rows, sort_rows.
  do 2 apply SortingFacts.StronglySorted_filter.
  apply (SortingFacts.sort_by_sorted (sorts_after js) (sorted_before js) (route_date js)).
  - intros a b Ha Hb. now apply sorts_after_spec.
  - intros a b Ha Hb. now apply sorts_after_spec.
  - intros a b c _ _ _. apply sorted_before_trans.
  - apply Forall_forall. intros r Hr. unfold stocked_rows in Hr.
    apply stock_stage_elem in Hr as (r1 & H1 & E1).
    apply surviving_rows_elem in H1 as (_ & _ & r0 & H0 & E0).
    apply (route_date_same_order js r r0); [now apply same_order_trans with r1|].
    now apply Hd.
Qed.

(** Five lines: the larger quantity comes first; of the lines of quantity
    five the two with stock come first, the earlier of them in front; the
    two without stock follow, the one without a parsed date last. *)
Lemma visible_rows_sorted_witness :
  map SO_No (visible_rows Sample.builtins SortSample.env Sample.no_filter ∅
               {| body_rows := SortSample.page; body_total := Fin 5 |})
  = [Some "SO-B"; Some "SO-D"; Some "SO-A"; Some "SO-C"; Some "SO-E"] /\
  StronglySorted (sorted_before Sample.builtins)
    (visible_rows Sample.builtins SortSample.env Sample.no_filter ∅
       {| body_rows := SortSample.page; body_total := Fin 5 |}).
Proof.
  split; [vm_compute; reflexivity|].
  apply visible_rows_sorted. intros r Hr d Hd.
  cbn [body_rows] in Hr. unfold SortSample.page in Hr.
  repeat (apply elem_of_cons in Hr as [->|Hr];
          [vm_compute in Hd; first [discriminate Hd | injection Hd as <-];
           split; vm_compute; discriminate|]).
  now apply elem_of_nil in Hr.
Defined.

End SortFacts.

(** ** Actions and the displayed total *)

Module ActionFacts.
Import Table Effects Cycle Pipeline Reconciler Claims TableFacts.
Import Actions CrossTab Dashboard.

(** C7: when the verification request fails (a response that is not 2xx, or
    a request that throws), the handler reports the error and leaves the
    visible rows, the pending set, the pending map, the selected colours,
    the check marks and the total as they were. *)
Theorem failed_verification_changes_nothing js st (reply : response unit) :
  reply = NotOk \/ reply = NetError ->
  let st' := step js st (RequestVerification reply) in
  rows st' = rows st /\
  pendingSet st' = pendingSet st /\
  pendingMap st' = pendingMap st /\
  selectedColors st' = selectedColors st /\
  checked st' = checked st /\
  total st' = total st /\
  (rowsToSend st <> [] -> ConsoleError ∈ trace_of js st (RequestVerification reply)).
Proof.
  intros Hr. unfold step, trace_of, handleVerifySelected.
  destruct (rowsToSend st) as [|sr toSend].
  - repeat split. congruence.
  - destruct Hr as [-> | ->]; simpl; repeat split; intros _; do 2 right; left.
Qed.

Lemma failed_verification_changes_nothing_witness :
  rowsToSend SampleState.so2_checked <> [] /\
  rows (step Sample.builtins SampleState.so2_checked (RequestVerification NotOk))
  = rows SampleState.so2_checked /\
  total (step Sample.builtins SampleState.so2_checked (RequestVerification NotOk))
  = total SampleState.so2_checked.
Proof.
  split; [vm_compute; discriminate|].
  destruct (failed_verification_changes_nothing Sample.builtins SampleState.so2_checked
              NotOk (or_introl eq_refl)) as (Hrows & _ & _ & _ & _ & Htotal & _).
  split; [exact Hrows | exact Htotal].
Defined.

(** What the same request does when it succeeds, on the same state. *)
Example successful_verification_moves_the_row :
  let st' := step Sample.builtins SampleState.so2_checked (RequestVerification (Ok200 tt)) in
  map SO_No (rows SampleState.so2_checked) = [Some "SO-2"] /\
  total SampleState.so2_checked = 1 /\
  rows st' = [] /\ total st' = 0 /\
  elements (pendingSet st') = ["SO-2|ZED|CD34|BLUE"].
Proof. vm_compute. repeat split. Qed.

Lemma total_apply_setter s st :
  total (apply_setter s st) = match s with setTotal f => f (total st) | _ => total st end.
Proof. now destruct s. Qed.

Lemma run_keeps_total tr : forall st,
  Forall keeps_total_nonneg tr -> 0 <= total st -> 0 <= total (run tr st).
Proof.
  induction tr as [|e tr IH]; intros st Htr Hst; [exact Hst|].
  apply Forall_cons in Htr as [He Htr]. simpl. apply IH; [exact Htr|].
  destruct e as [p|s| |]; simpl; try exact Hst.
  rewrite total_apply_setter. destruct s; try exact Hst. now apply He.
Qed.

Lemma computedTotal_nonneg body l : 0 <= computedTotal body l.
Proof. unfold computedTotal. lia. Qed.

(** Every setter call of an action keeps the total from going negative,
    the hook's fetch as long as the reported total is not negative. *)
Lemma trace_keeps_total js st a :
  hook_contract a -> Forall keeps_total_nonneg (trace_of js st a).
Proof.
  destruct a as [env filters|aborted reply|reply|reply|order reply|uuid data];
    intros Hc; simpl.
  - apply load_inventory; simpl; auto; try lia.
    + split; simpl; auto. lia.
    + intros body _. split; simpl; auto. intros _ _. apply computedTotal_nonneg.
  - unfold hook_load.
    destruct aborted; [repeat constructor|].
    destruct reply as [body| |]; repeat constructor; simpl; try lia.
    intros _ _. simpl in Hc. destruct (body_total body); simpl; lia.
  - unfold handleVerifySelected. destruct (rowsToSend st); [constructor|].
    destruct reply; repeat constructor; simpl; lia.
  - unfold handleSaveDispatched. case_bool_decide; [constructor|].
    destruct (selectedRows st); [repeat constructor|].
    destruct reply; repeat constructor; simpl; lia.
  - unfold handleCancelOrder. destruct (truthy_string (SO_No order)); [|constructor].
    destruct reply; repeat constructor.
  - unfold on_message. destruct data as [[[ty|] [incoming|]]|];
      cbn [msg_type msg_row]; try constructor.
    destruct (negb (String.eqb ty "verified:confirmed")); [constructor|].
    destruct (Js.truthy (incoming !! "New_Color")); repeat constructor.
Qed.

(** A handler that yields keeps the total from going negative on every
    stretch it runs. *)
Lemma run_to_await_total tr : forall st,
  Forall keeps_total_nonneg tr -> 0 <= total st ->
  0 <= total (run_to_await tr st).1 /\ Forall keeps_total_nonneg (run_to_await tr st).2.
Proof.
  induction tr as [|e tr IH]; intros st Htr Hst; [now split|].
  apply Forall_cons in Htr as [He Htr].
  destruct e as [p|s| |]; cbn [run_to_await]; try (now split); try (now apply IH).
  apply IH; [exact Htr|]. cbn [apply_event]. rewrite total_apply_setter.
  destruct s; try exact Hst. now apply He.
Qed.

Lemma turn_keeps_total js c t :
  turn_contract t ->
  0 <= total c.1 /\ Forall (Forall keeps_total_nonneg) c.2 ->
  0 <= total (turn_step js c t).1 /\ Forall (Forall keeps_total_nonneg) (turn_step js c t).2.
Proof.
  destruct c as [st pend]. intros Ht [Hst Hp]. cbn [fst snd] in *.
  destruct t as [a|i]; cbn [turn_step fst snd].
  - pose proof (run_to_await_total (trace_of js st a) st
                  (trace_keeps_total js st a Ht) Hst) as [H1 H2].
    destruct (run_to_await (trace_of js st a) st) as [st' rest]. cbn [fst snd] in *.
    split; [exact H1|]. apply Forall_app. split; [exact Hp | now constructor].
  - destruct (pend !! i) as [tr|] eqn:E; [|now split].
    pose proof (run_to_await_total tr st (Forall_lookup_1 _ _ _ _ Hp E) Hst) as [H1 H2].
    destruct (run_to_await tr st) as [st' rest]. cbn [fst snd] in *.
    split; [exact H1|]. now apply Forall_insert.
Qed.

(** The total the orders route reports is a count. *)
Lemma reported_total_count countResult n rows :
  reply_total_nonneg
    (Ok200 {| body_rows := rows; body_total := Paging.reported_total countResult n |}).
Proof. destruct countResult as [|[cnt|] l]; simpl; lia. Qed.

(** C10: the total starts at 0 and is never negative, whichever way the
    handlers interleave.  The reconciliation cycle sets it to 0 or to a
    value clamped by [max(0, .)], and the decrements after a verification
    request or a dispatch clamp in the same way; the hook's own fetch
    stores the total the orders route reports, which is a count (the [cnt]
    of the count query, or the number of rows of the page). *)
Theorem total_never_negative (js : Builtins) :
  total initial = 0 /\
  (forall st env filters e,
     e ∈ trace_of js st (ReconciliationCycle env filters) ->
     forall f, e = Call (setTotal f) -> f = const 0 \/ exists t, f = const (Z.max 0 t)) /\
  (forall st reply e f,
     e ∈ trace_of js st (RequestVerification reply)
     \/ e ∈ trace_of js st (SaveDispatched reply) ->
     e = Call (setTotal f) -> exists n, f = fun t => Z.max 0 (t - n)) /\
  (forall aborted countResult n rows,
     hook_contract
       (HookFetch aborted
          (Ok200 {| body_rows := rows;
                    body_total := Paging.reported_total countResult n |}))) /\
  (forall ts, Forall turn_contract ts -> 0 <= total (interleave js ts).1) /\
  (forall l, Forall hook_contract l -> 0 <= total (run_actions js l)).
Proof.
  split; [reflexivity|]. split; [|split; [|split; [|split]]].
  - intros st env filters. unfold trace_of.
    apply (proj1 (Forall_forall
                    (fun e => forall f, e = Call (setTotal f) ->
                                        f = const 0 \/ exists t, f = const (Z.max 0 t)) _)).
    apply load_inventory; try (intros; congruence).
    + split; [intros ? [=] | intros f [= <-]; now left].
    + intros body _. split; [intros ? [=] | intros f [= <-]].
      right. unfold computedTotal. eauto.
  - intros st reply e f [H|H] ->; cbn [trace_of] in H.
    + unfold handleVerifySelected in H. destruct (rowsToSend st) as [|sr l];
        [now apply elem_of_nil in H|].
      destruct reply; simpl in H; apply list_elem_of_In in H; simpl in H;
        repeat (destruct H as [H|H]; [try discriminate H|]); try contradiction.
      injection H as <-. eauto.
    + unfold handleSaveDispatched in H. case_bool_decide;
        [now apply elem_of_nil in H|].
      destruct (selectedRows st) as [|sr l].
      * apply list_elem_of_singleton in H. discriminate.
      * destruct reply; simpl in H; apply list_elem_of_In in H; simpl in H;
          repeat (destruct H as [H|H]; [try discriminate H|]); try contradiction.
        injection H as <-. eauto.
  - intros aborted countResult n rows. apply reported_total_count.
  - intros ts Hts. unfold interleave, interleave_from.
    assert (H : forall c, 0 <= total c.1 /\ Forall (Forall keeps_total_nonneg) c.2 ->
                          0 <= total (fold_left (turn_step js) ts c).1).
    { induction Hts as [|t ts Ht Hts IH]; intros c Hc; [apply Hc|].
      simpl. apply IH. now apply turn_keeps_total. }
    apply H. split; [reflexivity | constructor].
  - intros l Hl. unfold run_actions.
    assert (H : forall st, 0 <= total st -> 0 <= total (fold_left (step js) l st)).
    { induction Hl as [|a l Ha Hl IH]; intros st Hst; [exact Hst|].
      simpl. apply IH. unfold step. apply run_keeps_total; [|exact Hst].
      now apply trace_keeps_total. }
    apply H. reflexivity.
Qed.

(** The hook's fetch and a cycle start together; the cycle ends first, a
    verification request follows, and the hook's fetch ends last. *)
Lemma total_never_negative_witness :
  0 <= total (interleave Sample.builtins
                [Start (HookFetch false
                          (Ok200 {| body_rows := [Sample.order1; Sample.order2];
                                    body_total := Paging.reported_total [Some 2%nat] 2 |}));
                 Start (ReconciliationCycle Sample.env_stock Sample.no_filter);
                 Resume 1; Resume 1; Resume 1; Resume 1; Resume 1;
                 Start (RequestVerification (Ok200 tt));
                 Resume 0; Resume 2]).1.
Proof.
  apply (proj1 (proj2 (proj2 (proj2 (proj2 (total_never_negative Sample.builtins)))))).
  repeat constructor. simpl. lia.
Defined.

End ActionFacts.

(** ** Traces and invariants *)

Module RunFacts.
Import Table Effects.


Lemma run_invariant (I : State -> Prop) tr :
  Forall (fun e => forall st, I st -> I (apply_event st e)) tr ->
  forall st, I st -> I (run tr st).
Proof.
  induction tr as [|e tr IH]; intros Htr st Hst; [exact Hst|].
  apply Forall_cons in Htr as [He Htr]. simpl. apply IH; [exact Htr|]. now apply He.
Qed.

End RunFacts.

(** ** Decimal numerals *)

Module PrettyFacts.
Import Str.

(** No character of a decimal numeral satisfies a predicate that the ten
    digits and the minus sign fail. *)
Lemma pretty_N_go_chars (p : ascii -> bool) :
  (forall n, p (pretty_N_char n) = false) ->
  forall x s, mem_char p s = false -> mem_char p (pretty_N_go x s) = false.
Proof.
  intros Hp x. induction (N.lt_wf_0 x) as [x _ IH]. intros s Hs.
  destruct (N.eq_dec x 0%N) as [->|Hx]; [now rewrite pretty_N_go_0|].
  rewrite pretty_N_go_step by lia. apply IH.
  - apply N.div_lt; lia.
  - simpl. now rewrite Hp, Hs.
Qed.

Lemma pretty_Z_chars (p : ascii -> bool) (z : Z) :
  (forall n, p (pretty_N_char n) = false) -> p "-"%char = false ->
  mem_char p (pretty z) = false.
Proof.
  intros Hp Hd.
  assert (H0 : p "0"%char = false) by exact (Hp 0%N).
  assert (HN : forall x : N, mem_char p (pretty x) = false).
  { intros x. unfold pretty, pretty_N. destruct (decide (x = 0%N)).
    - simpl. now rewrite H0.
    - now apply pretty_N_go_chars. }
  destruct z as [|x|x]; unfold pretty, pretty_Z.
  - simpl. now rewrite H0.
  - apply HN.
  - simpl. rewrite Hd. apply HN.
Qed.



Lemma pretty_N_char_cases (p : ascii -> bool) :
  p "0"%char = false -> p "1"%char = false -> p "2"%char = false ->
  p "3"%char = false -> p "4"%char = false -> p "5"%char = false ->
  p "6"%char = false -> p "7"%char = false -> p "8"%char = false ->
  p "9"%char = false -> forall n, p (pretty_N_char n) = false.
Proof. intros. unfold pretty_N_char. repeat case_match; assumption. Qed.

End PrettyFacts.

(** ** Further properties of the reconciliation cycle *)

Module CycleFacts.
Import Table Effects Cycle Pipeline Reconciler Claims TableFacts RunFacts.
Import Actions CrossTab Dashboard Props.





(** *** What a cycle that is not superseded leaves behind *)

Lemma rows_with_uid_length env vi l : forall i,
  length (rows_with_uid env vi i l).1 = length l.
Proof.
  induction l as [|r l IH]; intros i; simpl; [reflexivity|].
  specialize (IH (S i)). destruct (rows_with_uid env vi (S i) l). simpl in *.
  now rewrite IH.
Qed.

Lemma exclude_keys_length s l : (length (exclude_keys s l) <= length l)%nat.
Proof.
  unfold exclude_keys. destruct (bool_decide _); [lia | apply List.filter_length_le].
Qed.

Lemma stock_stage_length js env l : length (stock_stage js env l).1 = length l.
Proof.
  unfold stock_stage. destruct (stock_keys l); [reflexivity|].
  destruct (fetch_plain (stock env)) as [[| |]|]; simpl; try reflexivity.
  apply length_map.
Qed.

Lemma visible_rows_length js env filters pm body :
  (length (visible_rows js env filters pm body) <= length (body_rows body))%nat.
Proof.
  unfold visible_rows, final_rows, stocked_rows.
  etransitivity; [apply List.filter_length_le|].
  etransitivity; [apply List.filter_length_le|].
  unfold sort_rows. rewrite (Permutation_length (SortingFacts.sort_by_perm _ _)).
  rewrite stock_stage_length. unfold surviving_rows, exclusions.
  etransitivity; [apply List.filter_length_le|].
  etransitivity; [apply exclude_keys_length|].
  etransitivity; [apply exclude_keys_length|].
  etransitivity; [apply exclude_keys_length|].
  now rewrite rows_with_uid_length.
Qed.

Lemma process_orders_result js env filters pm body st :
  let st' := run (process_orders js env filters pm body) st in
  rows st' = visible_rows js env filters pm body /\
  total st' = computedTotal body (visible_rows js env filters pm body) /\
  collapsedGroups st' = ∅ /\ checked st' = ∅.
Proof.
  unfold process_orders. rewrite !run_app. now repeat split.
Qed.

(** Without an abort the cycle reaches the orders request, having replaced
    the dispatched and the pending set. *)
Lemma load_unfolded js env filters pg pm :
  abort_during env = None ->
  load js env filters pg pm
  = ([Call (setLoading (const true)); Await DispatchKeys;
      Call (setDispatchedSet (const (fetched_dispatched env))); Await VerifyList;
      Call (setPendingSet (const (localPendingSet (fetched_verifications env))));
      Await SalesOrders]
     ++ match orders env with
        | Ok200 body =>
            if back_to_first_page body pg
            then [Call (setPage (const 0%nat)); Call (setLoading (const false))]
            else process_orders js env filters pm body
        | NotOk =>
            [ConsoleError; Call (setRows (const [])); Call (setTotal (const 0));
             Call (setLoading (const false))]
        | NetError => [ConsoleError]
        end ++ [Call (setLoading (const false))])%list.
Proof.
  intros Ha. unfold load, verify_stage, orders_stage, fetch_signal, back_to_first_page.
  rewrite Ha. reflexivity.
Qed.

(** No event of a cycle but the two at its start touches the dispatched or
    the pending set. *)
Lemma load_boundary_sets js env filters st :
  abort_during env = None ->
  let st' := step js st (ReconciliationCycle env filters) in
  dispatchedSet st' = fetched_dispatched env /\
  pendingSet st' = localPendingSet (fetched_verifications env).
Proof.
  intros Ha st'. subst st'. unfold step. cbn [trace_of].
  set (I := fun s : State =>
              dispatchedSet s = fetched_dispatched env /\
              pendingSet s = localPendingSet (fetched_verifications env)).
  assert (Hall : Forall (fun e => forall s, I s -> I (apply_event s e))
                        (load js env filters (page st) (pendingMap st))).
  { apply load_inventory; try (intros; assumption);
      try (split; intros; assumption).
    - intros s [_ Hp]. now split.
    - intros s [Hd _]. now split. }
  rewrite (load_unfolded _ _ _ _ _ Ha) in *.
  apply Forall_app in Hall as [_ Hall]. rewrite run_app.
  apply (run_invariant I); [exact Hall|]. now split.
Qed.

(** X2: a cycle that is not superseded and receives a page of orders (other
    than the empty page that sends the table back to the first page) shows
    the rows that pass its filters, never more rows than the page holds, and
    sets the total to the server's count less the number of rows of the page
    it hides (not below zero); the check marks and the collapsed groups are
    reset, and the dispatched and pending sets are those just fetched. *)
Theorem cycle_total_counts_hidden_rows js env filters st body :
  abort_during env = None ->
  orders env = Ok200 body ->
  back_to_first_page body (page st) = false ->
  let st' := step js st (ReconciliationCycle env filters) in
  rows st' = visible_rows js env filters (pendingMap st) body /\
  (length (rows st') <= length (body_rows body))%nat /\
  total st'
  = Z.max 0 (serverTotal body
             - (Z.of_nat (length (body_rows body)) - Z.of_nat (length (rows st')))) /\
  (Z.of_nat (length (body_rows body)) <= serverTotal body ->
   Z.of_nat (length (rows st')) <= total st') /\
  checked st' = ∅ /\ collapsedGroups st' = ∅ /\
  dispatchedSet st' = fetched_dispatched env /\
  pendingSet st' = localPendingSet (fetched_verifications env).
Proof.
  intros Ha Hb Hp st'.
  destruct (load_boundary_sets js env filters st Ha) as [Hd Hq].
  fold st' in Hd, Hq.
  assert (Hres : rows st' = visible_rows js env filters (pendingMap st) body /\
                 total st' = computedTotal body
                               (visible_rows js env filters (pendingMap st) body) /\
                 collapsedGroups st' = ∅ /\ checked st' = ∅).
  { subst st'. unfold step. cbn [trace_of].
    rewrite (load_unfolded _ _ _ _ _ Ha), Hb, Hp, !run_app.
    apply (process_orders_result js env filters (pendingMap st) body). }
  destruct Hres as (Hr & Ht & Hc & Hk).
  pose proof (visible_rows_length js env filters (pendingMap st) body) as Hlen.
  rewrite <- Hr in Hlen.
  repeat split; try assumption.
  - rewrite Ht, Hr. unfold computedTotal. rewrite Hr in Hlen. lia.
  - intros Hs. rewrite Ht. unfold computedTotal. rewrite Hr in *. lia.
Qed.

Lemma cycle_total_counts_hidden_rows_witness :
  let st' := step Sample.builtins initial
               (ReconciliationCycle Sample.env_stock Sample.no_filter) in
  map SO_No (rows st') = [Some "SO-1"] /\ total st' = 1.
Proof.
  destruct (cycle_total_counts_hidden_rows Sample.builtins Sample.env_stock
              Sample.no_filter initial
              {| body_rows := [Sample.order1; Sample.order2]; body_total := Fin 2 |}
              eq_refl eq_refl eq_refl) as (Hr & _ & Ht & _).
  split.
  - rewrite Hr. vm_compute. reflexivity.
  - rewrite Ht, Hr. vm_compute. reflexivity.
Defined.

(** X3: what a cycle that is not superseded does when the orders do not
    arrive.  A response that is not 2xx empties the table and sets the total
    to zero; a request that throws leaves rows and total as they were; an
    empty page beyond the first, while the server counts rows, sends the
    table back to the first page and leaves rows and total for the next
    cycle. *)
Theorem cycle_without_orders js env filters st :
  abort_during env = None ->
  let st' := step js st (ReconciliationCycle env filters) in
  (orders env = NotOk -> rows st' = [] /\ total st' = 0 /\ page st' = page st) /\
  (orders env = NetError ->
   rows st' = rows st /\ total st' = total st /\ page st' = page st) /\
  (forall body, orders env = Ok200 body -> back_to_first_page body (page st) = true ->
     page st' = 0%nat /\ rows st' = rows st /\ total st' = total st).
Proof.
  intros Ha st'. subst st'. unfold step. cbn [trace_of].
  rewrite (load_unfolded _ _ _ _ _ Ha).
  split; [|split].
  - intros ->. now repeat split.
  - intros ->. now repeat split.
  - intros body -> ->. now repeat split.
Qed.

Lemma cycle_without_orders_witness :
  let env := {| abort_during := None; dispatch_keys := Ok200 []; verify_rows := Ok200 [];
                orders := NotOk; invoices := Ok200 []; stock := Ok200 [];
                randomUUID := fun _ => None |} in
  let st' := step Sample.builtins SampleState.after_cycle
               (ReconciliationCycle env Sample.no_filter) in
  rows st' = [] /\ total st' = 0.
Proof.
  intros env st'.
  destruct (cycle_without_orders Sample.builtins env Sample.no_filter
              SampleState.after_cycle eq_refl) as [H _].
  destruct (H eq_refl) as (Hr & Ht & _). now split.
Defined.

(** *** The flags of the visible rows *)

Lemma rows_with_uid_flags env vi l : forall i r,
  r ∈ (rows_with_uid env vi i l).1 ->
  pending r = Some (bool_decide (rowKey r ∈ localPendingSet vi)) /\
  uid r <> None /\ StockByColor r = None.
Proof.
  induction l as [|r0 l IH]; intros i r Hin; simpl in Hin.
  - now apply elem_of_nil in Hin.
  - specialize (IH (S i)). destruct (rows_with_uid env vi (S i) l) as [rs evs].
    simpl in *. apply elem_of_cons in Hin as [->|Hin]; [|now apply IH].
    now repeat split.
Qed.

Lemma annotate_stock_flags m r :
  pending (annotate_stock m r) = pending r /\ uid (annotate_stock m r) = uid r /\
  rowKey (annotate_stock m r) = rowKey r.
Proof. unfold annotate_stock. now destruct (Str.is_empty _). Qed.

(** X28: no row a cycle shows is flagged as pending, and every one of them
    has an identifier: the rows whose key is in the pending set fetched by
    the cycle are the only ones flagged, and they are excluded. *)
Theorem visible_rows_are_not_pending js env filters pm body (r : SalesOrderRow) :
  r ∈ visible_rows js env filters pm body ->
  pending r = Some false /\ uid r <> None.
Proof.
  unfold visible_rows, stocked_rows. rewrite final_rows_elem. intros (H & _ & _).
  assert (Hsurv : exists r1, r1 ∈ surviving_rows js env pm body /\
                             pending r = pending r1 /\ uid r = uid r1).
  { unfold stock_stage in H. destruct (stock_keys _); [now exists r|].
    destruct (fetch_plain (stock env)) as [[stockRows| |]|]; simpl in H;
      try now exists r.
    apply list_elem_of_fmap_1 in H as (r1 & -> & H1). exists r1.
    destruct (annotate_stock_flags (aggregate_stock js stockRows) r1) as (Hp & Hu & _).
    now repeat split. }
  destruct Hsurv as (r1 & H1 & -> & ->).
  unfold surviving_rows in H1. apply elem_of_lfilter in H1 as [H1 _].
  unfold exclusions in H1.
  apply exclude_keys_elem in H1 as [H1 _]. apply exclude_keys_elem in H1 as [H1 Hp].
  apply exclude_keys_elem in H1 as [H1 _].
  destruct (rows_with_uid_flags _ _ _ _ _ H1) as (Hf & Hu & _).
  split; [|exact Hu]. rewrite Hf. now rewrite bool_decide_eq_false_2.
Qed.

Lemma visible_rows_are_not_pending_witness :
  Forall (fun r => pending r = Some false)
    (visible_rows Sample.builtins Sample.env_dispatched Sample.no_filter ∅
       {| body_rows := [Sample.order1; Sample.order2]; body_total := Fin 2 |}).
Proof.
  apply Forall_forall. intros r Hr.
  exact (proj1 (visible_rows_are_not_pending _ _ _ _ _ r Hr)).
Defined.

(** *** Row identifiers *)

Lemma mem_char_app p a b : Str.mem_char p (a ++ b) = Str.mem_char p a || Str.mem_char p b.
Proof. induction a as [|c a IH]; simpl; [reflexivity|]. now rewrite IH, orb_assoc. Qed.

Lemma string_app_assoc (a b c : string) : (a ++ b) ++ c = a ++ (b ++ c).
Proof.
  induction a as [|x a IH]; [reflexivity|].
  change (String x ((a ++ b) ++ c) = String x (a ++ (b ++ c))). now rewrite IH.
Qed.

Lemma last_segment_app b d :
  Str.mem_char is_underscore d = false -> last_segment (b ++ String "_" d) = d.
Proof.
  intros Hd. induction b as [|c b IH]; simpl.
  - now rewrite Hd.
  - rewrite mem_char_app. simpl. rewrite orb_true_r. exact IH.
Qed.

Lemma pretty_no_underscore (z : Z) : Str.mem_char is_underscore (pretty z) = false.
Proof.
  apply PrettyFacts.pretty_Z_chars; [|reflexivity].
  now apply PrettyFacts.pretty_N_char_cases.
Qed.

(** Without [crypto.randomUUID] the identifier of a row ends in its index. *)
Lemma uidForRow_segment so item color idx :
  last_segment (uidForRow so item color idx None) = pretty idx.
Proof.
  unfold uidForRow.
  set (base := if Str.is_empty _ then "uid" else _).
  replace (base ++ "__" ++ pretty idx) with ((base ++ "_") ++ String "_" (pretty idx)).
  - apply last_segment_app, pretty_no_underscore.
  - now rewrite string_app_assoc.
Qed.

Lemma rows_with_uid_index env vi l :
  (forall i, randomUUID env i = None) ->
  forall i r, r ∈ (rows_with_uid env vi i l).1 ->
  exists u j, uid r = Some u /\ last_segment u = pretty (Z.of_nat j) /\ (i <= j)%nat.
Proof.
  intros Hno. induction l as [|r0 l IH]; intros i r Hin; simpl in Hin.
  - now apply elem_of_nil in Hin.
  - specialize (IH (S i)). destruct (rows_with_uid env vi (S i) l) as [rs evs].
    simpl in *. apply elem_of_cons in Hin as [->|Hin].
    + rewrite Hno. eexists _, i. split; [reflexivity|].
      split; [apply uidForRow_segment | lia].
    + destruct (IH r Hin) as (u & j & Hu & Hs & Hj). exists u, j.
      split; [exact Hu|]. split; [exact Hs | lia].
Qed.

(** X13: where [crypto.randomUUID] is not available, the identifiers given
    to the rows of a page are pairwise distinct (each ends in the index of
    its row), so that a check mark, which is kept by identifier, selects
    exactly one row. *)
Theorem uids_are_distinct_without_randomUUID env vi (incoming : list SalesOrderRow) :
  (forall i, randomUUID env i = None) ->
  NoDup (map uid (rows_with_uid env vi 0 incoming).1).
Proof.
  intros Hno. generalize 0%nat.
  induction incoming as [|r0 l IH]; intros i; [constructor|].
  pose proof (rows_with_uid_index env vi l Hno (S i)) as Hidx.
  specialize (IH (S i)). cbn [rows_with_uid].
  destruct (rows_with_uid env vi (S i) l) as [rs evs].
  cbn [fst map uid with_uid] in *. constructor; [|exact IH].
  intros Hin. apply list_elem_of_fmap_1 in Hin as (r & Hr & Hin).
  destruct (Hidx r Hin) as (u & j & Hu & Hs & Hj).
  rewrite Hno, Hu in Hr. apply (inj Some) in Hr.
  rewrite <- Hr, uidForRow_segment in Hs.
  apply (inj pretty) in Hs. lia.
Qed.

Lemma uids_are_distinct_without_randomUUID_witness :
  NoDup (map uid (rows_with_uid Sample.env_dispatched no_verifications 0
                    [Sample.order1; Sample.order1]).1).
Proof.
  apply uids_are_distinct_without_randomUUID. intros i. reflexivity.
Defined.

End CycleFacts.

(** ** Further properties of the action handlers *)

Module HandlerFacts.
Import Table Effects Cycle Pipeline Reconciler Claims TableFacts StrFacts RunFacts.
Import Actions CrossTab Dashboard Props.

Lemma filter_negb_length {A} (p : A -> bool) l :
  (length (List.filter (fun x => negb (p x)) l) + length (List.filter p l)
   = length l)%nat.
Proof. induction l as [|x l IH]; simpl; [reflexivity|]. destruct (p x); simpl; lia. Qed.

Lemma selectedRows_checked st :
  selectedRows st <> [] -> selected_uids (checked st) <> ∅.
Proof.
  unfold selectedRows. intros Hne Hempty. apply Hne.
  replace (List.filter (is_selected st) (rows st)) with (@nil SalesOrderRow); [reflexivity|].
  symmetry. clear Hne. induction (rows st) as [|r l IH]; simpl; [reflexivity|].
  replace (is_selected st r) with false; [exact IH|].
  unfold is_selected. destruct (uid r) as [u|]; [|reflexivity].
  rewrite Hempty. rewrite bool_decide_eq_false_2 by set_solver.
  now rewrite andb_false_r.
Qed.

(** The key under which a dispatched row is recorded is the key of the
    order row, unless a replacement colour takes the place of its colour. *)
Lemma dispatchedKey_rowKey st r :
  selectedColors st !! rowKey r = None -> New_Color r = None ->
  dispatchedKey (dispatch_out st r) = rowKey r.
Proof.
  intros Hs Hn. unfold dispatchedKey, dispatch_out.
  cbn [d_SO_No d_Customer d_Item d_Color]. rewrite Hs, Hn.
  unfold rowKey, makeDispatchKey. now destruct (SO_No r).
Qed.

(** X4: a save that fails (a response that is not 2xx, or a request that
    throws), or that finds no visible row among the checked ones, changes
    neither the rows nor the total, the dispatched set, the check marks, the
    selected colours or the production quantities. *)
Theorem failed_save_changes_nothing js st (reply : response unit) :
  reply = NotOk \/ reply = NetError \/ selectedRows st = [] ->
  let st' := step js st (SaveDispatched reply) in
  rows st' = rows st /\ total st' = total st /\
  dispatchedSet st' = dispatchedSet st /\ checked st' = checked st /\
  selectedColors st' = selectedColors st /\
  productionQtyByUid st' = productionQtyByUid st.
Proof.
  intros H st'. subst st'. unfold step. cbn [trace_of]. unfold handleSaveDispatched.
  destruct (bool_decide _); [now repeat split|].
  destruct (selectedRows st) as [|sr l]; [now repeat split|].
  destruct H as [-> | [-> | H]]; [now repeat split | now repeat split | discriminate H].
Qed.

Lemma failed_save_changes_nothing_witness :
  let st' := step Sample.builtins SampleState.so2_checked (SaveDispatched NetError) in
  rows st' = rows SampleState.so2_checked /\ total st' = total SampleState.so2_checked.
Proof.
  destruct (failed_save_changes_nothing Sample.builtins SampleState.so2_checked NetError
              (or_intror (or_introl eq_refl))) as (Hr & Ht & _).
  now split.
Defined.

(** X5: after a successful save of at least one visible checked row, the
    checked rows have left the table and the others stay, in their order; the row count and (down to zero) the total
    drop by the number of rows saved; the dispatched set only grows, and it
    then holds the key of every saved row whose colour was not replaced. *)
Theorem saved_rows_leave_the_table js st :
  selectedRows st <> [] ->
  let st' := step js st (SaveDispatched (Ok200 tt)) in
  rows st' = List.filter (fun r => negb (is_selected st r)) (rows st) /\
  (forall r, r ∈ rows st -> is_selected st r = true ->
     (r ∉ rows st') /\
     (selectedColors st !! rowKey r = None -> New_Color r = None ->
      rowKey r ∈ dispatchedSet st')) /\
  dispatchedSet st ⊆ dispatchedSet st' /\
  (length (rows st') + length (selectedRows st) = length (rows st))%nat /\
  total st' = Z.max 0 (total st - Z.of_nat (length (selectedRows st))) /\
  checked st' = ∅.
Proof.
  intros Hne st'.
  assert (Hst : rows st' = List.filter (fun r => negb (is_selected st r)) (rows st) /\
                dispatchedSet st'
                = list_to_set (map dispatchedKey (selectedRows st)) ∪ dispatchedSet st /\
                total st' = Z.max 0 (total st - Z.of_nat (length (selectedRows st))) /\
                checked st' = ∅).
  { subst st'. unfold step. cbn [trace_of]. unfold handleSaveDispatched.
    rewrite bool_decide_eq_false_2 by now apply selectedRows_checked.
    destruct (selectedRows st) as [|sr l] eqn:E; [now destruct Hne|].
    now repeat split. }
  destruct Hst as (Hr & Hdisp & Ht & Hc).
  split; [exact Hr|]. split; [|split; [|split; [|split]]]; try assumption.
  - intros r Hin Hsel. split.
    + rewrite Hr, elem_of_lfilter. intros [_ Hn]. now rewrite Hsel in Hn.
    + intros Hs Hn. rewrite Hdisp. apply elem_of_union_l. apply elem_of_list_to_set.
      rewrite <- (dispatchedKey_rowKey st r Hs Hn).
      apply (list_elem_of_fmap_2 dispatchedKey). unfold selectedRows.
      apply (list_elem_of_fmap_2 (dispatch_out st)). now apply elem_of_lfilter.
  - rewrite Hdisp. intros x Hx. now apply elem_of_union_r.
  - rewrite Hr. unfold selectedRows. rewrite length_map. apply filter_negb_length.
Qed.

Lemma saved_rows_leave_the_table_witness :
  let st' := step Sample.builtins SampleState.so2_checked (SaveDispatched (Ok200 tt)) in
  rows st' = [] /\ total st' = 0 /\ "SO-2|ZED|CD34|BLUE" ∈ dispatchedSet st'.
Proof.
  assert (Hne : selectedRows SampleState.so2_checked <> []) by (vm_compute; discriminate).
  destruct (saved_rows_leave_the_table Sample.builtins SampleState.so2_checked Hne)
    as (Hr & Hk & _ & _ & Ht & _).
  split; [|split].
  - rewrite Hr. vm_compute. reflexivity.
  - rewrite Ht. vm_compute. reflexivity.
  - remember (rows SampleState.so2_checked) as l eqn:El. vm_compute in El.
    match type of El with _ = [?r] =>
      destruct (Hk r) as [_ Hd];
        [rewrite El; apply list_elem_of_singleton; reflexivity
        | vm_compute; reflexivity
        | exact (Hd eq_refl eq_refl)]
    end.
Defined.

(** *** Request verification *)

Lemma outgoingKey_rowKey st r o : outgoing st r = Some o -> outgoingKey o = rowKey r.
Proof.
  unfold outgoing. destruct (_ && _); [discriminate|]. intros [= <-].
  unfold outgoingKey, rowKey, makeDispatchKey. simpl. now destruct (SO_No r).
Qed.

Lemma rowsToSend_keys st r :
  r ∈ rows st -> outgoing st r <> None ->
  rowKey r ∈ map outgoingKey (rowsToSend st).
Proof.
  intros Hin Hout. destruct (outgoing st r) as [o|] eqn:E; [|now destruct Hout].
  rewrite <- (outgoingKey_rowKey st r o E).
  apply (list_elem_of_fmap_2 outgoingKey). unfold rowsToSend.
  apply list_elem_of_omap. now exists r.
Qed.

Lemma rowsToSend_key_visible st k :
  k ∈ map outgoingKey (rowsToSend st) -> exists r, r ∈ rows st /\ rowKey r = k.
Proof.
  intros H. apply list_elem_of_fmap_1 in H as (o & -> & Ho).
  unfold rowsToSend in Ho. apply list_elem_of_omap in Ho as (r & Hr & E).
  exists r. split; [exact Hr|]. symmetry. now apply (outgoingKey_rowKey st).
Qed.

Lemma remember_pending_keeps visible k keys : forall pm,
  remembered visible k pm -> remembered visible k (remember_pending visible keys pm).
Proof.
  unfold remember_pending.
  induction keys as [|k' keys IH]; intros pm H; [exact H|].
  simpl. apply IH.
  destruct (List.find _ visible) as [o|] eqn:E; [|exact H].
  destruct (decide (k' = k)) as [->|Hne].
  - exists o. rewrite lookup_insert_eq. apply List.find_some in E as [Hin Hk].
    apply String.eqb_eq in Hk. split; [reflexivity|]. split; [exact Hk|].
    now apply list_elem_of_In.
  - destruct H as (o' & H1 & H2 & H3). exists o'.
    rewrite lookup_insert_ne by exact Hne. now repeat split.
Qed.

Lemma remember_pending_adds visible k keys : forall pm,
  k ∈ keys -> (exists r, r ∈ visible /\ rowKey r = k) ->
  remembered visible k (remember_pending visible keys pm).
Proof.
  induction keys as [|k' keys IH]; intros pm Hin Hvis; [now apply elem_of_nil in Hin|].
  apply elem_of_cons in Hin as [<-|Hin].
  - change (remember_pending visible (k :: keys) pm)
      with (remember_pending visible keys
              match List.find (fun r => String.eqb (rowKey r) k) visible with
              | Some original => <[k := original]> pm
              | None => pm
              end).
    apply remember_pending_keeps.
    destruct (List.find _ visible) as [o|] eqn:E.
    + exists o. rewrite lookup_insert_eq. apply List.find_some in E as [Ho Hk].
      apply String.eqb_eq in Hk. split; [reflexivity|]. split; [exact Hk|].
      now apply list_elem_of_In.
    + destruct Hvis as (r & Hr & Hk). apply list_elem_of_In in Hr.
      pose proof (List.find_none _ _ E r Hr) as Hf. simpl in Hf.
      rewrite Hk, String.eqb_refl in Hf. discriminate Hf.
  - change (remember_pending visible (k' :: keys) pm)
      with (remember_pending visible keys
              match List.find (fun r => String.eqb (rowKey r) k') visible with
              | Some original => <[k' := original]> pm
              | None => pm
              end).
    now apply IH.
Qed.

(** What a successful request does to the rows and to the pending map. *)
Lemma requested_rows_sent js st :
  rowsToSend st <> [] ->
  let st' := step js st (RequestVerification (Ok200 tt)) in
  (forall r, r ∈ rows st' <->
             r ∈ rows st /\ rowKey r ∉ map outgoingKey (rowsToSend st)) /\
  (forall r, r ∈ rows st -> outgoing st r <> None ->
     rowKey r ∈ pendingSet st' /\
     exists original, pendingMap st' !! rowKey r = Some original /\
                      rowKey original = rowKey r /\ original ∈ rows st).
Proof.
  intros Hne st'.
  set (keys := map outgoingKey (rowsToSend st)).
  assert (Hst : rows st'
                = List.filter (fun r => negb (bool_decide (rowKey r ∈ keys))) (rows st) /\
                pendingSet st' = list_to_set keys ∪ pendingSet st /\
                pendingMap st' = remember_pending (rows st) keys (pendingMap st)).
  { subst st' keys. unfold step. cbn [trace_of]. unfold handleVerifySelected.
    destruct (rowsToSend st) as [|o l] eqn:E; [now destruct Hne|].
    now repeat split. }
  destruct Hst as (Hr & Hp & Hm). split.
  - intros r. rewrite Hr, elem_of_lfilter, negb_true_iff, bool_decide_eq_false.
    reflexivity.
  - intros r Hin Hout. pose proof (rowsToSend_keys st r Hin Hout) as Hk. split.
    + rewrite Hp. apply elem_of_union_l. now apply elem_of_list_to_set.
    + rewrite Hm. apply remember_pending_adds; [exact Hk|]. now exists r.
Qed.

(** X6: after a successful verification request for at least one row, every
    row that was sent (a checked row, or a row with a selected colour) has
    left the table, its
    key is in the pending set, and the pending map holds a visible row with
    that key; the total drops by the number of rows sent, not below zero,
    and the check marks are cleared. *)
Theorem requested_rows_become_pending js st :
  rowsToSend st <> [] ->
  let st' := step js st (RequestVerification (Ok200 tt)) in
  (forall r, r ∈ rows st' <->
             r ∈ rows st /\ rowKey r ∉ map outgoingKey (rowsToSend st)) /\
  (forall r, r ∈ rows st -> outgoing st r <> None ->
     (r ∉ rows st') /\ rowKey r ∈ pendingSet st' /\
     exists original, pendingMap st' !! rowKey r = Some original /\
                      rowKey original = rowKey r /\ original ∈ rows st) /\
  pendingSet st ⊆ pendingSet st' /\
  total st' = Z.max 0 (total st - Z.of_nat (length (rowsToSend st))) /\
  checked st' = ∅.
Proof.
  intros Hne st'.
  set (keys := map outgoingKey (rowsToSend st)).
  assert (Hst : rows st'
                = List.filter (fun r => negb (bool_decide (rowKey r ∈ keys))) (rows st) /\
                pendingSet st' = list_to_set keys ∪ pendingSet st /\
                pendingMap st' = remember_pending (rows st) keys (pendingMap st) /\
                total st' = Z.max 0 (total st - Z.of_nat (length (rowsToSend st))) /\
                checked st' = ∅).
  { subst st' keys. unfold step. cbn [trace_of]. unfold handleVerifySelected.
    destruct (rowsToSend st) as [|o l] eqn:E; [now destruct Hne|].
    now repeat split. }
  destruct Hst as (Hr & Hp & Hm & Ht & Hc).
  assert (Hrows : forall r, r ∈ rows st' <-> r ∈ rows st /\ rowKey r ∉ keys).
  { intros r. rewrite Hr, elem_of_lfilter, negb_true_iff, bool_decide_eq_false.
    reflexivity. }
  split; [exact Hrows|]. split; [|split; [|split]]; try assumption.
  - intros r Hin Hout. pose proof (rowsToSend_keys st r Hin Hout) as Hk.
    split; [|split].
    + rewrite Hrows. intros [_ Hn]. now apply Hn.
    + rewrite Hp. apply elem_of_union_l. now apply elem_of_list_to_set.
    + rewrite Hm. apply remember_pending_adds; [exact Hk|]. now exists r.
  - rewrite Hp. intros x Hx. now apply elem_of_union_r.
Qed.

Lemma requested_rows_become_pending_witness :
  let st' := step Sample.builtins SampleState.so2_checked (RequestVerification (Ok200 tt)) in
  rows st' = [] /\ total st' = 0 /\ "SO-2|ZED|CD34|BLUE" ∈ pendingSet st'.
Proof.
  assert (Hne : rowsToSend SampleState.so2_checked <> []) by (vm_compute; discriminate).
  destruct (requested_rows_become_pending Sample.builtins SampleState.so2_checked Hne)
    as (_ & Hk & _ & Ht & _).
  split; [|split].
  - vm_compute. reflexivity.
  - rewrite Ht. vm_compute. reflexivity.
  - remember (rows SampleState.so2_checked) as l eqn:El. vm_compute in El.
    match type of El with _ = [?r] =>
      destruct (Hk r) as (_ & Hp & _);
        [rewrite El; apply list_elem_of_singleton; reflexivity
        | vm_compute; discriminate
        | exact Hp]
    end.
Defined.

(** The rows a cycle shows have no key of the local pending map. *)
Lemma visible_rows_not_origin_pending js env filters pm body r :
  r ∈ visible_rows js env filters pm body -> rowKey r ∉ originPendingKeys pm.
Proof.
  unfold visible_rows, stocked_rows. rewrite final_rows_elem. intros (H & _ & _).
  apply stock_stage_elem in H as (r1 & H1 & E1).
  rewrite (rowKey_same_order _ _ E1).
  unfold surviving_rows in H1. apply elem_of_lfilter in H1 as [H1 _].
  unfold exclusions in H1. now apply exclude_keys_elem in H1 as [_ H1].
Qed.

Lemma rowKey_upper r : Str.toUpperCase (rowKey r) = rowKey r.
Proof. unfold rowKey. apply toUpperCase_idem. Qed.

Lemma origin_pending_key pm r original :
  pm !! rowKey r = Some original -> rowKey r ∈ originPendingKeys pm.
Proof.
  intros H. unfold originPendingKeys. apply elem_of_map. exists (rowKey r).
  split; [now rewrite rowKey_upper|]. apply elem_of_dom. now exists original.
Qed.

(** X7: a row sent for verification stays out of the table through the next
    reconciliation cycle, whatever the boundaries answer in that cycle and
    whenever it is superseded: the cycle excludes the keys of the local
    pending map, which the request has filled. *)
Theorem requested_rows_stay_hidden js st env filters r0 :
  r0 ∈ rows st -> outgoing st r0 <> None ->
  let st1 := step js st (RequestVerification (Ok200 tt)) in
  let st2 := step js st1 (ReconciliationCycle env filters) in
  forall r, r ∈ rows st2 -> rowKey r <> rowKey r0.
Proof.
  intros Hin Hout st1 st2.
  assert (Hne : rowsToSend st <> []).
  { intros E. pose proof (rowsToSend_keys st r0 Hin Hout) as Hk. rewrite E in Hk.
    now apply elem_of_nil in Hk. }
  destruct (requested_rows_sent js st Hne) as (Hrows & Hsent).
  fold st1 in Hrows, Hsent.
  destruct (Hsent r0 Hin Hout) as (Hk & original & Ho & _).
  set (I := fun s : State => forall r, r ∈ rows s -> rowKey r <> rowKey r0).
  assert (H1 : I st1).
  { intros r Hr E. apply Hrows in Hr as [_ Hr]. apply Hr. rewrite E.
    now apply rowsToSend_keys. }
  subst st2. unfold step at 1. cbn [trace_of].
  apply (run_invariant I); [|exact H1].
  apply load_inventory; try (intros; assumption).
  - split; [|intros; assumption]. intros s _ r Hr. now apply elem_of_nil in Hr.
  - intros body _. split; [|intros; assumption].
    intros s _ r Hr E. simpl in Hr.
    apply visible_rows_not_origin_pending in Hr. apply Hr. rewrite E.
    now apply origin_pending_key with original.
Qed.

Lemma requested_rows_stay_hidden_witness :
  let st1 := step Sample.builtins SampleState.so2_checked (RequestVerification (Ok200 tt)) in
  let st2 := step Sample.builtins st1
               (ReconciliationCycle Sample.env_dispatched Sample.no_filter) in
  Forall (fun r => rowKey r <> "SO-2|ZED|CD34|BLUE") (rows st2).
Proof.
  intros st1 st2. apply Forall_forall. intros r Hr.
  remember (rows SampleState.so2_checked) as l eqn:El. vm_compute in El.
  match type of El with _ = [?r0] =>
    apply (requested_rows_stay_hidden Sample.builtins SampleState.so2_checked
             Sample.env_dispatched Sample.no_filter r0);
      [vm_compute; constructor
      | vm_compute; discriminate
      | exact Hr]
  end.
Defined.

(** *** Cancel order *)

(** X8: a successful cancellation of an order that has a number marks every
    visible line of the order (every row with the order's number) as
    cancelled and touches no other row: the rows keep their place and their
    keys, the total is unchanged, and the dialog is closed. *)
Theorem cancel_marks_every_line_of_the_order js st order so :
  SO_No order = Some so -> so <> "" ->
  let st' := step js st (CancelOrderOf order (Ok200 tt)) in
  map rowKey (rows st') = map rowKey (rows st) /\
  total st' = total st /\
  (forall r', r' ∈ rows st' -> SO_No r' = Some so -> Status r' = Some "Cancelled") /\
  (forall r', r' ∈ rows st' -> SO_No r' <> Some so -> r' ∈ rows st) /\
  (forall r, r ∈ rows st -> SO_No r = Some so -> with_status "Cancelled" r ∈ rows st') /\
  cancelDialogOrder st' = None.
Proof.
  intros Hso Hne st'.
  set (mark := fun row => if bool_decide (SO_No row = SO_No order)
                          then with_status "Cancelled" row else row).
  assert (Hst : rows st' = map mark (rows st) /\ total st' = total st /\
                cancelDialogOrder st' = None).
  { subst st' mark. unfold step. cbn [trace_of]. unfold handleCancelOrder.
    rewrite Hso. destruct so; [now destruct Hne|]. now repeat split. }
  destruct Hst as (Hr & Ht & Hc).
  assert (Hmark : forall r, SO_No (mark r) = SO_No r).
  { intros r. unfold mark. now destruct (bool_decide _). }
  split; [|split; [exact Ht|split; [|split; [|split; [|exact Hc]]]]].
  - rewrite Hr, map_map. apply map_ext. intros r. unfold mark.
    now destruct (bool_decide _).
  - intros r' Hin Hr'. rewrite Hr in Hin.
    apply list_elem_of_fmap_1 in Hin as (r & -> & _).
    rewrite Hmark in Hr'. unfold mark.
    rewrite bool_decide_eq_true_2 by congruence. reflexivity.
  - intros r' Hin Hr'. rewrite Hr in Hin.
    apply list_elem_of_fmap_1 in Hin as (r & -> & Hin).
    rewrite Hmark in Hr'. unfold mark.
    rewrite bool_decide_eq_false_2 by congruence. exact Hin.
  - intros r Hin Hs. rewrite Hr.
    replace (with_status "Cancelled" r) with (mark r).
    + now apply (list_elem_of_fmap_2 mark).
    + unfold mark. rewrite bool_decide_eq_true_2 by congruence. reflexivity.
Qed.

Lemma cancel_marks_every_line_of_the_order_witness :
  let st' := step Sample.builtins SampleState.after_cycle
               (CancelOrderOf Sample.order2 (Ok200 tt)) in
  map Status (rows st') = [Some "Cancelled"] /\ total st' = total SampleState.after_cycle.
Proof.
  assert (Hne : "SO-2" <> "") by discriminate.
  destruct (cancel_marks_every_line_of_the_order Sample.builtins SampleState.after_cycle
              Sample.order2 "SO-2" eq_refl Hne) as (_ & Ht & _).
  split; [vm_compute; reflexivity | exact Ht].
Defined.

(** X9: a cancellation that fails (a response that is not 2xx, or a request
    that throws), or that is asked for an order without a number, leaves
    the whole state as it was. *)
Theorem failed_cancel_changes_nothing js st order (reply : response unit) :
  reply = NotOk \/ reply = NetError \/ SO_No order = None \/ SO_No order = Some "" ->
  step js st (CancelOrderOf order reply) = st.
Proof.
  intros H. unfold step. cbn [trace_of]. unfold handleCancelOrder.
  destruct H as [-> | [-> | [-> | ->]]]; try reflexivity;
    destruct (truthy_string (SO_No order)); reflexivity.
Qed.

Lemma failed_cancel_changes_nothing_witness :
  step Sample.builtins SampleState.after_cycle (CancelOrderOf Sample.order2 NotOk)
  = SampleState.after_cycle.
Proof.
  exact (failed_cancel_changes_nothing Sample.builtins SampleState.after_cycle
           Sample.order2 NotOk (or_introl eq_refl)).
Defined.

(** *** Cross-tab notification *)

Lemma on_message_state js st uuid incoming :
  let key := incoming_key incoming in
  let st' := step js st
               (CrossTabMessage uuid
                  (Some {| msg_type := Some "verified:confirmed";
                           msg_row := Some incoming |})) in
  rows st' = prepend_if_absent js uuid key (newRow js incoming) (rows st) /\
  pendingSet st' = pendingSet st ∖ {[key]} /\
  pendingMap st' = delete key (pendingMap st) /\
  selectedColors st'
  = (if Js.truthy (incoming !! "New_Color")
     then <[key := string_or_empty (incoming !! "New_Color")]> (selectedColors st)
     else selectedColors st).
Proof.
  unfold step, trace_of, on_message. cbn [msg_type msg_row].
  change (String.eqb "verified:confirmed" "verified:confirmed") with true.
  cbn [negb]. rewrite run_app.
  destruct (Js.truthy (incoming !! "New_Color")); now repeat split.
Qed.

Lemma prepend_if_absent_has_key js uuid incoming prev :
  exists r, r ∈ prepend_if_absent js uuid (incoming_key incoming) (newRow js incoming) prev
            /\ rowKey r = incoming_key incoming.
Proof.
  unfold prepend_if_absent.
  destruct (existsb _ prev) eqn:E.
  - apply DispatchFacts.existsb_key in E as (r & Hr & Hk). now exists r.
  - eexists. split; [apply list_elem_of_here|]. apply DispatchFacts.rowKey_newRow.
Qed.

(** X10: after a [verified:confirmed] message the table shows a row with the
    key the message carries, at most one row more than before, and the key
    is pending no longer (neither in the pending set nor in the pending
    map); the same confirmation arriving again (the channel and the window
    event both deliver it) changes neither the rows, nor the pending set
    and map, nor the selected colours. *)
Theorem repeated_confirmation_is_absorbed js st uuid uuid' incoming :
  let confirmation u :=
    CrossTabMessage u (Some {| msg_type := Some "verified:confirmed";
                               msg_row := Some incoming |}) in
  let st1 := step js st (confirmation uuid) in
  let st2 := step js st1 (confirmation uuid') in
  (exists r, r ∈ rows st1 /\ rowKey r = incoming_key incoming) /\
  (length (rows st1) <= S (length (rows st)))%nat /\
  (incoming_key incoming ∉ pendingSet st1) /\
  pendingMap st1 !! incoming_key incoming = None /\
  rows st2 = rows st1 /\ pendingSet st2 = pendingSet st1 /\
  pendingMap st2 = pendingMap st1 /\ selectedColors st2 = selectedColors st1.
Proof.
  intros confirmation st1 st2.
  destruct (on_message_state js st uuid incoming) as (Hr1 & Hp1 & Hm1 & Hc1).
  destruct (on_message_state js st1 uuid' incoming) as (Hr2 & Hp2 & Hm2 & Hc2).
  fold (confirmation uuid) in Hr1, Hp1, Hm1, Hc1. fold st1 in Hr1, Hp1, Hm1, Hc1.
  fold (confirmation uuid') in Hr2, Hp2, Hm2, Hc2. fold st1 in Hr2, Hp2, Hm2, Hc2.
  fold st2 in Hr2, Hp2, Hm2, Hc2.
  pose proof (prepend_if_absent_has_key js uuid incoming (rows st)) as Hex.
  rewrite <- Hr1 in Hex.
  split; [exact Hex|]. split; [|split; [|split; [|split; [|split; [|split]]]]].
  - rewrite Hr1. unfold prepend_if_absent. destruct (existsb _ _); simpl; lia.
  - rewrite Hp1. intros Hin. apply elem_of_difference in Hin as [_ Hin].
    apply Hin. now apply elem_of_singleton.
  - rewrite Hm1. apply lookup_delete_eq.
  - rewrite Hr2. unfold prepend_if_absent.
    replace (existsb _ (rows st1)) with true; [reflexivity|].
    symmetry. now apply DispatchFacts.existsb_key.
  - rewrite Hp2, Hp1. apply set_eq. intros x. rewrite !elem_of_difference. intuition.
  - rewrite Hm2, Hm1. apply delete_delete_eq.
  - rewrite Hc2, Hc1. destruct (Js.truthy _); [|reflexivity].
    apply insert_insert_eq.
Qed.

End HandlerFacts.

(** ** The invoice and stock stages of the cycle *)

Module StageFacts.
Import Table Effects Cycle Pipeline Reconciler StageProps.

Section with_builtins.
Context (js : Builtins).

















(** *** Stock batch *)

Lemma add_counted_fold l : forall a,
  fold_left add_counted l (Some (Fin a)) = Some (Fin (a + foldr Z.add 0 l)).
Proof.
  induction l as [|z l IH]; intros a; simpl; [f_equal; f_equal; lia|].
  unfold add_counted at 2. simpl. rewrite IH. f_equal. f_equal. lia.
Qed.

Lemma add_counted_sum l :
  fold_left add_counted l None
  = match l with [] => None | _ => Some (Fin (foldr Z.add 0 l)) end.
Proof.
  destruct l as [|z l]; [reflexivity|]. simpl. unfold add_counted at 2. simpl.
  now rewrite add_counted_fold.
Qed.

Lemma stock_step_total m s k :
  k <> "" -> closing_value js s <> PInf -> closing_value js s <> NInf ->
  totalStockMap (stock_step js m s) !! k
  = match counted js k s with
    | Some z => add_counted (totalStockMap m !! k) z
    | None => totalStockMap m !! k
    end.
Proof.
  intros Hk Hp Hn. unfold stock_step, counted. fold (stock_norm s).
  destruct (String.eqb_spec (stock_norm s) k) as [E|E].
  - rewrite E. destruct k; [now destruct Hk|]. simpl Str.is_empty. cbv iota.
    destruct (closing_value js s) as [z| | |]; simpl; try congruence.
    now rewrite lookup_insert_eq.
  - destruct (Str.is_empty (stock_norm s)); [reflexivity|].
    destruct (Num.is_nan (closing_value js s)); [reflexivity|]. simpl.
    now rewrite lookup_insert_ne.
Qed.

Lemma stock_fold_total k stockRows : forall m,
  k <> "" -> no_infinite_stock js stockRows ->
  totalStockMap (fold_left (stock_step js) stockRows m) !! k
  = fold_left add_counted (omap (counted js k) stockRows) (totalStockMap m !! k).
Proof.
  induction stockRows as [|s l IH]; intros m Hk Hfin; [reflexivity|].
  simpl. rewrite IH; [|exact Hk|intros s' Hs'; apply Hfin; now apply list_elem_of_further].
  destruct (Hfin s (list_elem_of_here _ _)) as [Hp Hn].
  rewrite (stock_step_total m s k Hk Hp Hn).
  now destruct (counted js k s).
Qed.

Lemma annotated_stock (stockRows : list StockRow) (r : SalesOrderRow) :
  no_infinite_stock js stockRows -> stock_item_key r <> "" ->
  Stock (annotate_stock (aggregate_stock js stockRows) r)
  = match omap (counted js (stock_item_key r)) stockRows with
    | [] => None
    | _ => Some (Fin (stock_sum js (stock_item_key r) stockRows))
    end.
Proof.
  intros Hfin Hk. unfold annotate_stock.
  destruct (stock_item_key r) as [|c k] eqn:E; [now destruct Hk|].
  simpl Str.is_empty. cbv iota. cbn [Stock with_stock].
  unfold aggregate_stock. rewrite (stock_fold_total _ _ _ Hk Hfin).
  cbn [totalStockMap]. rewrite lookup_empty. apply add_counted_sum.
Qed.

(** X12: the stock a cycle attaches to an order row that has an item is the
    sum of the closing stocks of all stock records of the row's item
    (whatever their colour), the records whose closing stock is not a number
    being left out; a row for whose item no record counts gets no stock at
    all.  No closing stock is taken to be an infinity. *)
Theorem stock_is_summed_over_the_item (stockRows : list StockRow) (r : SalesOrderRow) :
  no_infinite_stock js stockRows -> stock_item_key r <> "" ->
  Stock (annotate_stock (aggregate_stock js stockRows) r)
  = match omap (counted js (stock_item_key r)) stockRows with
    | [] => None
    | _ => Some (Fin (stock_sum js (stock_item_key r) stockRows))
    end.
Proof. apply annotated_stock. Qed.

End with_builtins.


Lemma stock_is_summed_over_the_item_witness :
  Stock (annotate_stock (aggregate_stock Sample.builtins StageSample.stock_records)
           Sample.order1) = Some (Fin 7).
Proof.
  rewrite (stock_is_summed_over_the_item Sample.builtins StageSample.stock_records
             Sample.order1).
  - vm_compute. reflexivity.
  - intros s Hs. vm_compute in Hs.
    repeat (apply elem_of_cons in Hs as [->|Hs]; [vm_compute; split; discriminate|]).
    now apply elem_of_nil in Hs.
  - vm_compute. discriminate.
Defined.

End StageFacts.

(** ** The verification boundary: server and client *)

Module VerifyMoreFacts.
Import Str Verify Cycle Props VerifyProps VerifyFacts StrFacts.

Lemma merge_fold_distinct rows : forall acc,
  NoDup (acc.*1 ++ map rowGroupKey rows) ->
  fold_left merge_step rows acc = (acc ++ map (fun r => (rowGroupKey r, r)) rows)%list.
Proof.
  induction rows as [|r rows IH]; intros acc Hnd; simpl.
  - now rewrite app_nil_r.
  - assert (Hfresh : map_get (rowGroupKey r) acc = None).
    { apply map_get_none. intros Hin. apply NoDup_app in Hnd as (_ & Hd & _).
      apply (Hd _ Hin). apply list_elem_of_here. }
    unfold merge_step at 2. rewrite Hfresh. rewrite IH.
    + now rewrite <- app_assoc.
    + rewrite fmap_app. simpl. rewrite <- app_assoc. exact Hnd.
Qed.

Lemma map_replace_length {V} k (v : V) m : length (map_replace k v m) = length m.
Proof.
  rewrite <- (length_fmap fst (map_replace k v m)), map_replace_keys.
  apply length_fmap.
Qed.

Lemma merge_fold_length rows : forall acc,
  (length (fold_left merge_step rows acc) <= length acc + length rows)%nat.
Proof.
  induction rows as [|r rows IH]; intros acc; simpl; [lia|].
  etransitivity; [apply IH|]. unfold merge_step.
  destruct (map_get (rowGroupKey r) acc).
  - rewrite map_replace_length. lia.
  - rewrite length_app. simpl. lia.
Qed.

(** X14: the server-side merge never returns more records than it is given,
    and it returns the records as they are, in their order, when no two of
    them share a composite key. *)
Theorem mergeVerifyRows_keeps_distinct_records (rows : list jsrecord) :
  (length (mergeVerifyRows rows) <= length rows)%nat /\
  (NoDup (map rowGroupKey rows) -> mergeVerifyRows rows = rows).
Proof.
  unfold mergeVerifyRows, merge_map. split.
  - rewrite length_fmap. apply (merge_fold_length rows []).
  - intros Hnd. rewrite (merge_fold_distinct rows []) by exact Hnd. cbn [app].
    clear Hnd. induction rows as [|r rows IH]; [reflexivity|].
    change (r :: (map (fun r => (rowGroupKey r, r)) rows).*2 = r :: rows).
    now rewrite IH.
Qed.

Lemma mergeVerifyRows_keeps_distinct_records_witness :
  mergeVerifyRows [VerifySample.first_submission; VerifySample.other_line]
  = [VerifySample.first_submission; VerifySample.other_line].
Proof.
  apply (proj2 (mergeVerifyRows_keeps_distinct_records
                  [VerifySample.first_submission; VerifySample.other_line])).
  vm_compute. repeat constructor; intros H; inversion H; subst;
    try discriminate; match goal with H' : _ ∈ [] |- _ => inversion H' end.
Defined.

(** *** The two timestamp tests *)







(** *** The client's index of the verification records *)

Lemma toUpperCase_app a b : toUpperCase (a ++ b) = toUpperCase a ++ toUpperCase b.
Proof.
  induction a as [|c a IH]; [reflexivity|].
  change (String (upper_char c) (toUpperCase (a ++ b))
          = String (upper_char c) (toUpperCase a ++ toUpperCase b)).
  now rewrite IH.
Qed.

Lemma makeDispatchKey_upper so c i col :
  toUpperCase (makeDispatchKey so c i col) = makeDispatchKey so c i col.
Proof.
  unfold makeDispatchKey, normalizeFieldForKey.
  rewrite !toUpperCase_app, !toUpperCase_idem. reflexivity.
Qed.

Lemma recordKey_rowGroupKey r : recordKey r = rowGroupKey r.
Proof. unfold recordKey. apply makeDispatchKey_upper. Qed.

Lemma index_snoc l r :
  index_verifications (l ++ [r]) = index_record (index_verifications l) r.
Proof. unfold index_verifications. now rewrite fold_left_app. Qed.

Lemma index_keys l k :
  k ∈ localPendingSet (index_verifications l) ∪ localVerifiedSet (index_verifications l)
  -> k ∈ map recordKey l.
Proof.
  induction l as [|r l IH] using rev_ind.
  - unfold index_verifications. simpl. intros H. now apply elem_of_union in H as [H|H].
  - rewrite index_snoc, map_app. unfold index_record.
    destruct (verifyHasTimestamp _); simpl; intros H;
      apply elem_of_app; rewrite !elem_of_union, ?elem_of_singleton in H;
      (destruct H as [[->|H]|H] || destruct H as [H|[->|H]]);
      try (right; apply list_elem_of_here);
      left; apply IH; apply elem_of_union; auto.
Qed.

(** X16: the table files a verification record under the composite key by
    which the server groups it.  When no two records of the response share
    that key (the merge returns one record per group), the index holds each
    record under its key, and the key is in the pending set exactly when the
    record has no timestamp, in the verified set exactly when it has one. *)
Theorem verification_index_is_faithful (vrows : list jsrecord) :
  NoDup (map rowGroupKey vrows) ->
  forall r, r ∈ vrows ->
    recordKey r = rowGroupKey r /\
    verifyMap (index_verifications vrows) !! rowGroupKey r = Some r /\
    (rowGroupKey r ∈ localPendingSet (index_verifications vrows)
     <-> verifyHasTimestamp (r !! "verified_at") = false) /\
    (rowGroupKey r ∈ localVerifiedSet (index_verifications vrows)
     <-> verifyHasTimestamp (r !! "verified_at") = true).
Proof.
  induction vrows as [|r0 l IH] using rev_ind; intros Hnd r Hin;
    [now apply elem_of_nil in Hin|].
  split; [apply recordKey_rowGroupKey|].
  rewrite map_app in Hnd. apply NoDup_app in Hnd as (Hl & Hfresh & _).
  assert (Hnew : rowGroupKey r0 ∉
                 localPendingSet (index_verifications l)
                 ∪ localVerifiedSet (index_verifications l)).
  { intros H. apply index_keys in H. apply list_elem_of_fmap_1 in H as (r' & E & Hr').
    rewrite recordKey_rowGroupKey in E. apply (Hfresh (rowGroupKey r0)).
    - rewrite E. now apply (list_elem_of_fmap_2 rowGroupKey).
    - apply list_elem_of_here. }
  rewrite index_snoc. unfold index_record. rewrite recordKey_rowGroupKey.
  apply elem_of_app in Hin as [Hin|Hin].
  - destruct (IH Hl r Hin) as (_ & Hm & Hp & Hv).
    assert (Hne : rowGroupKey r0 <> rowGroupKey r).
    { intros E. apply (Hfresh (rowGroupKey r0)).
      - rewrite E. now apply (list_elem_of_fmap_2 rowGroupKey).
      - apply list_elem_of_here. }
    destruct (verifyHasTimestamp (r0 !! "verified_at")); simpl;
      rewrite lookup_insert_ne by exact Hne;
      (split; [exact Hm|]); rewrite ?elem_of_union, ?elem_of_singleton;
      rewrite <- Hp, <- Hv; intuition congruence.
  - apply list_elem_of_singleton in Hin as ->.
    rewrite not_elem_of_union in Hnew. destruct Hnew as [Hnp Hnv].
    destruct (verifyHasTimestamp (r0 !! "verified_at")); simpl;
      rewrite lookup_insert_eq; (split; [reflexivity|]);
      rewrite ?elem_of_union, ?elem_of_singleton; intuition congruence.
Qed.

Lemma verification_index_is_faithful_witness :
  verifyMap (index_verifications [VerifySample.second_submission; VerifySample.other_line])
    !! "S1|ACME|I-9|RED" = Some VerifySample.second_submission /\
  "S2|ZED|I-9|RED" ∈ localPendingSet
    (index_verifications [VerifySample.second_submission; VerifySample.other_line]).
Proof.
  assert (Hnd : NoDup (map rowGroupKey
                         [VerifySample.second_submission; VerifySample.other_line])).
  { vm_compute. repeat constructor; intros H; inversion H; subst;
      try discriminate; match goal with H' : _ ∈ [] |- _ => inversion H' end. }
  pose proof (verification_index_is_faithful _ Hnd) as H.
  split.
  - destruct (H VerifySample.second_submission (list_elem_of_here _ _)) as (_ & Hm & _).
    exact Hm.
  - destruct (H VerifySample.other_line) as (_ & _ & Hp & _).
    + apply list_elem_of_further, list_elem_of_here.
    + apply Hp. vm_compute. reflexivity.
Defined.

(** *** The merged records and their keys *)

Lemma rowGroupKey_parts (r : jsrecord) :
  rowGroupKey r
  = match key_parts r with
    | [so; customer; item; color] => so ++ "|" ++ customer ++ "|" ++ item ++ "|" ++ color
    | _ => ""
    end.
Proof. reflexivity. Qed.

Lemma same_key_same_parts (a b : jsrecord) :
  separable a -> separable b -> rowGroupKey a = rowGroupKey b -> key_parts a = key_parts b.
Proof.
  unfold separable. rewrite !rowGroupKey_parts. unfold key_parts. cbn [map].
  intros Ha Hb E.
  repeat match goal with H : Forall _ (_ :: _) |- _ => apply Forall_cons in H as [? H] end.
  apply append_pipe_inj in E as [-> E]; [|assumption..].
  apply append_pipe_inj in E as [-> E]; [|assumption..].
  apply append_pipe_inj in E as [-> E]; [|assumption..].
  now rewrite E.
Qed.

(** A key field of the merged record is read like the field of the record
    that was there, when the incoming record reads the same. *)
Lemma merge_val_part prop (e v : option jsval) :
  String.eqb prop "verified_at" = false ->
  normalizeKeyPart (Js.as_string v) = normalizeKeyPart (Js.as_string e) ->
  normalizeKeyPart (Js.as_string (merge_val prop e v)) = normalizeKeyPart (Js.as_string e).
Proof.
  intros Hp E. unfold merge_val. destruct v as [w|]; [|reflexivity].
  rewrite Hp. destruct (is_vacant e); [|reflexivity].
  destruct (Js.nullish (Some w)); [reflexivity | exact E].
Qed.

Lemma merge_into_parts (existing r : jsrecord) :
  key_parts r = key_parts existing -> key_parts (merge_into existing r) = key_parts existing.
Proof.
  unfold key_parts. cbn [map]. intros E.
  injection E as E1 E2 E3 E4.
  rewrite !merge_into_lookup.
  rewrite !merge_val_part by (reflexivity || assumption). reflexivity.
Qed.

Lemma parts_key (a b : jsrecord) : key_parts a = key_parts b -> rowGroupKey a = rowGroupKey b.
Proof. rewrite !rowGroupKey_parts. now intros ->. Qed.

Lemma map_get_some {V} k (v : V) m : map_get k m = Some v -> (k, v) ∈ m.
Proof.
  induction m as [|[k0 v0] m IH]; simpl; [discriminate|].
  destruct (String.eqb k k0) eqn:E.
  - apply String.eqb_eq in E as ->. intros [= ->]. apply list_elem_of_here.
  - intros H. apply list_elem_of_further, IH, H.
Qed.

Lemma Forall_map_replace {V} (P : string * V -> Prop) k (v : V) m :
  Forall P m -> P (k, v) -> Forall P (map_replace k v m).
Proof.
  intros Hm Hv. induction Hm as [|[k0 v0] m H0 Hm IH]; simpl; [constructor|].
  destruct (String.eqb k k0) eqn:E.
  - apply String.eqb_eq in E as <-. now constructor.
  - now constructor.
Qed.

(** Every record of the map has the key it is filed under, as long as the
    keys take their parts apart. *)
Lemma merge_fold_filed rows : forall acc,
  (forall r, r ∈ rows -> separable r) ->
  Forall (fun ke => rowGroupKey ke.2 = ke.1 /\ separable ke.2) acc ->
  Forall (fun ke => rowGroupKey ke.2 = ke.1 /\ separable ke.2) (fold_left merge_step rows acc).
Proof.
  induction rows as [|r rows IH]; intros acc Hs Hacc; simpl; [exact Hacc|].
  assert (Hr : separable r) by (apply Hs, list_elem_of_here).
  apply IH; [intros r' Hr'; apply Hs, list_elem_of_further, Hr'|].
  unfold merge_step. destruct (map_get (rowGroupKey r) acc) as [existing|] eqn:E.
  - apply map_get_some in E.
    destruct (proj1 (Forall_forall _ _) Hacc _ E) as [Hk He]. cbn [fst snd] in Hk, He.
    pose proof (same_key_same_parts _ _ Hr He (eq_sym Hk)) as Hp.
    apply Forall_map_replace; [exact Hacc|]. cbn [fst snd]. split.
    + rewrite <- Hk. apply parts_key, merge_into_parts, Hp.
    + unfold separable. now rewrite (merge_into_parts _ _ Hp).
  - apply Forall_app. split; [exact Hacc|]. constructor; [|constructor].
    split; [reflexivity | exact Hr].
Qed.

Lemma filed_keys (m : list (string * jsrecord)) :
  Forall (fun ke => rowGroupKey ke.2 = ke.1 /\ separable ke.2) m ->
  map rowGroupKey m.*2 = m.*1.
Proof.
  induction 1 as [|[k e] m [Hk _] _ IH]; [reflexivity|].
  cbn [fst snd] in Hk.
  change (rowGroupKey e :: map rowGroupKey m.*2 = k :: m.*1). now rewrite Hk, IH.
Qed.

(** X29: the records the merge returns have pairwise distinct composite
    keys, one for each key of the input, and merging them again changes
    nothing, as long as no key part of a record (order number, customer,
    item, colour, normalised) holds the separator [|] of the key.  With the
    separator in a part, the merge can return two records with one key. *)
Theorem merged_records_have_distinct_keys :
  (forall rows : list jsrecord,
     (forall r, r ∈ rows -> separable r) ->
     NoDup (map rowGroupKey (mergeVerifyRows rows)) /\
     (forall k, k ∈ map rowGroupKey (mergeVerifyRows rows)
                <-> exists r, r ∈ rows /\ rowGroupKey r = k) /\
     mergeVerifyRows (mergeVerifyRows rows) = mergeVerifyRows rows) /\
  ~ NoDup (map rowGroupKey (mergeVerifyRows MergeSample.records)).
Proof.
  split.
  - intros rows Hs.
    assert (Hk : map rowGroupKey (mergeVerifyRows rows) = (merge_map rows).*1).
    { apply filed_keys, merge_fold_filed; [exact Hs | constructor]. }
    destruct (merge_fold_keys rows [] (NoDup_nil_2 (A:=string))) as [Hnd Hin].
    fold (merge_map rows) in Hnd, Hin.
    assert (Hd : NoDup (map rowGroupKey (mergeVerifyRows rows))) by now rewrite Hk.
    split; [exact Hd|]. split.
    + intros k. rewrite Hk, Hin. split.
      * intros [H|H]; [now apply elem_of_nil in H | exact H].
      * intros H. now right.
    + remember (mergeVerifyRows rows) as merged eqn:Em.
      unfold mergeVerifyRows at 1, merge_map.
      rewrite (merge_fold_distinct merged []) by exact Hd. cbn [app].
      clear. induction merged as [|r l IH]; [reflexivity|].
      change (r :: (map (fun r => (rowGroupKey r, r)) l).*2 = r :: l).
      now rewrite IH.
  - vm_compute. intros H. apply NoDup_cons in H as [H _]. apply H.
    apply list_elem_of_here.
Qed.

Lemma merged_records_have_distinct_keys_witness :
  NoDup (map rowGroupKey (mergeVerifyRows VerifySample.submissions)) /\
  mergeVerifyRows (mergeVerifyRows VerifySample.submissions)
  = mergeVerifyRows VerifySample.submissions.
Proof.
  destruct (proj1 merged_records_have_distinct_keys VerifySample.submissions)
    as (Hd & _ & Hi).
  - intros r Hr. unfold VerifySample.submissions in Hr.
    repeat (apply elem_of_cons in Hr as [->|Hr]); [..|now apply elem_of_nil in Hr];
      vm_compute; repeat constructor.
  - split; [exact Hd | exact Hi].
Defined.

End VerifyMoreFacts.

(** ** The server-side merge: one record per key *)

Module MergeFacts.
Import Str Verify VerifyProps VerifyFacts StrFacts.

Lemma separated_same_parts (a b : jsrecord) :
  separated a -> separated b -> rowGroupKey a = rowGroupKey b -> key_parts a = key_parts b.
Proof.
  unfold separated. rewrite !VerifyMoreFacts.rowGroupKey_parts.
  unfold key_parts. cbn [map take].
  intros Ha Hb E.
  repeat match goal with H : Forall _ (_ :: _) |- _ => apply Forall_cons in H as [? H] end.
  apply append_pipe_inj in E as [-> E]; [|assumption..].
  apply append_pipe_inj in E as [-> E]; [|assumption..].
  apply append_pipe_inj in E as [-> E]; [|assumption..].
  now rewrite E.
Qed.

(** Every record of the map has the key it is filed under, as long as the
    keys of the input take their parts apart. *)
Lemma merge_fold_separated rows : forall acc,
  (forall r, r ∈ rows -> separated r) ->
  Forall (fun ke => rowGroupKey ke.2 = ke.1 /\ separated ke.2) acc ->
  Forall (fun ke => rowGroupKey ke.2 = ke.1 /\ separated ke.2)
         (fold_left merge_step rows acc).
Proof.
  induction rows as [|r rows IH]; intros acc Hs Hacc; simpl; [exact Hacc|].
  assert (Hr : separated r) by (apply Hs, list_elem_of_here).
  apply IH; [intros r' Hr'; apply Hs, list_elem_of_further, Hr'|].
  unfold merge_step. destruct (map_get (rowGroupKey r) acc) as [existing|] eqn:E.
  - apply VerifyMoreFacts.map_get_some in E.
    destruct (proj1 (Forall_forall _ _) Hacc _ E) as [Hk He]. cbn [fst snd] in Hk, He.
    pose proof (separated_same_parts _ _ Hr He (eq_sym Hk)) as Hp.
    apply VerifyMoreFacts.Forall_map_replace; [exact Hacc|]. cbn [fst snd]. split.
    + rewrite <- Hk. apply VerifyMoreFacts.parts_key, VerifyMoreFacts.merge_into_parts, Hp.
    + unfold separated. now rewrite (VerifyMoreFacts.merge_into_parts _ _ Hp).
  - apply Forall_app. split; [exact Hacc|]. constructor; [|constructor].
    split; [reflexivity | exact Hr].
Qed.

Lemma separated_keys (m : list (string * jsrecord)) :
  Forall (fun ke => rowGroupKey ke.2 = ke.1 /\ separated ke.2) m ->
  map rowGroupKey m.*2 = m.*1.
Proof.
  induction 1 as [|[k e] m [Hk _] _ IH]; [reflexivity|].
  cbn [fst snd] in Hk.
  change (rowGroupKey e :: map rowGroupKey m.*2 = k :: m.*1). now rewrite Hk, IH.
Qed.

(** The counterexample to C4 as stated: three records whose order numbers
    and customers hold the separator.  The first two share a composite key
    and are merged; the merged record has the composite key of the third,
    and the merge returns both: two records of one key. *)
Lemma merge_returns_two_records_of_one_key :
  map rowGroupKey MergeSample.records = ["A|B|||"; "A|B|||"; "A|B|B|||"] /\
  map rowGroupKey (mergeVerifyRows MergeSample.records) = ["A|B|B|||"; "A|B|B|||"].
Proof. vm_compute. split; reflexivity. Qed.

(** C4 (amended): the merge groups the records by their composite key and
    returns exactly one record per group; in it every property holds the
    first non-null, non-blank value that the records of the group give to
    it, in input order, and [verified_at] holds the value of the first
    record that has a timestamp.  When no order number, customer or item of
    a record holds the separator of the key after normalisation, the record
    of a group has the key of the group: the merge returns exactly one
    record per composite key. *)
Theorem mergeVerifyRows_first_wins (rows : list jsrecord) :
  mergeVerifyRows rows = (merge_map rows).*2 /\
  NoDup (merge_map rows).*1 /\
  (forall k, k ∈ (merge_map rows).*1 <-> exists r, r ∈ rows /\ rowGroupKey r = k) /\
  (forall k (m : jsrecord), (k, m) ∈ merge_map rows ->
     (forall prop v, prop <> "verified_at" ->
        first_nonempty (column prop (group k rows)) = Some v -> m !! prop = Some v) /\
     (forall v, first_timestamp (column "verified_at" (group k rows)) = Some v ->
        m !! "verified_at" = Some v)) /\
  ((forall r, r ∈ rows -> separated r) ->
   (forall k (m : jsrecord), (k, m) ∈ merge_map rows -> rowGroupKey m = k) /\
   NoDup (map rowGroupKey (mergeVerifyRows rows)) /\
   (forall k, k ∈ map rowGroupKey (mergeVerifyRows rows)
              <-> exists r, r ∈ rows /\ rowGroupKey r = k) /\
   (forall m : jsrecord, m ∈ mergeVerifyRows rows ->
      (forall prop v, prop <> "verified_at" ->
         first_nonempty (column prop (group (rowGroupKey m) rows)) = Some v ->
         m !! prop = Some v) /\
      (forall v, first_timestamp (column "verified_at" (group (rowGroupKey m) rows)) = Some v ->
         m !! "verified_at" = Some v))).
Proof.
  split; [reflexivity|].
  destruct (merge_fold_keys rows [] (NoDup_nil_2 (A:=string))) as [Hnd Hk].
  fold (merge_map rows) in Hnd, Hk.
  assert (Hkeys : forall k, k ∈ (merge_map rows).*1 <-> exists r, r ∈ rows /\ rowGroupKey r = k).
  { intros k. rewrite Hk. split; [|auto].
    intros [H|H]; [now apply elem_of_nil in H | exact H]. }
  assert (Hfields : forall k (m : jsrecord), (k, m) ∈ merge_map rows ->
     (forall prop v, prop <> "verified_at" ->
        first_nonempty (column prop (group k rows)) = Some v -> m !! prop = Some v) /\
     (forall v, first_timestamp (column "verified_at" (group k rows)) = Some v ->
        m !! "verified_at" = Some v)).
  { intros k m Hin. apply (map_get_elem _ _ _ Hnd) in Hin.
    unfold merge_map in Hin. rewrite merge_fold_get in Hin. simpl in Hin.
    destruct (group k rows) as [|r g] eqn:G; [discriminate|].
    injection Hin as <-. split.
    - intros prop v Hp H. rewrite fold_merge_into_lookup.
      now apply first_nonempty_fold.
    - intros v H. rewrite fold_merge_into_lookup.
      now apply first_timestamp_fold. }
  split; [exact Hnd|]. split; [exact Hkeys|]. split; [exact Hfields|].
  intros Hs.
  pose proof (merge_fold_separated rows [] Hs (Forall_nil_2 _)) as Hf.
  fold (merge_map rows) in Hf.
  assert (Hfiled : forall k (m : jsrecord), (k, m) ∈ merge_map rows -> rowGroupKey m = k).
  { intros k m Hin. now destruct (proj1 (Forall_forall _ _) Hf _ Hin) as [H _]. }
  assert (Hret : map rowGroupKey (mergeVerifyRows rows) = (merge_map rows).*1).
  { now apply separated_keys. }
  split; [exact Hfiled|]. rewrite Hret. split; [exact Hnd|]. split; [exact Hkeys|].
  intros m Hm. unfold mergeVerifyRows in Hm.
  apply list_elem_of_fmap_1 in Hm as ([k m'] & -> & Hin). cbn [snd].
  rewrite (Hfiled k m' Hin). now apply Hfields.
Qed.

(** Two partial submissions for one order line and a third record for
    another line: the merge returns two records with two keys, and the
    record of the first line holds the first values that are not empty and
    the first timestamp. *)
Lemma mergeVerifyRows_first_wins_witness :
  map rowGroupKey (mergeVerifyRows VerifySample.submissions)
  = ["S1|ACME|I-9|RED"; "S2|ZED|I-9|RED"] /\
  NoDup (map rowGroupKey (mergeVerifyRows VerifySample.submissions)) /\
  exists m : jsrecord,
    m ∈ mergeVerifyRows VerifySample.submissions /\
    rowGroupKey m = "S1|ACME|I-9|RED" /\
    m !! "New_Color" = Some (JStr "blue") /\
    m !! "Size" = Some (JStr "XL") /\
    m !! "Color" = Some (JStr "red") /\
    m !! "verified_at" = Some (JStr "2024-01-05").
Proof.
  destruct (mergeVerifyRows_first_wins VerifySample.submissions)
    as (_ & _ & _ & _ & Hsep).
  destruct Hsep as (_ & Hnd & Hk & Hm).
  - intros r Hr. unfold VerifySample.submissions in Hr.
    repeat (apply elem_of_cons in Hr as [->|Hr]); [..|now apply elem_of_nil in Hr];
      vm_compute; repeat constructor.
  - split; [vm_compute; reflexivity|]. split; [exact Hnd|].
    assert (Hin : "S1|ACME|I-9|RED"
                  ∈ map rowGroupKey (mergeVerifyRows VerifySample.submissions)).
    { apply Hk. exists VerifySample.first_submission.
      split; [left | vm_compute; reflexivity]. }
    apply list_elem_of_fmap_1 in Hin as (m & Hkm & Hin).
    exists m. split; [exact Hin|]. split; [now symmetry|].
    destruct (Hm m Hin) as [Hp Hv]. rewrite <- Hkm in Hp, Hv.
    repeat split.
    + apply Hp; [discriminate | vm_compute; reflexivity].
    + apply Hp; [discriminate | vm_compute; reflexivity].
    + apply Hp; [discriminate | vm_compute; reflexivity].
    + apply Hv. vm_compute; reflexivity.
Defined.

End MergeFacts.

(** ** The grouped view *)

Module ViewFacts.
Import Table Effects Cycle Pipeline View ViewProps VerifyFacts SortingFacts.

Section with_builtins.
Context (js : Builtins) (localeCompare : string -> string -> Z).

#[local] Abbreviation row_ts := (View.row_ts js).
#[local] Abbreviation sort_by_date := (View.sort_by_date js localeCompare).
#[local] Abbreviation grouped := (View.grouped js localeCompare).
#[local] Abbreviation add_row := (View.add_row js).
#[local] Abbreviation new_group := (View.new_group js).

(** *** Cells *)

Lemma formatCell_string s :
  formatCell (Some (JStr s))
  = if Str.is_empty (Str.trim s) then JStr ""
    else if String.eqb (Str.toLowerCase (Str.trim s)) "nan" then JStr ""
    else JStr (Str.trim s).
Proof. reflexivity. Qed.

(** X27: what a cell shows is presentable: a number that is not NaN, or a
    string that is empty or else trimmed and not [nan] in any case of the
    letters.  Formatting is insensitive to white space around a string, and
    formatting what a cell shows changes nothing. *)
Theorem formatCell_is_presentable_and_stable (value : option jsval) :
  presentable (formatCell value) /\
  formatCell (Some (formatCell value)) = formatCell value /\
  (forall s, value = Some (JStr s) ->
             formatCell (Some (JStr (Str.trim s))) = formatCell value).
Proof.
  assert (Hstr : forall s, presentable (formatCell (Some (JStr s))) /\
                           formatCell (Some (formatCell (Some (JStr s))))
                           = formatCell (Some (JStr s))).
  { intros s. rewrite formatCell_string.
    destruct (Str.is_empty (Str.trim s)) eqn:Ee; [split; [now left | reflexivity]|].
    destruct (String.eqb_spec (Str.toLowerCase (Str.trim s)) "nan") as [En|En];
      [split; [now left | reflexivity]|].
    split; [right; split; [apply StrFacts.trim_idem | exact En]|].
    rewrite formatCell_string, StrFacts.trim_idem, Ee.
    destruct (String.eqb_spec (Str.toLowerCase (Str.trim s)) "nan"); [contradiction|].
    reflexivity. }
  split; [|split].
  - destruct value as [[|[]|n|s|o]|]; try (simpl; left; reflexivity);
      try (simpl; right; split; [reflexivity | discriminate]).
    + simpl. destruct (Num.is_nan n) eqn:E; simpl; [now left | exact E].
    + apply Hstr.
  - destruct value as [[|[]|n|s|o]|]; try reflexivity.
    + simpl. destruct (Num.is_nan n) eqn:E; simpl; [reflexivity | now rewrite E].
    + apply Hstr.
  - intros s ->. now rewrite !formatCell_string, StrFacts.trim_idem.
Qed.

Lemma formatCell_is_presentable_and_stable_witness :
  formatCell (Some (JStr "Acme")) = formatCell (Some (JStr "  Acme ")).
Proof.
  exact (proj2 (proj2 (formatCell_is_presentable_and_stable (Some (JStr "  Acme "))))
           "  Acme " eq_refl).
Defined.

(** *** Time values *)

Lemma row_ts_time r : is_time (row_ts r) = true.
Proof.
  unfold View.row_ts, parseDateToTs.
  destruct (orElse _ _) as [v|]; [|reflexivity].
  destruct (Str.is_empty _); [reflexivity|].
  destruct (Date_parse js (Str.trim v)); [reflexivity|].
  destruct (match dmy_to_iso_like (Str.trim v) with Some _ => _ | None => _ end);
    [reflexivity|].
  now destruct (Date_parse js (dots_to_dashes (Str.trim v))).
Qed.

Lemma num_min_time a b : is_time a = true -> is_time b = true -> is_time (num_min a b) = true.
Proof. now destruct a, b. Qed.

Lemma ts_le_refl a : is_time a = true -> ts_le a a.
Proof. destruct a; simpl; try discriminate; intros _; [lia | exact I]. Qed.

Lemma ts_le_trans a b c : ts_le a b -> ts_le b c -> ts_le a c.
Proof. destruct a, b, c; simpl; try tauto; lia. Qed.

Lemma num_min_le_l a b : is_time a = true -> is_time b = true -> ts_le (num_min a b) a.
Proof. destruct a, b; simpl; try discriminate; intros _ _; try exact I; lia. Qed.

Lemma num_min_le_r a b : is_time a = true -> is_time b = true -> ts_le (num_min a b) b.
Proof. destruct a, b; simpl; try discriminate; intros _ _; try exact I; lia. Qed.

Lemma num_min_either a b :
  is_time a = true -> is_time b = true -> num_min a b = a \/ num_min a b = b.
Proof.
  destruct a as [x| | |], b as [y| | |]; simpl; try discriminate; intros _ _; auto.
  destruct (Z.min_spec x y) as [[_ ->]|[_ ->]]; auto.
Qed.

(** The comparators order by time first. *)
Lemma positive_by_time ta tb (z : Z) :
  is_time ta = true -> is_time tb = true ->
  let c := if negb (Num.strict_eq ta tb) then Num.sub ta tb else Fin z in
  (Num.positive c = false -> ts_le ta tb) /\ (Num.positive c = true -> ts_le tb ta).
Proof.
  destruct ta as [x| | |], tb as [y| | |]; simpl; try discriminate; intros _ _;
    try (split; intros; first [exact I | discriminate]).
  destruct (Z.eqb_spec x y) as [->|Hne]; simpl.
  - split; intros _; lia.
  - split; intros H; [apply Z.ltb_ge in H | apply Z.ltb_lt in H]; lia.
Qed.

Lemma sort_by_date_sorted l :
  StronglySorted (fun a b => ts_le (row_ts a) (row_ts b)) (sort_by_date l).
Proof.
  apply (sort_by_sorted _ (fun a b => ts_le (row_ts a) (row_ts b)) (fun _ => True)).
  - intros a b _ _ H.
    now apply (positive_by_time _ _ (localeCompare (orEmpty (SO_No a)) (orEmpty (SO_No b)))
                 (row_ts_time a) (row_ts_time b)).
  - intros a b _ _ H.
    now apply (positive_by_time _ _ (localeCompare (orEmpty (SO_No a)) (orEmpty (SO_No b)))
                 (row_ts_time a) (row_ts_time b)).
  - intros a b c _ _ _. apply ts_le_trans.
  - now apply Forall_forall.
Qed.

Lemma sort_by_date_perm l : sort_by_date l ≡ₚ l.
Proof. apply sort_by_perm. Qed.

(** *** Sums and minima *)

Lemma sum_qty_perm l l' : l ≡ₚ l' -> sum_qty l = sum_qty l'.
Proof.
  unfold sum_qty. induction 1; simpl; lia.
Qed.

Lemma sum_qty_snoc l r : sum_qty (l ++ [r]) = sum_qty l + qty r.
Proof. unfold sum_qty. induction l as [|x l IH]; simpl in *; lia. Qed.

Lemma add_row_fold l : forall g,
  let g' := fold_left add_row l g in
  g_key g' = g_key g /\ labelParts g' = labelParts g /\
  g_rows g' = (g_rows g ++ l)%list /\
  count g' = count g + Z.of_nat (length l) /\
  sum g' = sum g + sum_qty l /\
  minTimestamp g' = fold_left (fun m r => num_min m (row_ts r)) l (minTimestamp g).
Proof.
  induction l as [|r l IH]; intros g; simpl.
  - rewrite app_nil_r. unfold sum_qty. simpl. repeat split; lia.
  - destruct (IH (add_row g r)) as (H1 & H2 & H3 & H4 & H5 & H6).
    rewrite H1, H2, H3, H4, H5, H6. simpl. rewrite <- app_assoc. simpl.
    unfold sum_qty. simpl. repeat split; lia.
Qed.

(** The running minimum is below its start and below every row, and it is
    the start or the time of a row. *)
Lemma running_min l : forall m,
  is_time m = true ->
  let m' := fold_left (fun m r => num_min m (row_ts r)) l m in
  is_time m' = true /\ ts_le m' m /\
  Forall (fun r => ts_le m' (row_ts r)) l /\
  (m' = m \/ exists r, r ∈ l /\ m' = row_ts r).
Proof.
  induction l as [|r l IH]; intros m Hm; simpl.
  - repeat split; [exact Hm | now apply ts_le_refl | constructor | now left].
  - pose proof (row_ts_time r) as Hr.
    destruct (IH _ (num_min_time _ _ Hm Hr)) as (Ht & Hle & Hall & Hex).
    split; [exact Ht|]. split; [|split].
    + eapply ts_le_trans; [exact Hle | now apply num_min_le_l].
    + constructor; [|exact Hall].
      eapply ts_le_trans; [exact Hle | now apply num_min_le_r].
    + destruct Hex as [->|(r' & Hr' & ->)].
      * destruct (num_min_either _ _ Hm Hr) as [->| ->]; [now left|].
        right. exists r. split; [apply list_elem_of_here | reflexivity].
      * right. exists r'. split; [now apply list_elem_of_further | reflexivity].
Qed.

(** *** The loop over the rows *)

Section with_keys.
Context (keys : list string).

#[local] Abbreviation step := (group_step js keys).

Lemma group_step_keys m r :
  (step m r).*1
  = if decide (group_key keys r ∈ m.*1) then m.*1
    else (m.*1 ++ [group_key keys r])%list.
Proof.
  unfold group_step. destruct (Verify.map_get (group_key keys r) m) as [e|] eqn:E.
  - rewrite map_replace_keys. rewrite decide_True; [reflexivity|].
    destruct (decide (group_key keys r ∈ m.*1)) as [H|H]; [exact H|].
    apply map_get_none in H. congruence.
  - apply map_get_none in E. rewrite decide_False by exact E.
    now rewrite fmap_app.
Qed.

Lemma group_fold_nodup rows : forall acc,
  NoDup acc.*1 -> NoDup (fold_left step rows acc).*1.
Proof.
  induction rows as [|r rows IH]; intros acc Hnd; simpl; [exact Hnd|].
  apply IH. rewrite group_step_keys. case_decide; [exact Hnd|].
  apply NoDup_app. repeat split; [exact Hnd | | apply NoDup_singleton].
  intros x Hx Hx'. apply list_elem_of_singleton in Hx'. now subst.
Qed.

Lemma group_fold_get k rows : forall acc,
  Verify.map_get k (fold_left step rows acc)
  = match Verify.map_get k acc, members keys k rows with
    | Some e, g => Some (fold_left add_row g e)
    | None, [] => None
    | None, r :: g => Some (fold_left add_row g (new_group keys r))
    end.
Proof.
  unfold members.
  induction rows as [|r rows IH]; intros acc; simpl.
  - now destruct (Verify.map_get k acc).
  - rewrite IH. unfold group_step.
    destruct (String.eqb k (group_key keys r)) eqn:E.
    + apply String.eqb_eq in E. subst k.
      destruct (Verify.map_get (group_key keys r) acc) as [e|] eqn:Ea.
      * now rewrite map_get_replace, Ea, String.eqb_refl.
      * now rewrite map_get_app, Ea, String.eqb_refl.
    + destruct (Verify.map_get (group_key keys r) acc) as [e|] eqn:Ea.
      * rewrite map_get_replace, E. now destruct (Verify.map_get k acc).
      * rewrite map_get_app, E. now destruct (Verify.map_get k acc).
Qed.

Lemma all_rows_app l1 l2 : all_rows (l1 ++ l2) = (all_rows l1 ++ all_rows l2)%list.
Proof. unfold all_rows. now rewrite map_app, concat_app. Qed.

Lemma all_rows_replace k e r : forall m,
  Verify.map_get k m = Some e ->
  all_rows (Verify.map_replace k (add_row e r) m).*2 ≡ₚ r :: all_rows m.*2.
Proof.
  induction m as [|[k' g] m IH]; simpl; [discriminate|].
  destruct (String.eqb k k'); intros H.
  - injection H as ->. unfold all_rows. simpl.
    rewrite <- app_assoc. simpl. now rewrite <- Permutation_middle.
  - unfold all_rows in *. simpl. rewrite (IH H). now rewrite Permutation_middle.
Qed.

Lemma group_fold_perm rows : forall acc,
  all_rows (fold_left step rows acc).*2 ≡ₚ (all_rows acc.*2 ++ rows)%list.
Proof.
  induction rows as [|r rows IH]; intros acc; simpl; [now rewrite app_nil_r|].
  rewrite IH. rewrite <- Permutation_middle.
  apply (Permutation_app_tail rows (l' := r :: all_rows acc.*2)).
  unfold group_step. destruct (Verify.map_get _ acc) as [e|] eqn:E.
  - now apply all_rows_replace.
  - rewrite fmap_app, all_rows_app. unfold all_rows at 2. simpl.
    now rewrite <- Permutation_cons_append.
Qed.

(** What the loop leaves for a key. *)
Lemma group_fold_elem rows k g :
  (k, g) ∈ fold_left step rows [] ->
  exists r l, members keys k rows = r :: l /\ g = fold_left add_row l (new_group keys r).
Proof.
  intros Hin.
  pose proof (group_fold_nodup rows [] (NoDup_nil_2)) as Hnd.
  pose proof (map_get_elem _ _ _ Hnd Hin) as Hget.
  rewrite group_fold_get in Hget. simpl in Hget.
  destruct (members keys k rows) as [|r l]; [discriminate|].
  injection Hget as <-. now exists r, l.
Qed.

End with_keys.

(** *** The groups *)

Lemma effectiveGroupKeys_known groupBy :
  effectiveGroupKeys groupBy <> [] /\
  Forall (fun k => k ∈ ALL_GROUP_KEYS) (effectiveGroupKeys groupBy).
Proof.
  assert (Hdef : Forall (fun k => k ∈ ALL_GROUP_KEYS) ["Customer"]).
  { repeat constructor. }
  unfold effectiveGroupKeys. destruct groupBy as [[|g l]|]; try (split; [discriminate|exact Hdef]).
  destruct (List.filter _ (g :: l)) as [|k arr] eqn:E; [split; [discriminate|exact Hdef]|].
  split; [discriminate|]. rewrite <- E. apply Forall_forall. intros x Hx.
  apply TableFacts.elem_of_lfilter in Hx as [_ Hx]. now apply bool_decide_eq_true in Hx.
Qed.

Lemma all_rows_perm l l' : l ≡ₚ l' -> all_rows l ≡ₚ all_rows l'.
Proof.
  unfold all_rows. induction 1; simpl.
  - reflexivity.
  - now apply Permutation_app_head.
  - rewrite !app_assoc. apply Permutation_app_tail, Permutation_app_comm.
  - etransitivity; eassumption.
Qed.

Lemma all_rows_sorted_groups l :
  all_rows (map (sort_group_rows js localeCompare) l) ≡ₚ all_rows l.
Proof.
  unfold all_rows. induction l as [|g l IH]; simpl; [reflexivity|].
  now rewrite IH, sort_by_date_perm.
Qed.

Lemma grouped_elem rows keys g :
  keys <> [] -> g ∈ grouped rows keys ->
  exists k g0, (k, g0) ∈ fold_left (group_step js keys) rows []
               /\ g = sort_group_rows js localeCompare g0.
Proof.
  intros Hk Hin. unfold View.grouped in Hin. destruct keys as [|k0 keys]; [now destruct Hk|].
  apply elem_of_sort_by in Hin. apply list_elem_of_fmap_1 in Hin as (g0 & -> & Hin).
  apply list_elem_of_fmap_1 in Hin as ([k g1] & -> & Hin). now exists k, g1.
Qed.

Lemma grouped_perm rows keys :
  keys <> [] -> grouped rows keys ≡ₚ
                map (sort_group_rows js localeCompare) (fold_left (group_step js keys) rows []).*2.
Proof.
  intros Hk. unfold View.grouped. destruct keys; [now destruct Hk|]. apply sort_by_perm.
Qed.

Lemma keys_of_groups (m : list (string * Group)) :
  (forall k g, (k, g) ∈ m -> g_key g = k) ->
  map g_key (map (sort_group_rows js localeCompare) m.*2) = m.*1.
Proof.
  induction m as [|[k g] m IH]; intros H; [reflexivity|].
  change (g_key g :: map g_key (map (sort_group_rows js localeCompare) m.*2) = k :: m.*1).
  f_equal; [apply H, list_elem_of_here|].
  apply IH. intros k' g' Hin. apply H. now apply list_elem_of_further.
Qed.

(** What a group of the view is made of. *)
Lemma grouped_group rows keys g :
  keys <> [] -> g ∈ grouped rows keys ->
  exists r l,
    members keys (g_key g) rows = r :: l /\
    g_rows g = sort_by_date (r :: l) /\
    count g = 1 + Z.of_nat (length l) /\
    sum g = sum_qty (r :: l) /\
    minTimestamp g = fold_left (fun m r => num_min m (row_ts r)) l (row_ts r).
Proof.
  intros Hk Hin. apply grouped_elem in Hin as (k & g0 & Hin & ->); [|exact Hk].
  destruct (group_fold_elem keys rows k g0 Hin) as (r & l & Hm & ->).
  destruct (add_row_fold l (new_group keys r)) as (H1 & _ & H3 & H4 & H5 & H6).
  assert (Ek : group_key keys r = k).
  { assert (Hr : r ∈ members keys k rows) by (rewrite Hm; apply list_elem_of_here).
    apply TableFacts.elem_of_lfilter in Hr as [_ Hr]. symmetry. now apply String.eqb_eq. }
  exists r, l. cbn [g_key g_rows count sum minTimestamp sort_group_rows].
  rewrite H1, H3, H4, H5, H6. cbn [g_key g_rows count sum minTimestamp View.new_group].
  rewrite Ek. repeat split; try assumption; try reflexivity.
Qed.

(** X17: the grouped view is a partition of the visible rows.  The groups
    are formed by the effective group keys, which are never empty (so the
    ungrouped branch is never taken) and always among the five known keys;
    every visible row is in exactly one group (the groups together are a
    permutation of the rows), no group is empty, no two groups have the same
    key, the rows of a group all have the group's key, and a group's count
    and sum are the number of its rows and the sum of their quantities. *)
Theorem grouping_partitions_the_rows (rows : list SalesOrderRow)
    (groupBy : option (list string)) :
  let keys := effectiveGroupKeys groupBy in
  let groups := grouped rows keys in
  keys <> [] /\ Forall (fun k => k ∈ ALL_GROUP_KEYS) keys /\
  all_rows groups ≡ₚ rows /\
  NoDup (map g_key groups) /\
  Forall (fun g =>
            g_rows g <> [] /\
            Forall (fun r => group_key keys r = g_key g) (g_rows g) /\
            count g = Z.of_nat (length (g_rows g)) /\
            sum g = sum_qty (g_rows g)) groups.
Proof.
  intros keys groups.
  destruct (effectiveGroupKeys_known groupBy) as [Hk Hall]. fold keys in Hk, Hall.
  split; [exact Hk|]. split; [exact Hall|]. split; [|split].
  - subst groups. rewrite (all_rows_perm _ _ (grouped_perm rows keys Hk)).
    rewrite all_rows_sorted_groups.
    now rewrite (group_fold_perm keys rows []).
  - subst groups. rewrite (grouped_perm rows keys Hk).
    pose proof (group_fold_nodup keys rows [] (NoDup_nil_2)) as Hnd.
    replace (map g_key (map (sort_group_rows js localeCompare)
                          (fold_left (group_step js keys) rows []).*2))
      with ((fold_left (group_step js keys) rows []).*1); [exact Hnd|].
    assert (Hkeys : forall k g, (k, g) ∈ fold_left (group_step js keys) rows [] ->
                                g_key g = k).
    { intros k g Hin. destruct (group_fold_elem keys rows k g Hin) as (r & l & Hm & ->).
      destruct (add_row_fold l (new_group keys r)) as (-> & _).
      assert (Hr : r ∈ members keys k rows) by (rewrite Hm; apply list_elem_of_here).
      apply TableFacts.elem_of_lfilter in Hr as [_ Hr].
      symmetry. now apply String.eqb_eq. }
    symmetry. now apply keys_of_groups.
  - apply Forall_forall. intros g Hg.
    destruct (grouped_group rows keys g Hk Hg) as (r & l & Hm & Hr & Hc & Hs & _).
    assert (Hp : g_rows g ≡ₚ r :: l) by (rewrite Hr; apply sort_by_date_perm).
    split; [|split; [|split]].
    + intros E. rewrite E in Hp. now apply Permutation_nil_cons in Hp.
    + apply Forall_forall. intros x Hx. rewrite Hp, <- Hm in Hx.
      apply TableFacts.elem_of_lfilter in Hx as [_ Hx]. symmetry. now apply String.eqb_eq.
    + rewrite Hc, (Permutation_length Hp). simpl. lia.
    + rewrite Hs. symmetry. now apply sum_qty_perm.
Qed.

(** X18: the grouped view is ordered by date.  Inside a group the rows stand
    by ascending order date, the rows without a date the parser reads last;
    a group's earliest date is the date of one of its rows and no row of the
    group is earlier; and the groups stand by ascending earliest date. *)
Theorem groups_are_ordered_by_date (rows : list SalesOrderRow)
    (groupBy : option (list string)) :
  let groups := grouped rows (effectiveGroupKeys groupBy) in
  StronglySorted (fun a b => ts_le (minTimestamp a) (minTimestamp b)) groups /\
  Forall (fun g =>
            StronglySorted (fun a b => ts_le (row_ts a) (row_ts b)) (g_rows g) /\
            Forall (fun r => ts_le (minTimestamp g) (row_ts r)) (g_rows g) /\
            exists r, r ∈ g_rows g /\ minTimestamp g = row_ts r) groups.
Proof.
  intros groups.
  destruct (effectiveGroupKeys_known groupBy) as [Hk _].
  set (keys := effectiveGroupKeys groupBy) in *.
  assert (Hgroup : forall g, g ∈ groups ->
            is_time (minTimestamp g) = true /\
            StronglySorted (fun a b => ts_le (row_ts a) (row_ts b)) (g_rows g) /\
            Forall (fun r => ts_le (minTimestamp g) (row_ts r)) (g_rows g) /\
            exists r, r ∈ g_rows g /\ minTimestamp g = row_ts r).
  { intros g Hg.
    destruct (grouped_group rows keys g Hk Hg) as (r & l & _ & Hr & _ & _ & Hmin).
    assert (Hp : g_rows g ≡ₚ r :: l) by (rewrite Hr; apply sort_by_date_perm).
    destruct (running_min l (row_ts r) (row_ts_time r)) as (Ht & Hle & Hall & Hex).
    cbv zeta in Ht, Hle, Hall, Hex. rewrite <- Hmin in Ht, Hle, Hall, Hex.
    split; [exact Ht|]. split; [rewrite Hr; apply sort_by_date_sorted|]. split.
    - apply Forall_forall. intros x Hx. rewrite Hp in Hx.
      apply elem_of_cons in Hx as [->|Hx]; [exact Hle|].
      now apply (proj1 (Forall_forall _ _) Hall).
    - destruct Hex as [E|(x & Hx & E)].
      + exists r. split; [rewrite Hp; apply list_elem_of_here | exact E].
      + exists x. split; [rewrite Hp; now apply list_elem_of_further | exact E]. }
  split.
  - subst groups. unfold View.grouped in *. destruct keys as [|k0 keys']; [now destruct Hk|].
    apply (sort_by_sorted _ (fun a b => ts_le (minTimestamp a) (minTimestamp b))
             (fun g => g ∈ Sorting.sort_by
                             (fun a b => Num.positive (compare_groups localeCompare a b))
                             (map (sort_group_rows js localeCompare)
                                (fold_left (group_step js (k0 :: keys')) rows []).*2))).
    + intros a b Ha Hb H.
      now apply (positive_by_time _ _ (localeCompare (g_key a) (g_key b))
                   (proj1 (Hgroup a Ha)) (proj1 (Hgroup b Hb))).
    + intros a b Ha Hb H.
      now apply (positive_by_time _ _ (localeCompare (g_key a) (g_key b))
                   (proj1 (Hgroup a Ha)) (proj1 (Hgroup b Hb))).
    + intros a b c _ _ _. apply ts_le_trans.
    + apply Forall_forall. intros g Hg. now apply elem_of_sort_by.
  - apply Forall_forall. intros g Hg. now apply Hgroup.
Qed.

End with_builtins.

End ViewFacts.

(** ** Check marks, buttons and badges *)

Module SelectionFacts.
Import Table Effects Cycle Pipeline Actions Dashboard View ViewProps TableFacts.

Lemma elem_selected c k : k ∈ selected_uids c <-> c !! k = Some true.
Proof.
  unfold selected_uids. rewrite elem_of_dom. split.
  - intros [x Hx]. apply map_lookup_filter_Some in Hx as [H1 H2]. simpl in H2.
    now subst x.
  - intros H. exists true. now apply map_lookup_filter_Some.
Qed.

Lemma count_cons k (b : bool) (l : list (string * bool)) :
  length (List.filter (fun b : bool => b) ((k, b) :: l).*2)
  = ((if b then 1 else 0) + length (List.filter (fun b : bool => b) l.*2))%nat.
Proof. now destruct b. Qed.

Lemma count_perm (l l' : list (string * bool)) :
  l ≡ₚ l' ->
  length (List.filter (fun b : bool => b) l.*2) = length (List.filter (fun b : bool => b) l'.*2).
Proof.
  induction 1 as [|[k b] l l' _ IH|[k b] [k' b'] l|l l' l'' _ IH1 _ IH2].
  - reflexivity.
  - rewrite !count_cons. now rewrite IH.
  - rewrite !count_cons. lia.
  - now rewrite IH1.
Qed.

Lemma selected_insert c i (x : bool) :
  c !! i = None ->
  selected_uids (<[i := x]> c) = (if x then {[i]} ∪ selected_uids c else selected_uids c)
  /\ i ∉ selected_uids c.
Proof.
  intros Hi. split.
  - apply set_eq. intros k. destruct x; rewrite ?elem_of_union, ?elem_of_singleton,
      !elem_selected; destruct (decide (k = i)) as [->|Hne];
      rewrite ?lookup_insert_eq, ?lookup_insert_ne by congruence;
      rewrite ?Hi; intuition congruence.
  - rewrite elem_selected, Hi. discriminate.
Qed.

Lemma selectedCount_size c : selectedCount c = size (selected_uids c).
Proof.
  induction c as [|i x c Hi IH] using map_ind.
  - reflexivity.
  - destruct (selected_insert c i x Hi) as [-> Hfresh].
    unfold selectedCount in *. rewrite (count_perm _ _ (map_to_list_insert c i x Hi)).
    rewrite count_cons, IH. destruct x; [|reflexivity].
    rewrite size_union by (apply disjoint_singleton_l; exact Hfresh).
    now rewrite size_singleton.
Qed.

Lemma selectedCount_zero c : selectedCount c = 0%nat <-> selected_uids c = ∅.
Proof. rewrite selectedCount_size, size_empty_iff. apply leibniz_equiv_iff. Qed.

Lemma toggle_selected u c k :
  k ∈ selected_uids (toggleRowCheckedByUid u c)
  <-> (k = u /\ u ∉ selected_uids c) \/ (k <> u /\ k ∈ selected_uids c).
Proof.
  unfold toggleRowCheckedByUid. rewrite !elem_selected.
  destruct (decide (k = u)) as [->|Hne].
  - rewrite lookup_insert_eq. destruct (c !! u) as [[]|]; simpl; intuition congruence.
  - rewrite lookup_insert_ne by congruence. intuition congruence.
Qed.

(** X19: a click on the check box of a row changes the set of checked rows
    by that row only (the row is added if it was not checked, removed if it
    was), so that the counter the buttons show, which is the number of
    checked rows, moves by exactly one; a second click restores the set. *)
Theorem check_mark_toggles_one_row (u : string) (c : gmap string bool) :
  let c' := toggleRowCheckedByUid u c in
  (forall k, k ∈ selected_uids c'
             <-> (k = u /\ u ∉ selected_uids c) \/ (k <> u /\ k ∈ selected_uids c)) /\
  selectedCount c = size (selected_uids c) /\
  selectedCount c'
  = (if bool_decide (u ∈ selected_uids c) then selectedCount c - 1 else selectedCount c + 1)%nat /\
  selected_uids (toggleRowCheckedByUid u c') = selected_uids c.
Proof.
  intros c'. split; [apply toggle_selected|]. split; [apply selectedCount_size|]. split.
  - rewrite !selectedCount_size. case_bool_decide as Hu.
    + replace (selected_uids c') with (selected_uids c ∖ {[u]}).
      * rewrite size_difference by (apply singleton_subseteq_l; exact Hu).
        now rewrite size_singleton.
      * apply set_eq. intros k. subst c'.
        rewrite toggle_selected, elem_of_difference, elem_of_singleton. intuition.
    + replace (selected_uids c') with ({[u]} ∪ selected_uids c).
      * rewrite size_union by (apply disjoint_singleton_l; exact Hu).
        rewrite size_singleton. lia.
      * apply set_eq. intros k. subst c'.
        rewrite toggle_selected, elem_of_union, elem_of_singleton.
        destruct (decide (k = u)) as [->|]; intuition.
  - apply set_eq. intros k. subst c'. rewrite !toggle_selected.
    destruct (decide (k = u)) as [->|Hne]; [|intuition].
    destruct (decide (u ∈ selected_uids c)); intuition.
Qed.

(** *** The buttons *)

Lemma nothing_to_send st :
  selected_uids (checked st) = ∅ -> selectedColors st = ∅ -> rowsToSend st = [].
Proof.
  intros Hc Hs. unfold rowsToSend.
  induction (rows st) as [|r l IH]; [reflexivity|].
  simpl. unfold outgoing at 1. rewrite Hs, lookup_empty, Hc.
  rewrite bool_decide_eq_false_2 by set_solver. simpl. exact IH.
Qed.

(** X20: a button that is disabled although no request is under way has
    nothing to do: with no check mark the save handler returns at once, and
    with neither a check mark nor a selected colour the verification handler
    finds no row to send; conversely the save button is enabled only when
    some row is checked. *)
Theorem disabled_buttons_have_nothing_to_do js st (reply : response unit) :
  (save_disabled st = true -> saving st = false ->
   trace_of js st (SaveDispatched reply) = []) /\
  (verify_disabled st = true -> verifying st = false ->
   trace_of js st (RequestVerification reply) = []) /\
  (save_disabled st = false -> selected_uids (checked st) <> ∅).
Proof.
  unfold save_disabled, verify_disabled. split; [|split].
  - intros H Hs. rewrite Hs, orb_false_r in H. apply Nat.eqb_eq, selectedCount_zero in H.
    cbn [trace_of]. unfold handleSaveDispatched. now rewrite H, bool_decide_eq_true_2.
  - intros H Hv. rewrite Hv, orb_false_r in H. apply andb_true_iff in H as [Hc Hs].
    apply Nat.eqb_eq, selectedCount_zero in Hc. apply bool_decide_eq_true in Hs.
    cbn [trace_of]. unfold handleVerifySelected. now rewrite nothing_to_send.
  - intros H Hempty. apply orb_false_iff in H as [H _]. apply Nat.eqb_neq in H.
    apply H. now apply selectedCount_zero.
Qed.

Lemma disabled_buttons_have_nothing_to_do_witness :
  trace_of Sample.builtins SampleState.after_cycle (SaveDispatched (Ok200 tt)) = [] /\
  trace_of Sample.builtins SampleState.after_cycle (RequestVerification (Ok200 tt)) = [].
Proof.
  destruct (disabled_buttons_have_nothing_to_do Sample.builtins SampleState.after_cycle
              (Ok200 tt)) as (Hs & Hv & _).
  split; [apply Hs | apply Hv]; vm_compute; reflexivity.
Defined.

(** *** The badge of the other orders *)

Lemma NoDup_lfilter {A} (p : A -> bool) l : NoDup l -> NoDup (List.filter p l).
Proof.
  induction 1 as [|x l Hx Hl IH]; simpl; [constructor|].
  destruct (p x); [|exact IH]. constructor; [|exact IH].
  rewrite elem_of_lfilter. now intros [H _].
Qed.

Lemma set_add_elem so s x : x ∈ set_add so s <-> x ∈ s \/ x = so.
Proof.
  unfold set_add. case_bool_decide as H.
  - split; [now left|]. now intros [Hx| ->].
  - rewrite elem_of_app, list_elem_of_singleton. reflexivity.
Qed.

Lemma set_add_nodup so s : NoDup s -> NoDup (set_add so s).
Proof.
  intros Hs. unfold set_add. case_bool_decide as H; [exact Hs|].
  apply NoDup_app. split; [exact Hs|]. split; [|apply NoDup_singleton].
  intros x Hx Hx'. apply list_elem_of_singleton in Hx'. now subst.
Qed.

Lemma itemToSOs_step_elem m r k so :
  so ∈ default [] (itemToSOs_step m r !! k)
  <-> so ∈ default [] (m !! k)
      \/ (item_of r = k /\ k <> "" /\ number_of r = so /\ so <> "").
Proof.
  unfold itemToSOs_step. fold (item_of r). fold (number_of r).
  destruct (item_of r) as [|c i] eqn:Ei; simpl Str.is_empty; cbv iota.
  - split; [now left|]. intros [H|(<- & H & _)]; [exact H | now destruct H].
  - destruct (number_of r) as [|c' n] eqn:En; simpl Str.is_empty; cbv iota.
    + split; [now left|]. intros [H|(_ & _ & <- & H)]; [exact H | now destruct H].
    + destruct (decide (String c i = k)) as [<-|Hne].
      * rewrite lookup_insert_eq. simpl. rewrite set_add_elem.
        split; intros [H|H]; auto.
        -- right. subst so. repeat split; discriminate.
        -- right. now destruct H as (_ & _ & <- & _).
      * rewrite lookup_insert_ne by exact Hne.
        split; [now left|]. now intros [H|(H & _)].
Qed.

Lemma itemToSOs_fold_elem rows : forall m k so,
  so ∈ default [] (fold_left itemToSOs_step rows m !! k)
  <-> so ∈ default [] (m !! k)
      \/ exists r, r ∈ rows /\ item_of r = k /\ k <> "" /\ number_of r = so /\ so <> "".
Proof.
  induction rows as [|r rows IH]; intros m k so; simpl.
  - split; [now left|]. intros [H|(r & Hr & _)]; [exact H | now apply elem_of_nil in Hr].
  - rewrite IH, itemToSOs_step_elem. split.
    + intros [[H|H]|(r' & Hr' & H)]; [now left| |].
      * right. exists r. split; [apply list_elem_of_here | exact H].
      * right. exists r'. split; [now apply list_elem_of_further | exact H].
    + intros [H|(r' & Hr' & H)]; [now left; left|].
      apply elem_of_cons in Hr' as [->|Hr']; [left; now right|].
      right. now exists r'.
Qed.

Lemma itemToSOs_fold_nodup rows : forall m,
  (forall k, NoDup (default [] (m !! k))) ->
  forall k, NoDup (default [] (fold_left itemToSOs_step rows m !! k)).
Proof.
  induction rows as [|r rows IH]; intros m Hm; simpl; [exact Hm|].
  apply IH. intros k. unfold itemToSOs_step.
  destruct (Str.is_empty _); [apply Hm|]. destruct (Str.is_empty _); [apply Hm|].
  destruct (decide (normItemKey (orElse (Item r) (ItemCode r)) = k)) as [<-|Hne].
  - rewrite lookup_insert_eq. simpl. apply set_add_nodup, Hm.
  - rewrite lookup_insert_ne by exact Hne. apply Hm.
Qed.

(** X21: the badge of a row lists, each once, exactly the order numbers
    (trimmed, not empty) of the visible rows that have the row's item, after
    normalisation, other than the row's own order number; a row without an
    item has no badge. *)
Theorem badge_lists_the_other_orders_of_the_item (rows : list SalesOrderRow)
    (r : SalesOrderRow) :
  NoDup (otherSos rows r) /\
  (forall so, so ∈ otherSos rows r
              <-> so <> number_of r /\ so <> "" /\ item_of r <> "" /\
                  exists r', r' ∈ rows /\ item_of r' = item_of r /\ number_of r' = so).
Proof.
  unfold otherSos. fold (item_of r). fold (number_of r). split.
  - apply NoDup_lfilter.
    apply (itemToSOs_fold_nodup rows ∅).
    intros k. rewrite lookup_empty. constructor.
  - intros so. rewrite elem_of_lfilter, negb_true_iff.
    unfold itemToSOs. rewrite itemToSOs_fold_elem, lookup_empty. simpl.
    rewrite elem_of_nil. split.
    + intros [[[]|(r' & Hr' & Hi & Hk & Hn & Hso)] Hne].
      split; [now apply String.eqb_neq|]. split; [exact Hso|]. split; [exact Hk|].
      now exists r'.
    + intros (Hne & Hso & Hk & r' & Hr' & Hi & Hn).
      split; [|now apply String.eqb_neq]. right. now exists r'.
Qed.

End SelectionFacts.

(** ** The orders route: paging and counting *)

Module PagingFacts.
Import Str Query Paging QueryFacts.

(** X22: the route never asks the warehouse for more than 500 rows or for a
    negative number of rows or a negative offset.  A whole limit between 1
    and 500 is used as it is, a larger one becomes 500, an offset that is a
    whole number and not negative is used as it is; a limit that is not a
    positive finite number becomes 25, except that a limit strictly between
    0 and 1 becomes 0: these are the only limits that give an empty page. *)
Theorem limit_and_offset_are_clamped (p : parsed) :
  0 <= limitNum p <= 500 /\ 0 <= offsetNum p /\
  (limitNum p = 0 <-> exists n d, p = Ratio n d /\ 0 < n < Z.pos d) /\
  (forall k, 1 <= k <= 500 -> limitNum (Ratio k 1) = k) /\
  (forall k, 500 <= k -> limitNum (Ratio k 1) = 500) /\
  (forall k, 0 <= k -> offsetNum (Ratio k 1) = k) /\
  ((forall n d, p = Ratio n d -> n <= 0) -> limitNum p = 25).
Proof.
  split; [|split; [|split; [|split; [|split; [|split]]]]].
  - destruct p as [n d| |]; simpl; try lia.
    destruct (Z.ltb_spec 0 n); [|lia].
    pose proof (Z.div_pos n (Z.pos d)). lia.
  - destruct p as [n d| |]; simpl; try lia.
    destruct (Z.leb_spec 0 n); [|lia]. apply Z.div_pos; lia.
  - split.
    + destruct p as [n d| |]; simpl; try discriminate.
      destruct (Z.ltb_spec 0 n) as [Hn|Hn]; [|discriminate].
      intros H. exists n, d. split; [reflexivity|]. split; [exact Hn|].
      assert (Hq : n `div` Z.pos d = 0) by lia.
      apply Z.div_small_iff in Hq; lia.
    + intros (n & d & -> & Hn & Hd). simpl.
      destruct (Z.ltb_spec 0 n); [|lia]. rewrite Z.div_small by lia. reflexivity.
  - intros k Hk. simpl. destruct (Z.ltb_spec 0 k); [|lia]. rewrite Z.div_1_r. lia.
  - intros k Hk. simpl. destruct (Z.ltb_spec 0 k); [|lia]. rewrite Z.div_1_r. lia.
  - intros k Hk. simpl. destruct (Z.leb_spec 0 k); [|lia]. apply Z.div_1_r.
  - intros Hp. destruct p as [n d| |]; simpl; try reflexivity.
    specialize (Hp n d eq_refl). destruct (Z.ltb_spec 0 n); [lia | reflexivity].
Qed.

Lemma limit_and_offset_are_clamped_witness :
  limitNum (Ratio 1 2) = 0 /\ limitNum (Ratio 600 1) = 500 /\ limitNum (Infinite false) = 25.
Proof.
  destruct (limit_and_offset_are_clamped (Ratio 1 2)) as (_ & _ & [_ H0] & _ & H500 & _).
  destruct (limit_and_offset_are_clamped (Infinite false)) as (_ & _ & _ & _ & _ & _ & H25).
  split; [|split].
  - apply H0. exists 1, 2%positive. split; [reflexivity | lia].
  - apply H500. lia.
  - apply H25. intros n d E. discriminate E.
Defined.

Lemma served_page_eq joined limit page :
  served_page joined limit page
  = take (Z.to_nat (Z.min 500 (Z.of_nat limit)))
      (drop (page * limit) (Sorting.sort_by rank_gtb (deduped joined)))
  \/ limit = 0%nat.
Proof.
  destruct limit as [|n]; [now right|]. left.
  unfold served_page, select_page, limitNum, offsetNum.
  destruct (Z.ltb_spec 0 (Z.of_nat (S n))); [|lia].
  destruct (Z.leb_spec 0 (Z.of_nat (page * S n))); [|lia].
  rewrite !Z.div_1_r, Nat2Z.id. reflexivity.
Qed.

(** X23: the pages the hook asks for tile the ranked result, taken in one
    order for every page, when its limit is between 1 and 500: the first [k]
    pages, one after the other, are the first [k * limit] rows of the
    result, none skipped and none repeated.  With a larger limit the route
    serves only the first 500 rows of each stretch of [limit] rows. *)
Theorem pages_tile_the_result (joined : list JoinedRow) (limit : nat) :
  ((1 <= limit <= 500)%nat ->
   forall k, concat (map (served_page joined limit) (seq 0 k))
             = take (k * limit) (Sorting.sort_by rank_gtb (deduped joined))) /\
  ((500 < limit)%nat ->
   forall page, served_page joined limit page
                = take 500 (drop (page * limit) (Sorting.sort_by rank_gtb (deduped joined)))).
Proof.
  split.
  - intros Hl k. induction k as [|k IH]; [reflexivity|].
    rewrite seq_S, map_app, concat_app, IH. simpl. rewrite app_nil_r.
    destruct (served_page_eq joined limit k) as [-> | ->]; [|lia].
    replace (Z.to_nat (Z.min 500 (Z.of_nat limit))) with limit by lia.
    rewrite take_take_drop. f_equal. lia.
  - intros Hl page.
    destruct (served_page_eq joined limit page) as [-> | ->]; [|lia].
    f_equal. lia.
Qed.

Lemma pages_tile_the_result_witness :
  concat (map (served_page QuerySample.joined 1) (seq 0 2))
  = take 2 (Sorting.sort_by rank_gtb (deduped QuerySample.joined)).
Proof.
  apply (proj1 (pages_tile_the_result QuerySample.joined 1)). lia.
Defined.

(** *** The count *)

Lemma kept_once joined x :
  x ∈ joined ->
  length (List.filter (in_partition (partition_key x)) (deduped joined)) = 1%nat.
Proof.
  intros Hx.
  destruct (minimum_exists (partition_key x) joined x Hx eq_refl) as (y & Hy & Hyk & Hmin).
  apply (exactly_one_kept (partition_key x) joined [] y); auto.
  intros z Hz. now apply elem_of_nil in Hz.
Qed.

Lemma nodup_of_unique (l : list JoinedRow) :
  (forall x, x ∈ l -> length (List.filter (in_partition (partition_key x)) l) = 1%nat) ->
  NoDup (map partition_key l).
Proof.
  induction l as [|a l IH]; intros H; [constructor|].
  assert (Ha : List.filter (in_partition (partition_key a)) l = []).
  { pose proof (H a (list_elem_of_here _ _)) as H1. simpl in H1.
    unfold in_partition at 1 in H1. rewrite bool_decide_eq_true_2 in H1 by reflexivity.
    simpl in H1. destruct (List.filter _ l); [reflexivity | discriminate]. }
  assert (Hfresh : forall y, y ∈ l -> partition_key y <> partition_key a).
  { intros y Hy E.
    assert (Hin : y ∈ List.filter (in_partition (partition_key a)) l).
    { apply TableFacts.elem_of_lfilter. split; [exact Hy|]. now apply bool_decide_eq_true. }
    rewrite Ha in Hin. now apply elem_of_nil in Hin. }
  simpl. constructor.
  - intros Hin. apply list_elem_of_fmap_1 in Hin as (y & E & Hy).
    now apply (Hfresh y Hy).
  - apply IH. intros y Hy. pose proof (H y (list_elem_of_further _ _ _ Hy)) as H1.
    simpl in H1. unfold in_partition at 1 in H1.
    rewrite bool_decide_eq_false_2 in H1; [exact H1|].
    intros E. now apply (Hfresh y Hy).
Qed.

(** The query returns one row for each partition key met in [joined]. *)
Lemma deduped_keys joined :
  map partition_key (deduped joined) ≡ₚ remove_dups (map partition_key joined).
Proof.
  apply NoDup_Permutation.
  - apply nodup_of_unique. intros x Hx. apply kept_once.
    now apply deduped_go_sub in Hx.
  - apply NoDup_remove_dups.
  - intros k. rewrite elem_of_remove_dups. split.
    + intros H. apply list_elem_of_fmap_1 in H as (y & -> & Hy).
      apply (list_elem_of_fmap_2 partition_key). now apply deduped_go_sub in Hy.
    + intros H. apply list_elem_of_fmap_1 in H as (x & -> & Hx).
      pose proof (kept_once joined x Hx) as H1.
      destruct (List.filter _ (deduped joined)) as [|y l] eqn:E; [discriminate|].
      assert (Hy : y ∈ List.filter (in_partition (partition_key x)) (deduped joined)).
      { rewrite E. apply list_elem_of_here. }
      apply TableFacts.elem_of_lfilter in Hy as [Hy Hk].
      apply bool_decide_eq_true in Hk. rewrite <- Hk.
      now apply (list_elem_of_fmap_2 partition_key).
Qed.

Lemma count_key_concat r : count_key r = concat_key (partition_key r).
Proof. unfold count_key, concat_key, partition_key. now destruct (Item r). Qed.

Lemma omap_count_key l : omap count_key l = omap concat_key (map partition_key l).
Proof.
  induction l as [|r l IH]; [reflexivity|].
  change (omap count_key (r :: l))
    with (match count_key r with
          | Some y => y :: omap count_key l
          | None => omap count_key l
          end).
  change (omap concat_key (map partition_key (r :: l)))
    with (match concat_key (partition_key r) with
          | Some y => y :: omap concat_key (map partition_key l)
          | None => omap concat_key (map partition_key l)
          end).
  rewrite count_key_concat, IH. reflexivity.
Qed.

Lemma omap_length {A B} (f : A -> option B) l : (length (omap f l) <= length l)%nat.
Proof.
  induction l as [|x l IH]; [reflexivity|].
  change (omap f (x :: l))
    with (match f x with Some y => y :: omap f l | None => omap f l end).
  destruct (f x); cbn [length]; lia.
Qed.

Lemma concat_key_inj k1 k2 s :
  pipe_free k1.1.1 = true -> pipe_free (default "" k1.1.2) = true ->
  pipe_free k2.1.1 = true -> pipe_free (default "" k2.1.2) = true ->
  concat_key k1 = Some s -> concat_key k2 = Some s -> k1 = k2.
Proof.
  destruct k1 as [[so1 [i1|]] c1], k2 as [[so2 [i2|]] c2]; simpl; try discriminate.
  intros H1 H2 H3 H4 [= <-] [= E].
  apply (StrFacts.append_pipe_inj so2 so1) in E as [-> E]; [|assumption..].
  apply (StrFacts.append_pipe_inj i2 i1) in E as [-> ->]; [|assumption..].
  reflexivity.
Qed.

Lemma omap_concat_nodup (l : list (string * option string * string)) :
  NoDup l ->
  (forall k, k ∈ l ->
     pipe_free k.1.1 = true /\ pipe_free (default "" k.1.2) = true /\
     concat_key k <> None) ->
  NoDup (omap concat_key l) /\ length (omap concat_key l) = length l.
Proof.
  induction l as [|k l IH]; intros Hnd Hkeys; [split; [constructor | reflexivity]|].
  apply NoDup_cons in Hnd as [Hk Hnd].
  destruct IH as [IH1 IH2];
    [exact Hnd | intros k' Hk'; apply Hkeys; now apply list_elem_of_further|].
  destruct (Hkeys k (list_elem_of_here _ _)) as (H1 & H2 & Hn).
  change (omap concat_key (k :: l))
    with (match concat_key k with
          | Some y => y :: omap concat_key l
          | None => omap concat_key l
          end).
  destruct (concat_key k) as [s|] eqn:Es; [|now destruct Hn].
  split; [|cbn [length]; now rewrite IH2].
  constructor; [|exact IH1].
  intros Hin. apply list_elem_of_omap in Hin as (k' & Hk' & Es').
  destruct (Hkeys k' (list_elem_of_further _ _ _ Hk')) as (H3 & H4 & _).
  rewrite (concat_key_inj k k' s H1 H2 H3 H4 Es Es') in Hk. now apply Hk.
Qed.

(** X24: the total the route reports is never more than the number of rows
    its query returns over all pages, and it falls short only for rows the
    count confuses: the two are equal when every selected order line has an
    item and neither its order number nor its item holds the separator of
    the count's key. *)
Theorem count_is_at_most_the_rows (joined : list JoinedRow) :
  (count_distinct joined <= length (deduped joined))%nat /\
  ((forall r, r ∈ joined -> countable r) ->
   count_distinct joined = length (deduped joined)).
Proof.
  unfold count_distinct.
  rewrite <- (length_map partition_key (deduped joined)), (Permutation_length (deduped_keys joined)).
  rewrite omap_count_key.
  set (keys := map partition_key joined).
  assert (Hsub : forall s, s ∈ remove_dups (omap concat_key keys)
                           <-> s ∈ omap concat_key (remove_dups keys)).
  { intros s. rewrite elem_of_remove_dups, !list_elem_of_omap.
    split; intros (k & Hk & E); exists k; (split; [|exact E]);
      now apply elem_of_remove_dups. }
  split.
  - etransitivity; [|apply (omap_length concat_key)].
    apply submseteq_length, NoDup_submseteq; [apply NoDup_remove_dups|].
    intros s. apply Hsub.
  - intros Hok.
    assert (Hkeys : forall k, k ∈ remove_dups keys ->
              pipe_free k.1.1 = true /\ pipe_free (default "" k.1.2) = true /\
              concat_key k <> None).
    { intros k Hk. rewrite elem_of_remove_dups in Hk. subst keys.
      apply list_elem_of_fmap_1 in Hk as (r & -> & Hr).
      destruct (Hok r Hr) as (Hi & Hso & Hit). unfold partition_key. simpl.
      split; [exact Hso|]. split; [exact Hit|].
      destruct (Item r); [discriminate | now destruct Hi]. }
    destruct (omap_concat_nodup (remove_dups keys) (NoDup_remove_dups keys) Hkeys)
      as [Hnd Hlen].
    rewrite <- Hlen.
    apply Permutation_length, NoDup_Permutation;
      [apply NoDup_remove_dups | exact Hnd | exact Hsub].
Qed.

Lemma count_is_at_most_the_rows_witness :
  count_distinct QuerySample.joined = length (deduped QuerySample.joined).
Proof.
  apply (proj2 (count_is_at_most_the_rows QuerySample.joined)).
  intros r Hr. vm_compute in Hr.
  repeat (apply elem_of_cons in Hr as [->|Hr];
          [split; [discriminate | split; vm_compute; reflexivity]|]).
  now apply elem_of_nil in Hr.
Defined.

End PagingFacts.

(** ** Across the boundaries: saved rows and stock requests *)

Module BoundaryFacts.
Import Str Table Effects Cycle Pipeline Reconciler Actions StageProps.
Import DispatchBoundary StockBoundary StrFacts TableFacts.

(** *** Lower case *)

Lemma is_space_lower c : is_space (lower_char c) = is_space c.
Proof. all_chars c. Qed.

Lemma lower_char_idem c : lower_char (lower_char c) = lower_char c.
Proof. all_chars c. Qed.

Lemma toLowerCase_idem s : toLowerCase (toLowerCase s) = toLowerCase s.
Proof.
  unfold toLowerCase. induction s as [|c r IH]; simpl; [reflexivity|].
  now rewrite lower_char_idem, IH.
Qed.

Lemma is_empty_lower s : is_empty (toLowerCase s) = is_empty s.
Proof. now destruct s. Qed.

Lemma trimStart_lower s : trimStart (toLowerCase s) = toLowerCase (trimStart s).
Proof.
  unfold toLowerCase. induction s as [|c r IH]; simpl; [reflexivity|].
  rewrite is_space_lower.
  destruct (is_space c); [exact IH | reflexivity].
Qed.

Lemma trimEnd_lower s : trimEnd (toLowerCase s) = toLowerCase (trimEnd s).
Proof.
  pose proof is_empty_lower as He. unfold toLowerCase in *.
  induction s as [|c r IH]; simpl; [reflexivity|].
  rewrite is_space_lower, IH, He.
  now destruct (is_space c && is_empty (trimEnd r)).
Qed.

Lemma trim_lower s : trim (toLowerCase s) = toLowerCase (trim s).
Proof. unfold trim. now rewrite trimStart_lower, trimEnd_lower. Qed.

(** The route's normalisation leaves a key of the table as it is. *)
Lemma normItemKey_fixed v :
  toLowerCase (trim (normItemKey v)) = normItemKey v.
Proof.
  unfold normItemKey. destruct v as [s|]; [|reflexivity].
  destruct (is_empty s); [reflexivity|].
  now rewrite trim_lower, trim_idem, toLowerCase_idem.
Qed.

(** *** The stock batch *)

Lemma batch_items_fixed (ks : list string) :
  (forall k, k ∈ ks -> k <> "" /\ toLowerCase (trim k) = k) ->
  batch_items (map Some ks) = ks.
Proof.
  unfold batch_items. induction ks as [|k ks IH]; intros H; [reflexivity|].
  destruct (H k (list_elem_of_here _ _)) as [Hne Hk]. simpl. rewrite Hk.
  destruct k; [now destruct Hne|]. simpl. f_equal.
  apply IH. intros k' Hk'. apply H. now apply list_elem_of_further.
Qed.

Lemma stock_keys_elem l k :
  k ∈ stock_keys l <-> k <> "" /\ exists r, r ∈ l /\ stock_item_key r = k.
Proof.
  unfold stock_keys. rewrite elem_of_remove_dups, elem_of_lfilter, negb_true_iff.
  split.
  - intros [H Hne]. apply list_elem_of_fmap_1 in H as (r & -> & Hr).
    split; [now destruct (stock_item_key r)|]. now exists r.
  - intros (Hne & r & Hr & <-). split; [now apply (list_elem_of_fmap_2 stock_item_key)|].
    now destruct (stock_item_key r).
Qed.

Lemma stock_keys_batch l : batch_items (map Some (stock_keys l)) = stock_keys l.
Proof.
  apply batch_items_fixed. intros k Hk. apply stock_keys_elem in Hk as (Hne & r & _ & <-).
  split; [exact Hne|]. unfold stock_item_key. apply normItemKey_fixed.
Qed.

Lemma omap_lfilter {A B} (f : A -> option B) (p : A -> bool) l :
  (forall x, f x <> None -> p x = true) -> omap f (List.filter p l) = omap f l.
Proof.
  intros H. induction l as [|x l IH]; [reflexivity|].
  change (omap f (x :: l))
    with (match f x with Some y => y :: omap f l | None => omap f l end).
  simpl List.filter. destruct (p x) eqn:Ep.
  - change (omap f (x :: List.filter p l))
      with (match f x with
            | Some y => y :: omap f (List.filter p l)
            | None => omap f (List.filter p l)
            end).
    now rewrite IH.
  - destruct (f x) eqn:Ef; [|exact IH].
    rewrite H in Ep by (rewrite Ef; discriminate). discriminate.
Qed.

Lemma batch_holds_the_item js table rows r :
  r ∈ rows -> stock_item_key r <> "" ->
  omap (counted js (stock_item_key r)) (stock_batch table (map Some (stock_keys rows)))
  = omap (counted js (stock_item_key r)) table.
Proof.
  intros Hr Hk. unfold stock_batch. rewrite stock_keys_batch.
  assert (Hin : stock_item_key r ∈ stock_keys rows).
  { apply stock_keys_elem. split; [exact Hk|]. now exists r. }
  destruct (stock_keys rows) as [|k0 ks] eqn:E; [now apply elem_of_nil in Hin|].
  apply omap_lfilter. intros s Hs. unfold counted in Hs.
  destruct (String.eqb_spec (stock_norm s) (stock_item_key r)) as [En|]; [|now destruct Hs].
  unfold stock_norm in En. unfold lower_trim_in.
  destruct (stock_normalized_item s) as [n|]; simpl in En.
  - rewrite En, bool_decide_eq_true_2 by exact Hin. reflexivity.
  - destruct (stock_Item s) as [i|]; simpl in En.
    + rewrite En, bool_decide_eq_true_2 by exact Hin. reflexivity.
    + now destruct Hk.
Qed.

(** X25: the batch request loses no stock.  The table asks for the items of
    its rows, already normalised; the route's own normalisation leaves them
    as they are, and every record of the stock table that the table would
    count for the item of a row is in the answer: the stock attached to a
    row that has an item is the one the whole stock table gives.  No closing
    stock is taken to be an infinity. *)
Theorem batch_request_loses_no_stock js (table : list StockRow)
    (rows : list SalesOrderRow) (r : SalesOrderRow) :
  r ∈ rows -> stock_item_key r <> "" -> no_infinite_stock js table ->
  batch_items (map Some (stock_keys rows)) = stock_keys rows /\
  Stock (annotate_stock
           (aggregate_stock js (stock_batch table (map Some (stock_keys rows)))) r)
  = Stock (annotate_stock (aggregate_stock js table) r).
Proof.
  intros Hr Hk Hfin. split; [apply stock_keys_batch|].
  assert (Hfin' : no_infinite_stock js (stock_batch table (map Some (stock_keys rows)))).
  { intros s Hs. apply Hfin. unfold stock_batch in Hs.
    destruct (batch_items _); [now apply elem_of_nil in Hs|].
    now apply elem_of_lfilter in Hs as [Hs _]. }
  rewrite !StageFacts.annotated_stock by assumption.
  unfold stock_sum. now rewrite (batch_holds_the_item js table rows r Hr Hk).
Qed.

Lemma batch_request_loses_no_stock_witness :
  Stock (annotate_stock
           (aggregate_stock Sample.builtins
              (stock_batch BoundarySample.stock_table
                 (map Some (stock_keys [Sample.order1; Sample.order2])))) Sample.order1)
  = Some (Fin 9).
Proof.
  destruct (batch_request_loses_no_stock Sample.builtins BoundarySample.stock_table
              [Sample.order1; Sample.order2] Sample.order1) as [_ ->].
  - apply list_elem_of_here.
  - vm_compute. discriminate.
  - intros s Hs. vm_compute in Hs.
    repeat (apply elem_of_cons in Hs as [->|Hs]; [vm_compute; split; discriminate|]).
    now apply elem_of_nil in Hs.
  - vm_compute. reflexivity.
Defined.

(** *** The dispatched keys *)

Lemma no_open_no_pair s : mem_char is_open s = false -> no_pair s = true.
Proof.
  induction s as [|c r IH]; simpl; [reflexivity|].
  intros H. apply orb_false_iff in H as [Hc Hr]. rewrite Hc. simpl. now apply IH.
Qed.

(** Where there is no bracket the normaliser of the table does what the
    warehouse does to build its key. *)
Lemma normalizeFieldForKey_sql v :
  bracket_free v = true -> normalizeFieldForKey v = sql_upper_trim v.
Proof.
  unfold bracket_free, normalizeFieldForKey, sql_upper_trim. intros H.
  apply negb_true_iff in H.
  rewrite strip_brackets_fixed by now apply no_open_no_pair.
  now destruct v.
Qed.

Lemma normalizeFieldForKey_sql_trimmed s :
  bracket_free (Some s) = true ->
  normalizeFieldForKey (Some s) = sql_upper_trim (Some (trim s)).
Proof.
  intros H. rewrite (normalizeFieldForKey_sql _ H). unfold sql_upper_trim. simpl.
  now rewrite trim_idem.
Qed.

Lemma normalize_sent sr :
  normalize_row (dispatch_json sr)
  = if is_empty (trim (d_SO_No sr)) then None
    else Some {| st_SO_No := Some (trim (d_SO_No sr)); st_Customer := d_Customer sr;
                 st_Item := d_Item sr; st_Color := d_Color sr; st_Dispatched := true |}.
Proof.
  unfold normalize_row, dispatch_json. cbn [Js.field String.eqb Ascii.eqb Bool.eqb].
  destruct (is_empty (trim (d_SO_No sr))); [reflexivity|].
  unfold json_string, string_or_null.
  now destruct (d_Customer sr), (d_Item sr), (d_Color sr).
Qed.

Lemma dispatch_keys_of_elem table s :
  s ∈ table -> st_SO_No s <> None -> dispatch_key s ∈ dispatch_keys_of table.
Proof.
  intros Hs Hso. unfold dispatch_keys_of. apply elem_of_lfilter. split.
  - apply elem_of_remove_dups. apply (list_elem_of_fmap_2 dispatch_key).
    apply elem_of_lfilter. split; [exact Hs|]. now destruct (st_SO_No s).
  - unfold dispatch_key. now destruct (sql_upper_trim (st_SO_No s)).
Qed.

(** X26: a saved row stays hidden after a reload.  For a checked row with an
    order number, without a replacement colour and without an opening
    bracket in its four key fields: the row the table sends is stored by the
    dispatch route, the keys route then lists a key for it, and a cycle that
    reads these keys does not show any row with the key of the saved row. *)
Theorem saved_row_stays_hidden js st (r : SalesOrderRow) (table : list Stored)
    env filters pm body :
  r ∈ rows st -> is_selected st r = true ->
  selectedColors st !! rowKey r = None -> New_Color r = None ->
  trim (orEmpty (SO_No r)) <> "" ->
  bracket_free (SO_No r) = true -> bracket_free (Customer r) = true ->
  bracket_free (Item r) = true -> bracket_free (Color r) = true ->
  (forall s, s ∈ rowsToInsert (map dispatch_json (selectedRows st)) -> s ∈ table) ->
  dispatch_keys env = Ok200 (map Some (dispatch_keys_of table)) ->
  rowKey r ∈ dispatch_keys_of table /\
  rowKey r ∈ fetched_dispatched env /\
  forall r', r' ∈ visible_rows js env filters pm body -> rowKey r' <> rowKey r.
Proof.
  intros Hr Hsel Hc Hn Hso Hb1 Hb2 Hb3 Hb4 Hstored Hkeys.
  set (sr := dispatch_out st r).
  assert (Hsent : sr ∈ selectedRows st).
  { unfold selectedRows. apply (list_elem_of_fmap_2 (dispatch_out st)).
    now apply elem_of_lfilter. }
  assert (Hfields : d_SO_No sr = orEmpty (SO_No r) /\ d_Customer sr = Customer r /\
                    d_Item sr = Item r /\ d_Color sr = Color r).
  { subst sr. unfold dispatch_out. cbn [d_SO_No d_Customer d_Item d_Color].
    rewrite Hc, Hn. now repeat split. }
  destruct Hfields as (F1 & F2 & F3 & F4).
  set (s := {| st_SO_No := Some (trim (orEmpty (SO_No r))); st_Customer := Customer r;
               st_Item := Item r; st_Color := Color r; st_Dispatched := true |}).
  assert (Hs : s ∈ table).
  { apply Hstored. unfold rowsToInsert. apply list_elem_of_omap.
    exists (dispatch_json sr). split; [now apply (list_elem_of_fmap_2 dispatch_json)|].
    rewrite normalize_sent, F1, F2, F3, F4.
    destruct (trim (orEmpty (SO_No r))) eqn:E; [now destruct Hso | reflexivity]. }
  assert (Hkey : dispatch_key s = rowKey r).
  { unfold dispatch_key, rowKey, s. cbn [st_SO_No st_Customer st_Item st_Color].
    rewrite VerifyMoreFacts.makeDispatchKey_upper. unfold makeDispatchKey.
    rewrite (normalizeFieldForKey_sql _ Hb2), (normalizeFieldForKey_sql _ Hb3),
      (normalizeFieldForKey_sql _ Hb4).
    destruct (SO_No r) as [so|]; [|now destruct Hso].
    now rewrite (normalizeFieldForKey_sql_trimmed _ Hb1). }
  assert (Hin : rowKey r ∈ dispatch_keys_of table).
  { rewrite <- Hkey. now apply dispatch_keys_of_elem. }
  assert (Hset : rowKey r ∈ fetched_dispatched env).
  { apply (DispatchFacts.fetched_key_of_row env _ r Hkeys).
    now apply (list_elem_of_fmap_2 Some). }
  split; [exact Hin|]. split; [exact Hset|].
  intros r' Hr' E. apply visible_rows_elem in Hr' as (_ & _ & Hd & _).
  apply Hd. now rewrite E.
Qed.

Lemma saved_row_stays_hidden_witness :
  Forall (fun r' => rowKey r' <> "SO-2|ZED|CD34|BLUE")
    (visible_rows Sample.builtins BoundarySample.env_after_save Sample.no_filter ∅
       {| body_rows := [Sample.order1; Sample.order2]; body_total := Fin 2 |}).
Proof.
  apply Forall_forall. intros r' Hr'.
  remember (rows SampleState.so2_checked) as l eqn:El. vm_compute in El.
  match type of El with _ = [?r] =>
    destruct (saved_row_stays_hidden Sample.builtins SampleState.so2_checked r
                BoundarySample.table BoundarySample.env_after_save Sample.no_filter ∅
                {| body_rows := [Sample.order1; Sample.order2]; body_total := Fin 2 |})
      as (_ & _ & H);
      [vm_compute; constructor
      | vm_compute; reflexivity
      | vm_compute; reflexivity
      | reflexivity
      | vm_compute; discriminate
      | vm_compute; reflexivity
      | vm_compute; reflexivity
      | vm_compute; reflexivity
      | vm_compute; reflexivity
      | intros s Hs; exact Hs
      | reflexivity
      | exact (H r' Hr')]
  end.
Defined.

End BoundaryFacts.

(** ** The verification boundary: a request and the next reload *)

Module VerifyBoundaryFacts.
Import Str Table Effects Cycle Pipeline Reconciler Actions Verify VerifyProps.
Import VerifyBoundary StrFacts TableFacts VerifyFacts.

Lemma merge_val_either prop e v : merge_val prop e v = e \/ merge_val prop e v = v.
Proof.
  unfold merge_val. destruct v as [w|]; [|now left].
  destruct (is_vacant e); [destruct (Js.nullish (Some w)); auto|].
  destruct (String.eqb prop "verified_at"); [|now left].
  destruct (negb (hasTimestamp e) && hasTimestamp (Some w)); auto.
Qed.

(** Records without a timestamp merge into a record without one. *)
Lemma no_timestamp_fold vs : forall e,
  hasTimestamp e = false -> Forall (fun v => hasTimestamp v = false) vs ->
  hasTimestamp (fold_left (merge_val "verified_at") vs e) = false.
Proof.
  induction vs as [|v vs IH]; intros e He Hvs; simpl; [exact He|].
  apply Forall_cons in Hvs as [Hv Hvs]. apply IH; [|exact Hvs].
  destruct (merge_val_either "verified_at" e v) as [-> | ->]; assumption.
Qed.

(** What the server takes for no timestamp, the table takes for none. *)
Lemma no_timestamp_for_the_table v :
  hasTimestamp v = false -> verifyHasTimestamp v = false.
Proof.
  destruct v as [[|b|n|s|o]|]; simpl; try (intros H; first [exact H | discriminate H]).
  destruct o as [|p o]; [reflexivity|]. intros H. exfalso. revert H.
  destruct (_ && _); [discriminate|]. destruct (_ && _); discriminate.
Qed.

Lemma index_pending l r :
  r ∈ l -> verifyHasTimestamp (r !! "verified_at") = false ->
  recordKey r ∈ localPendingSet (index_verifications l).
Proof.
  induction l as [|x l IH] using rev_ind; intros Hin Hts.
  - now apply elem_of_nil in Hin.
  - rewrite VerifyMoreFacts.index_snoc. apply elem_of_app in Hin as [Hin|Hin].
    + specialize (IH Hin Hts). unfold index_record.
      destruct (verifyHasTimestamp (x !! "verified_at")); cbn [localPendingSet];
        [exact IH | now apply elem_of_union_r].
    + apply list_elem_of_singleton in Hin as <-. unfold index_record. rewrite Hts.
      cbn [localPendingSet]. apply elem_of_union_l. now apply elem_of_singleton.
Qed.

(** The key fields of the stored record are those of the row sent. *)
Lemma stored_fields js (out : OutgoingRow) :
  let s := buildWhitelistedRow js (verify_json out) in
  Js.as_string (s !! "SO_No") = Some (out_SO_No out) /\
  Js.as_string (s !! "Customer") = out_Customer out /\
  Js.as_string (s !! "Item") = out_Item out /\
  Js.as_string (s !! "Color") = out_Color out /\
  s !! "verified_at" = Some JNull.
Proof.
  destruct out as [so c i col nc sz q d].
  destruct c, i, col; vm_compute; repeat split.
Qed.

Lemma stored_key js st r out :
  outgoing st r = Some out -> rowGroupKey (buildWhitelistedRow js (verify_json out)) = rowKey r.
Proof.
  intros Hout. rewrite <- (HandlerFacts.outgoingKey_rowKey st r out Hout).
  destruct (stored_fields js out) as (F1 & F2 & F3 & F4 & _).
  unfold rowGroupKey, outgoingKey. rewrite F1, F2, F3, F4.
  symmetry. apply VerifyMoreFacts.makeDispatchKey_upper.
Qed.

(** The merged record of a group without timestamps has none, and is filed
    under the key of the group. *)
Lemma merged_pending_record (rawRows : list jsrecord) (s : jsrecord) :
  s ∈ rawRows ->
  (forall v, v ∈ rawRows -> separable v) ->
  (forall v, v ∈ rawRows -> rowGroupKey v = rowGroupKey s ->
             hasTimestamp (v !! "verified_at") = false) ->
  exists m, m ∈ mergeVerifyRows rawRows /\ rowGroupKey m = rowGroupKey s /\
            hasTimestamp (m !! "verified_at") = false.
Proof.
  intros Hs Hsep Hts.
  pose proof (merge_fold_get (rowGroupKey s) rawRows []) as Hget.
  cbn [map_get] in Hget. fold (merge_map rawRows) in Hget.
  assert (Hg : forall v, v ∈ group (rowGroupKey s) rawRows ->
                         v ∈ rawRows /\ rowGroupKey v = rowGroupKey s).
  { intros v Hv. unfold group in Hv. apply elem_of_lfilter in Hv as [Hv E].
    apply String.eqb_eq in E. now split. }
  destruct (group (rowGroupKey s) rawRows) as [|r0 g] eqn:Eg.
  - exfalso. assert (Hin : s ∈ group (rowGroupKey s) rawRows).
    { unfold group. apply elem_of_lfilter. split; [exact Hs | apply String.eqb_refl]. }
    rewrite Eg in Hin. now apply elem_of_nil in Hin.
  - exists (fold_left merge_into g r0).
    apply VerifyMoreFacts.map_get_some in Hget.
    pose proof (VerifyMoreFacts.merge_fold_filed rawRows [] Hsep (Forall_nil_2 _)) as Hf.
    fold (merge_map rawRows) in Hf.
    destruct (proj1 (Forall_forall _ _) Hf _ Hget) as [Hk _]. cbn [fst snd] in Hk.
    split; [|split].
    + unfold mergeVerifyRows.
      apply (list_elem_of_fmap_2 snd (merge_map rawRows) _ Hget).
    + exact Hk.
    + rewrite fold_merge_into_lookup. apply no_timestamp_fold.
      * destruct (Hg r0 (list_elem_of_here _ _)) as [H1 H2]. now apply Hts.
      * unfold column. apply Forall_forall. intros v Hv.
        apply list_elem_of_fmap_1 in Hv as (x & -> & Hx).
        destruct (Hg x (list_elem_of_further _ _ _ Hx)) as [H1 H2]. now apply Hts.
Qed.

(** X30: a verification request survives a reload.  The route stores, for
    every row the table sends, a record without a [verified_at] that has the
    key of the row.  As long as no record of that key in the verification
    table has a timestamp (and no key part of a record holds the separator),
    the merged answer of the route, in whatever order the table is read,
    puts the key of the row in the pending set of the next cycle, and the
    cycle shows no row with that key. *)
Theorem verification_request_survives_reload js st (r : SalesOrderRow) (out : OutgoingRow)
    (rawRows : list jsrecord) env filters pm body :
  r ∈ rows st -> outgoing st r = Some out ->
  (forall s, s ∈ verify_rowsToInsert js (map verify_json (rowsToSend st)) -> s ∈ rawRows) ->
  (forall v, v ∈ rawRows -> separable v) ->
  (forall v, v ∈ rawRows -> rowGroupKey v = rowKey r ->
             hasTimestamp (v !! "verified_at") = false) ->
  verify_rows env = Ok200 (mergeVerifyRows rawRows) ->
  let stored := buildWhitelistedRow js (verify_json out) in
  recordKey stored = rowKey r /\ stored !! "verified_at" = Some JNull /\
  rowKey r ∈ localPendingSet (fetched_verifications env) /\
  forall r', r' ∈ visible_rows js env filters pm body -> rowKey r' <> rowKey r.
Proof.
  intros Hr Hout Hstored Hsep Hts Henv stored.
  pose proof (stored_key js st r out Hout) as HK. fold stored in HK.
  assert (Hs : stored ∈ rawRows).
  { apply Hstored. unfold verify_rowsToInsert.
    apply (list_elem_of_fmap_2 (buildWhitelistedRow js)).
    apply (list_elem_of_fmap_2 verify_json). unfold rowsToSend.
    apply list_elem_of_omap. now exists r. }
  assert (Hpending : rowKey r ∈ localPendingSet (fetched_verifications env)).
  { destruct (merged_pending_record rawRows stored Hs Hsep) as (m & Hm & Hk & Hn).
    - intros v Hv E. apply Hts; [exact Hv | now rewrite E].
    - unfold fetched_verifications. rewrite Henv.
      rewrite <- HK, <- Hk, <- VerifyMoreFacts.recordKey_rowGroupKey.
      apply index_pending; [exact Hm | now apply no_timestamp_for_the_table]. }
  split; [now rewrite VerifyMoreFacts.recordKey_rowGroupKey|].
  split; [apply (stored_fields js out)|].
  split; [exact Hpending|].
  intros r' Hr' E. apply visible_rows_elem in Hr' as (_ & _ & _ & Hp & _).
  apply Hp. now rewrite E.
Qed.

Lemma verification_request_survives_reload_witness :
  Forall (fun r' => rowKey r' <> "SO-2|ZED|CD34|BLUE")
    (visible_rows Sample.builtins VerifySample2.env_after_request Sample.no_filter ∅
       {| body_rows := [Sample.order1; Sample.order2]; body_total := Fin 2 |}).
Proof.
  apply Forall_forall. intros r' Hr'.
  remember (rows SampleState.so2_checked) as l eqn:El. vm_compute in El.
  remember (rowsToSend SampleState.so2_checked) as ts eqn:Et. vm_compute in Et.
  match type of El with _ = [?r] =>
  match type of Et with _ = [?o] =>
    destruct (verification_request_survives_reload Sample.builtins SampleState.so2_checked
                r o VerifySample2.verified_table VerifySample2.env_after_request
                Sample.no_filter ∅
                {| body_rows := [Sample.order1; Sample.order2]; body_total := Fin 2 |})
      as (_ & _ & _ & H);
      [vm_compute; constructor
      | vm_compute; reflexivity
      | intros s Hs; exact Hs
      | intros v Hv; vm_compute in Hv;
        apply list_elem_of_singleton in Hv as ->; vm_compute; repeat constructor
      | intros v Hv _; vm_compute in Hv;
        apply list_elem_of_singleton in Hv as ->; reflexivity
      | reflexivity
      | exact (H r' Hr')]
  end end.
Defined.

End VerifyBoundaryFacts.
